(** * analyze-chrome-trace: classifier, aggregator and report merger

    A shallow embedding of [src/analyze-trace.js] and the properties of its
    specification.

    Modelling conventions.
    - A JavaScript number is an IEEE 754 binary64 value: Rocq's primitive
      [float].  Division, subtraction, addition and the comparisons of the
      source are the primitive operations, so every evaluation below is the
      evaluation the JavaScript engine performs.
    - A JavaScript string is a [string]; the characters are 8-bit, and
      [toLowerCase] and [trim] act on the ASCII letters and ASCII white
      space.
    - An array is a [list]; an array cell that may be a hole or [undefined]
      is an [option].
    - A [Map] is an association list in insertion order; a [Set] is a
      [gset] where only membership is read, and a list in insertion order
      where its elements are listed. *)

From Stdlib Require Import ZArith Floats String Ascii List Lia Bool.
From Stdlib Require Import DecimalString.
From Stdlib Require Import Sorted Orders Mergesort Permutation.
From stdpp Require Import base list strings gmap.

Open Scope Z_scope.

(** ** JavaScript strings *)

Definition isUpperCase (c : ascii) : bool :=
  let n := nat_of_ascii c in (65 <=? n)%nat && (n <=? 90)%nat.

Definition lowerChar (c : ascii) : ascii :=
  if isUpperCase c then ascii_of_nat (nat_of_ascii c + 32) else c.

(** [String.prototype.toLowerCase]. *)
Fixpoint toLowerCase (s : string) : string :=
  match s with
  | EmptyString => EmptyString
  | String c s' => String (lowerChar c) (toLowerCase s')
  end.

(** [String.prototype.startsWith]. *)
Fixpoint startsWith (s pat : string) : bool :=
  match pat, s with
  | EmptyString, _ => true
  | String _ _, EmptyString => false
  | String p pat', String c s' => Ascii.eqb c p && startsWith s' pat'
  end.

(** [String.prototype.includes]: [pat] occurs in [s] at some position. *)
Fixpoint includes (s pat : string) : bool :=
  startsWith s pat ||
  match s with
  | EmptyString => false
  | String _ s' => includes s' pat
  end.

Definition isWhiteSpace (c : ascii) : bool :=
  let n := nat_of_ascii c in
  ((9 <=? n)%nat && (n <=? 13)%nat) || (n =? 32)%nat.

Fixpoint trimStart (s : string) : string :=
  match s with
  | EmptyString => EmptyString
  | String c s' => if isWhiteSpace c then trimStart s' else s
  end.

Fixpoint trimEnd (s : string) : string :=
  match s with
  | EmptyString => EmptyString
  | String c s' =>
      match trimEnd s' with
      | EmptyString => if isWhiteSpace c then EmptyString else String c EmptyString
      | t => String c t
      end
  end.

(** [String.prototype.trim]. *)
Definition trim (s : string) : string := trimEnd (trimStart s).

(** [String.prototype.split] with a one-character separator. *)
Fixpoint split (sep : ascii) (s : string) : list string :=
  match s with
  | EmptyString => [EmptyString]
  | String c s' =>
      if Ascii.eqb c sep then EmptyString :: split sep s'
      else match split sep s' with
           | h :: t => String c h :: t
           | [] => [String c EmptyString]
           end
  end.

(** [Array.prototype.join] over already rendered cells. *)
Fixpoint join (sep : string) (l : list string) : string :=
  match l with
  | [] => EmptyString
  | [x] => x
  | x :: rest => x +:+ sep +:+ join sep rest
  end.

(** ** JavaScript values, truthiness, [&&] and [||] *)

Inductive JsValue : Type :=
  | JsUndefined
  | JsBool (b : bool)
  | JsNumber (x : float)
  | JsString (s : string).

Definition numberTruthy (x : float) : bool :=
  negb (PrimFloat.eqb x 0 || PrimFloat.is_nan x).

Definition stringTruthy (s : string) : bool :=
  match s with EmptyString => false | _ => true end.

Definition truthy (v : JsValue) : bool :=
  match v with
  | JsUndefined => false
  | JsBool b => b
  | JsNumber x => numberTruthy x
  | JsString s => stringTruthy s
  end.

Definition jsAnd (a b : JsValue) : JsValue := if truthy a then b else a.
Definition jsOr (a b : JsValue) : JsValue := if truthy a then a else b.

Definition ofString (o : option string) : JsValue :=
  match o with Some s => JsString s | None => JsUndefined end.

Definition ofNumber (o : option float) : JsValue :=
  match o with Some x => JsNumber x | None => JsUndefined end.

(** [o?.includes(pat)]. *)
Definition optIncludes (o : option string) (pat : string) : JsValue :=
  match o with Some s => JsBool (includes s pat) | None => JsUndefined end.

(** [ToNumber] of an optional numeric property: [undefined] becomes [NaN]. *)
Definition toNumber (o : option float) : float :=
  match o with Some x => x | None => PrimFloat.nan end.

(** ** Rendering numbers *)

(** Decimal digits of a natural number ([Number.prototype.toString] of a
    non-negative integer below [10^21]). *)
Definition digitsOfN (n : N) : string := NilZero.string_of_uint (N.to_uint n).

(** Decimal rendering of an integer, with a leading minus sign. *)
Definition digitsOfZ (z : Z) : string :=
  if z <? 0 then "-" +:+ digitsOfN (Z.to_N (- z)) else digitsOfN (Z.to_N z).

Definition digitChar (d : Z) : ascii := ascii_of_nat (48 + Z.to_nat d).

(** The integer [n] closest to [m * 2^e * 100]; of two closest, the larger
    one (step "let n be an integer for which n / 10^f - x is as close to
    zero as possible" of [Number.prototype.toFixed]). *)
Definition roundedHundredths (m : positive) (e : Z) : Z :=
  if 0 <=? e then Z.pos m * 2 ^ e * 100
  else (2 * (Z.pos m * 100) + 2 ^ (- e)) / 2 ^ (- e + 1).

(** [n] hundredths written with exactly two fraction digits. *)
Definition fixedDigits (n : Z) : string :=
  digitsOfN (Z.to_N (n / 100)) +:+ "." +:+
  String (digitChar (n mod 100 / 10)) (String (digitChar (n mod 10)) EmptyString).

(** [m * 2^e < 10^21], exactly. *)
Definition below1e21 (m : positive) (e : Z) : bool :=
  if 0 <=? e then Z.pos m * 2 ^ e <? 10 ^ 21
  else Z.pos m <? 10 ^ 21 * 2 ^ (- e).

(** *** [Number::toString] for magnitudes of at least [10^21]

    The shortest decimal [s * 10^p] (with [k] digits in [s]) that rounds to
    the double; of several, the closest to it, and of two equally close the
    even one.  The result is written in exponent notation. *)

Definition roundToDouble (z : Z) : spec_float :=
  binary_normalize prec emax z 0 false.

Definition decimalLength (v : Z) : Z :=
  Z.of_nat (String.length (digitsOfN (Z.to_N v))).

Definition candidatesAt (v : Z) (target : spec_float) (k p : Z)
  : list (Z * Z) :=
  if p <? 0 then []
  else
    List.filter (fun '(s, _) =>
              (10 ^ (k - 1) <=? s) && (s <? 10 ^ k) &&
              SFeqb (roundToDouble (s * 10 ^ p)) target)
           [(v / 10 ^ p, p); (v / 10 ^ p + 1, p)].

Definition closer (v : Z) (a b : Z * Z) : Z * Z :=
  let da := Z.abs (fst a * 10 ^ snd a - v) in
  let db := Z.abs (fst b * 10 ^ snd b - v) in
  if da <? db then a
  else if db <? da then b
  else if Z.even (fst a) then a else b.

Definition bestOf (v : Z) (l : list (Z * Z)) : option (Z * Z) :=
  match l with
  | [] => None
  | c :: rest => Some (fold_left (closer v) rest c)
  end.

Fixpoint shortestFrom (fuel : nat) (v : Z) (target : spec_float) (k : Z)
  : Z * Z :=
  let d := decimalLength v in
  match bestOf v (candidatesAt v target k (d - k) ++
                  candidatesAt v target k (d - k + 1)) with
  | Some c => c
  | None =>
      match fuel with
      | O => (v, 0)
      | S fuel' => shortestFrom fuel' v target (k + 1)
      end
  end.

Definition exponentNotation (s p : Z) : string :=
  let digits := digitsOfN (Z.to_N s) in
  let n := p + Z.of_nat (String.length digits) in
  match digits with
  | EmptyString => EmptyString
  | String d EmptyString => String d ("e+" +:+ digitsOfZ (n - 1))
  | String d rest => String d ("." +:+ rest +:+ "e+" +:+ digitsOfZ (n - 1))
  end.

Definition largeToString (m : positive) (e : Z) : string :=
  let v := Z.pos m * 2 ^ e in
  let '(s, p) := shortestFrom 17 v (S754_finite false m e) 1 in
  exponentNotation s p.

(** [Number.prototype.toFixed(2)]. *)
Definition toFixed2 (x : float) : string :=
  match Prim2SF x with
  | S754_nan => "NaN"
  | S754_infinity s => if s then "-Infinity" else "Infinity"
  | S754_zero _ => "0.00"
  | S754_finite s m e =>
      (if s then "-" else "") +:+
      (if below1e21 m e then fixedDigits (roundedHundredths m e)
       else largeToString m e)
  end.


(** ** Trace events *)

(** A trace event, with the properties the analysis reads.  An absent
    property is [None]; [ev_url] is [event.args?.data?.url]. *)
Record TraceEvent : Type := mkEvent {
  ev_ph : option string;
  ev_dur : option float;
  ev_name : option string;
  ev_cat : option string;
  ev_tid : option Z;
  ev_url : option string
}.

(** The parsed trace: an array of events, an object (whose [traceEvents]
    property is an array of events or something else), or any other JSON
    value (null, a boolean, a number, a string), of which only its
    truthiness matters. *)
Inductive TraceData : Type :=
  | TraceArray (events : list TraceEvent)
  | TraceObject (traceEvents : option (list TraceEvent))
  | TracePrimitive (isTruthy : bool).

(** ** Event classifier *)

Definition tbtCategories : list string :=
  [ "devtools.timeline"; "loading"; "scripting"; "rendering"; "painting";
    "v8"; "v8.execute"; "blink"; "benchmark";
    "disabled-by-default-devtools.timeline" ].

Definition tbtTaskTypes : list string :=
  [ "Script"; "EvaluateScript"; "V8.CompileScript"; "V8.CompileCode";
    "V8.CompileIgnition"; "V8.CompileEval"; "FunctionCall";
    "v8.callFunction"; "TimerFire"; "EventDispatch"; "RunTask";
    "Layout"; "UpdateLayoutTree"; "RecalculateStyles"; "ParseHTML";
    "ParseAuthorStyleSheet"; "StyleRecalculation"; "UpdateLayer";
    "Layerize";
    "Paint"; "CompositeLayers"; "UpdateLayerTree"; "PrePaint";
    "XHRReadyStateChange"; "ResourceSendRequest";
    "ResourceReceiveResponse"; "ResourceFinish" ].

(** The helper [containsAny] of [isPotentialTBTTask]. *)
Definition containsAny (str : string) (patterns : list string) : bool :=
  if negb (stringTruthy str) then false
  else existsb (fun pattern =>
                  includes (toLowerCase str) (toLowerCase pattern))
               patterns.

(** [event.cat.split(',').some(c => c.trim().toLowerCase().includes(cat.toLowerCase()))]. *)
Definition categoryListHas (eventCat cat : string) : bool :=
  existsb (fun c => includes (toLowerCase (trim c)) (toLowerCase cat))
          (split "," eventCat).

(** [tbtCategories.some(cat => ...)]. *)
Definition matchesTbtCategory (eventCat : string) : bool :=
  existsb (categoryListHas eventCat) tbtCategories.

(** The main-thread check of [isPotentialTBTTask]. *)
Definition mainThreadCheck (event : TraceEvent) : JsValue :=
  jsOr (jsOr (JsBool (match ev_tid event with Some 1 => true | _ => false end))
             (optIncludes (ev_name event) "MainThread"))
       (optIncludes (ev_cat event) "devtools.timeline").

(** The category-or-task-type check of [isPotentialTBTTask]. *)
Definition relevanceCheck (event : TraceEvent) : JsValue :=
  jsOr
    (jsAnd (ofString (ev_cat event))
           (JsBool (match ev_cat event with
                    | Some c => matchesTbtCategory c
                    | None => false
                    end)))
    (jsAnd (ofString (ev_name event))
           (JsBool (match ev_name event with
                    | Some n => containsAny n tbtTaskTypes
                    | None => false
                    end))).

(** The value the expression of [isPotentialTBTTask] evaluates to. *)
Definition isPotentialTBTTaskValue (event : TraceEvent) : JsValue :=
  jsAnd
    (jsAnd (JsBool (match ev_ph event with
                    | Some p => String.eqb p "X"
                    | None => false
                    end))
           (ofNumber (ev_dur event)))
    (jsAnd (mainThreadCheck event) (relevanceCheck event)).

(** [isPotentialTBTTask] as its caller reads it, in the condition of an
    [if]. *)
Definition isPotentialTBTTask (event : TraceEvent) : bool :=
  truthy (isPotentialTBTTaskValue event).

(** ** Blocking time *)

Definition calculateBlockingTime (event : TraceEvent) : float :=
  let durationMs := (toNumber (ev_dur event) / 1000)%float in
  if (50 <? durationMs)%float then (durationMs - 50)%float else 0%float.

Definition getEventKey (event : TraceEvent) : string :=
  match ev_name event with
  | Some n => if stringTruthy n then n else "Unknown Task"
  | None => "Unknown Task"
  end.

Definition getEventUrl (event : TraceEvent) : string :=
  match ev_url event with
  | Some u => if stringTruthy u then u else ""
  | None => ""
  end.

(** ** Task aggregator *)

Record Task : Type := mkTask {
  task_name : string;
  task_url : string;
  blockingTime : float;
  totalDuration : float;
  occurrences : N;
  category : string
}.

(** A [Map] with string keys, in insertion order. *)
Definition JsMap (V : Type) : Type := list (string * V).

Fixpoint mapGet {V} (m : JsMap V) (k : string) : option V :=
  match m with
  | [] => None
  | (k', v) :: rest => if String.eqb k' k then Some v else mapGet rest k
  end.

(** [Map.prototype.set]: the value of a present key is replaced where it
    stands, a new key is added at the end. *)
Fixpoint mapSet {V} (m : JsMap V) (k : string) (v : V) : JsMap V :=
  match m with
  | [] => [(k, v)]
  | (k', v') :: rest =>
      if String.eqb k' k then (k', v) :: rest else (k', v') :: mapSet rest k v
  end.

Definition uniqueKeyOf (event : TraceEvent) : string :=
  getEventKey event +:+ "|" +:+ getEventUrl event.

Definition eventCategory (event : TraceEvent) : string :=
  match ev_cat event with
  | Some c => if stringTruthy c then c else "unknown"
  | None => "unknown"
  end.

(** The body of [events.forEach] in [processTraceEvents]. *)
Definition processEvent (tasks : JsMap Task) (event : TraceEvent)
  : JsMap Task :=
  if isPotentialTBTTask event then
    let duration := (toNumber (ev_dur event) / 1000)%float in
    let blocking := calculateBlockingTime event in
    let key := getEventKey event in
    let url := getEventUrl event in
    let uniqueKey := key +:+ "|" +:+ url in
    let task :=
      match mapGet tasks uniqueKey with
      | Some t => t
      | None => mkTask key url 0 0 0%N (eventCategory event)
      end in
    mapSet tasks uniqueKey
      (mkTask (task_name task) (task_url task)
              (blockingTime task + blocking)%float
              (totalDuration task + duration)%float
              (occurrences task + 1)%N
              (category task))
  else tasks.

(** The loop and the final [Array.from(tasks.values())]. *)
Definition aggregate (events : list TraceEvent) : list Task :=
  map snd (fold_left processEvent events []).

(** [Array.isArray(traceData) ? traceData : traceData.traceEvents], when it
    is an array. *)
Definition eventsOf (traceData : TraceData) : option (list TraceEvent) :=
  match traceData with
  | TraceArray events => Some events
  | TraceObject traceEvents => traceEvents
  | TracePrimitive _ => None
  end.

(** [processTraceEvents]; [None] is the [TypeError] of [forEach] on a
    value that is not an array. *)
Definition processTraceEvents (traceData : TraceData) : option (list Task) :=
  aggregate <$> eventsOf traceData.

(** ** Report merger *)

(** A report is an array of rows, a row an array of cells; a cell is a
    string, or [None] where the array has a hole. *)
Abbreviation Row := (list (option string)).
Abbreviation Report := (list (list (option string))).

(** [`${row[i]}`]: a missing cell reads [undefined]. *)
Definition cellText (row : Row) (i : nat) : string :=
  match row !! i with
  | Some (Some s) => s
  | _ => "undefined"
  end.

(** [`${row[0]}|${row[1]}`]. *)
Definition rowKey (row : Row) : string :=
  cellText row 0 +:+ "|" +:+ cellText row 1.

(** [`${task.name}|${task.url}`]. *)
Definition taskKey (task : Task) : string :=
  task_name task +:+ "|" +:+ task_url task.

(** [row[i] = v]: an assignment past the end lengthens the array and
    leaves holes. *)
Definition setCell (i : nat) (v : string) (row : Row) : Row :=
  if (i <? length row)%nat then <[i := Some v]> row
  else row ++ replicate (i - length row) None ++ [Some v].

Definition hasLongTasks (task : Task) : string :=
  if (0 <? blockingTime task)%float then "Yes" else "No".

Definition metricCells (task : Task) : Row :=
  [ Some (toFixed2 (blockingTime task));
    Some (toFixed2 (totalDuration task));
    Some (digitsOfN (occurrences task)) ].

Definition absentCells : Row := [Some "-1"; Some "-1"; Some "-1"].

Definition fixedCells (task : Task) : Row :=
  [ Some (task_name task); Some (task_url task); Some (category task);
    Some (hasLongTasks task) ].

Definition firstHeader : Row :=
  [ Some "Task Name"; Some "URL"; Some "Category"; Some "Has Long Tasks";
    Some "Run 1 (Blocking Time)"; Some "Run 1 (Total Duration)";
    Some "Run 1 (Occurrences)" ].

Definition runLabels (n : Z) : Row :=
  [ Some ("Run " +:+ digitsOfZ n +:+ " (Blocking Time)");
    Some ("Run " +:+ digitsOfZ n +:+ " (Total Duration)");
    Some ("Run " +:+ digitsOfZ n +:+ " (Occurrences)") ].

(** The row of a task in the first run. *)
Definition firstRunRow (task : Task) : Row :=
  fixedCells task ++ metricCells task.

(** The row created for a task unseen so far, before its metrics are
    pushed: the fixed cells and the filler of [runCount] earlier runs. *)
Definition newRow (runCount : Z) (task : Task) : Row :=
  fixedCells task ++ concat (replicate (Z.to_nat runCount) absentCells).

(** The loop [for (let i = 1; i < existingReport.length; i++)] that fills
    [taskMap]. *)
Fixpoint indexRows (taskMap : JsMap nat) (i : nat) (rows : list Row)
  : JsMap nat :=
  match rows with
  | [] => taskMap
  | row :: rest => indexRows (mapSet taskMap (rowKey row) i) (S i) rest
  end.

Record MergeState : Type := mkState {
  st_report : Report;
  st_taskMap : JsMap nat;
  st_updated : gset string
}.

(** The body of [tasks.forEach] in the merge of a further run. *)
Definition mergeTask (runCount : Z) (st : MergeState) (task : Task)
  : MergeState :=
  let key := taskKey task in
  let '(rowIndex, report1, taskMap1) :=
    match mapGet (st_taskMap st) key with
    | None =>
        let rowIndex := length (st_report st) in
        (rowIndex, st_report st ++ [newRow runCount task],
         mapSet (st_taskMap st) key rowIndex)
    | Some rowIndex =>
        (rowIndex,
         if (0 <? blockingTime task)%float
         then alter (setCell 3 "Yes") rowIndex (st_report st)
         else st_report st,
         st_taskMap st)
    end in
  mkState (alter (fun row => row ++ metricCells task) rowIndex report1)
          taskMap1
          ({[ key ]} ∪ st_updated st).

(** The body of [taskMap.forEach] that fills the rows absent from the
    run. *)
Definition fillAbsent (updated : gset string) (report : Report)
    (entry : string * nat) : Report :=
  if bool_decide (entry.1 ∈ updated) then report
  else alter (fun row => row ++ absentCells) entry.2 report.

Definition updateReport (existingReport : Report) (tasks : list Task)
  : Report :=
  match existingReport with
  | [] => firstHeader :: map firstRunRow tasks
  | headerRow :: rows =>
      let runCount := (Z.of_nat (length headerRow) - 4) / 3 in
      let nextRunNumber := runCount + 1 in
      let report0 := (headerRow ++ runLabels nextRunNumber) :: rows in
      let taskMap := indexRows [] 1 rows in
      let st := fold_left (mergeTask runCount) tasks
                          (mkState report0 taskMap ∅) in
      fold_left (fillAbsent (st_updated st)) (st_taskMap st) (st_report st)
  end.

(** Successive runs merged into one report, from the empty report. *)
Definition mergeRuns (runs : list (list Task)) : Report :=
  fold_left updateReport runs [].

(** The (Task Name, URL) pair of a data row and of a task. *)
Definition rowPair (row : Row) : string * string :=
  (cellText row 0, cellText row 1).

Definition taskPair (task : Task) : string * string :=
  (task_name task, task_url task).

(** The data rows: the rows after the header. *)
Definition dataRows (report : Report) : list Row := tail report.

(** ** The run: read, classify, merge, write *)

(** The file system, as far as the run observes it: the content of the
    regular files, and the paths that refuse a write. *)
Record FileSystem : Type := mkFS {
  files : gmap string string;
  readOnly : gset string
}.

Inductive RunError : Type :=
  | InputFileNotFound (path : string)
  | FailedToParseJSON
  | InvalidTraceFormat
  | NotAnArray
  | ReadFailed (path : string)
  | WriteFailed (path : string).

(** A computation that reads and writes files and may throw. *)
Definition IO (A : Type) : Type := FileSystem -> (RunError + A) * FileSystem.

Definition ioRet {A} (a : A) : IO A := fun fs => (inr a, fs).
Definition ioThrow {A} (e : RunError) : IO A := fun fs => (inl e, fs).
Definition ioBind {A B} (c : IO A) (k : A -> IO B) : IO B :=
  fun fs =>
    match c fs with
    | (inl e, fs') => (inl e, fs')
    | (inr a, fs') => k a fs'
    end.

#[global] Instance io_ret : MRet IO := @ioRet.
#[global] Instance io_bind : MBind IO := fun A B k c => ioBind c k.

Definition existsSync (path : string) : IO bool :=
  fun fs => (inr (bool_decide (is_Some (files fs !! path))), fs).

Definition readFileSync (path : string) : IO string :=
  fun fs =>
    match files fs !! path with
    | Some content => (inr content, fs)
    | None => (inl (ReadFailed path), fs)
    end.

Definition writeFileSync (path content : string) : IO unit :=
  fun fs =>
    if bool_decide (path ∈ readOnly fs) then (inl (WriteFailed path), fs)
    else (inr tt, mkFS (<[path := content]> (files fs)) (readOnly fs)).

(** [parseCSV]. *)
Definition parseCSV (content : string) : Report :=
  if negb (stringTruthy (trim content)) then []
  else map (fun line => map Some (split "009" line))
           (split "010" (trim content)).

(** A cell as [Array.prototype.join] writes it: a hole is empty. *)
Definition cellOut (c : option string) : string :=
  match c with Some s => s | None => "" end.

Definition reportContent (report : Report) : string :=
  join (String "010" "")
       (map (fun row => join (String "009" "") (map cellOut row)) report).

(** [writeReport]; the creation of the directory is not tracked. *)
Definition writeReport (reportPath : string) (report : Report) : IO unit :=
  present ← existsSync reportPath;
  existingContent ← (if present : bool then readFileSync reportPath
                      else ioRet "");
  let content := reportContent report in
  if String.eqb content existingContent then ioRet tt
  else writeFileSync reportPath content.

(** The validation of [analyzeTrace]:
    [!traceData || (!Array.isArray(traceData) && !Array.isArray(traceData.traceEvents))]. *)
Definition dataTruthy (traceData : TraceData) : bool :=
  match traceData with
  | TracePrimitive b => b
  | _ => true
  end.

Definition isArray (traceData : TraceData) : bool :=
  match traceData with
  | TraceArray _ => true
  | _ => false
  end.

Definition traceEventsIsArray (traceData : TraceData) : bool :=
  match traceData with
  | TraceObject (Some _) => true
  | _ => false
  end.

Definition invalidTrace (traceData : TraceData) : bool :=
  negb (dataTruthy traceData) ||
  (negb (isArray traceData) && negb (traceEventsIsArray traceData)).

Section Run.

(** [JSON.parse] of the trace file; [None] is a syntax error. *)
Variable JSON_parse : string -> option TraceData.

(** The [try] block of [analyzeTrace]. *)
Definition analyzeTraceBody (tracePath reportPath : string) : IO unit :=
  found ← existsSync tracePath;
  (if found : bool then ioRet tt
   else ioThrow (InputFileNotFound tracePath));;
  fileContent ← readFileSync tracePath;
  traceData ← (match JSON_parse fileContent with
                | Some d => ioRet d
                | None => ioThrow FailedToParseJSON
                end);
  (if invalidTrace traceData then ioThrow InvalidTraceFormat
   else ioRet tt);;
  hasReport ← existsSync reportPath;
  existingReport ← (if hasReport : bool
                     then content ← readFileSync reportPath;
                          ioRet (parseCSV content)
                     else ioRet []);
  tasks ← (match processTraceEvents traceData with
            | Some ts => ioRet ts
            | None => ioThrow NotAnArray
            end);
  let updatedReport := updateReport existingReport tasks in
  writeReport reportPath updatedReport.

(** [analyzeTrace]: the exit status ([Some e] when the [catch] clause
    ends the process with status 1) and the file system left behind. *)
Definition analyzeTrace (tracePath reportPath : string) (fs : FileSystem)
  : option RunError * FileSystem :=
  match analyzeTraceBody tracePath reportPath fs with
  | (inl e, fs') => (Some e, fs')
  | (inr _, fs') => (None, fs')
  end.

End Run.

(** ** Command line *)

(** The variables [inputFile], [outputFile] and [debug] of the script;
    [None] is [undefined]. *)
Record Options : Type := mkOptions {
  inputFile : option string;
  outputFile : option string;
  debug : bool
}.

(** [let inputFile, outputFile, debug = false]. *)
Definition initialOptions : Options := mkOptions None None false.

(** The body of the loop over the arguments, at the argument [arg] that is
    followed by [next] ([args[i + 1]], [None] past the end). *)
Definition readArg (arg : string) (next : option string) (o : Options)
  : Options :=
  if String.eqb arg "--input" && truthy (ofString next)
  then mkOptions next (outputFile o) (debug o)
  else if String.eqb arg "--output" && truthy (ofString next)
  then mkOptions (inputFile o) next (debug o)
  else if String.eqb arg "--debug"
  then mkOptions (inputFile o) (outputFile o) true
  else o.

(** [for (let i = 0; i < args.length; i++)], from the index of the head of
    [args] on. *)
Fixpoint readArgs (args : list string) (o : Options) : Options :=
  match args with
  | [] => o
  | arg :: rest => readArgs rest (readArg arg (head rest) o)
  end.

Definition parseArgs (args : list string) : Options :=
  readArgs args initialOptions.

(** [!inputFile || !outputFile]: the script prints its usage and exits with
    status 1. *)
Definition usageError (o : Options) : bool :=
  negb (truthy (ofString (inputFile o))) ||
  negb (truthy (ofString (outputFile o))).

(** ** Debug listing *)

(** The order of [Array.prototype.sort] without a comparison function on
    strings: by code units. *)
Module StringOrder <: TotalLeBool.
Definition t : Type := string.
Definition leb : t -> t -> bool := String.leb.
Definition leb_total :
  forall s1 s2 : t, leb s1 s2 = true \/ leb s2 s1 = true :=
  String.leb_total.
End StringOrder.

Module StringSort := Mergesort.Sort StringOrder.

(** [Set.prototype.add] on a set whose elements are later listed in
    insertion order. *)
Definition setAdd (s : list string) (x : string) : list string :=
  if bool_decide (x ∈ s) then s else s ++ [x].

(** [m.set(k, (m.get(k) || 0) + 1)]. *)
Definition countUp (m : JsMap N) (k : string) : JsMap N :=
  mapSet m k (default 0%N (mapGet m k) + 1)%N.

(** The two sets and the two maps of [analyzeTraceMetadata]. *)
Record Metadata : Type := mkMetadata {
  categories : list string;
  taskTypes : list string;
  categoryCount : JsMap N;
  taskTypeCount : JsMap N
}.

(** The body of [cats.forEach]. *)
Definition trackCategory (md : Metadata) (cat : string) : Metadata :=
  mkMetadata (setAdd (categories md) (trim cat)) (taskTypes md)
             (countUp (categoryCount md) (trim cat)) (taskTypeCount md).

(** The body of [events.forEach]. *)
Definition trackEvent (md : Metadata) (event : TraceEvent) : Metadata :=
  let md1 :=
    match ev_cat event with
    | Some cat =>
        if stringTruthy cat
        then fold_left trackCategory (split "," cat) md
        else md
    | None => md
    end in
  match ev_name event with
  | Some name =>
      if stringTruthy name
      then mkMetadata (categories md1) (setAdd (taskTypes md1) name)
                      (categoryCount md1) (countUp (taskTypeCount md1) name)
      else md1
  | None => md1
  end.

(** [`${key}: ${counts.get(key)} occurrences`]. *)
Definition countLine (counts : JsMap N) (key : string) : string :=
  key +:+ ": " +:+
  match mapGet counts key with
  | Some n => digitsOfN n
  | None => "undefined"
  end +:+ " occurrences".

(** [analyzeTraceMetadata]: the lines it logs. *)
Definition analyzeTraceMetadata (events : list TraceEvent) : list string :=
  let md := fold_left trackEvent events (mkMetadata [] [] [] []) in
  [ String "010" "=== Debug Information ===";
    String "010" "Unique Categories Found:";
    "------------------------" ]
  ++ map (countLine (categoryCount md)) (StringSort.sort (categories md))
  ++ [ String "010" "Unique Task Types Found:";
       "----------------------" ]
  ++ map (countLine (taskTypeCount md)) (StringSort.sort (taskTypes md))
  ++ [ String "010" "Statistics:";
       "-----------";
       "Total unique categories: " +:+
         digitsOfN (N.of_nat (length (categories md)));
       "Total unique task types: " +:+
         digitsOfN (N.of_nat (length (taskTypes md)));
       "======================" +:+ String "010" "" ].

(** ** Vocabulary of the properties *)

(** A number that is not NaN and carries the sign [s]. *)
Inductive signed_as (s : bool) : spec_float -> Prop :=
  | signed_zero : signed_as s (S754_zero s)
  | signed_finite m e : signed_as s (S754_finite s m e)
  | signed_infinity : signed_as s (S754_infinity s).

Definition isDigit (c : ascii) : bool :=
  let n := nat_of_ascii c in (48 <=? n)%nat && (n <=? 57)%nat.

Fixpoint allDigits (s : string) : bool :=
  match s with
  | EmptyString => true
  | String c s' => isDigit c && allDigits s'
  end.

(** A plain integer string: one or more decimal digits. *)
Definition isIntegerString (s : string) : bool :=
  stringTruthy s && allDigits s.


(** The events the aggregator counts, and those among them that carry a
    given key [name + "|" + url]. *)
Definition qualifying (events : list TraceEvent) : list TraceEvent :=
  List.filter isPotentialTBTTask events.

Definition eventsWithKey (k : string) (events : list TraceEvent)
  : list TraceEvent :=
  List.filter (fun e => String.eqb (uniqueKeyOf e) k) (qualifying events).

Definition durationMsOf (event : TraceEvent) : float :=
  (toNumber (ev_dur event) / 1000)%float.

(** The sum of a list of numbers, added from the left starting at 0. *)
Definition sumOf (l : list float) : float := fold_left PrimFloat.add l 0%float.

(** The task that summarises the events [matching], whose first is
    [first]: name, url and category of the first event, sums and count
    over all of them. *)
Definition summaryOf (first : TraceEvent) (matching : list TraceEvent)
  : Task :=
  mkTask (getEventKey first) (getEventUrl first)
         (sumOf (map calculateBlockingTime matching))
         (sumOf (map durationMsOf matching))
         (N.of_nat (length matching))
         (eventCategory first).

Definition taskOfKey (k : string) (events : list TraceEvent) : option Task :=
  match eventsWithKey k events with
  | [] => None
  | (first :: _) as matching => Some (summaryOf first matching)
  end.




(** What the map of [processTraceEvents] holds after the events [l]. *)
Definition aggregated (l : list TraceEvent) (m : JsMap Task) : Prop :=
  NoDup (map fst m) /\
  (forall k t, (k, t) ∈ m -> taskOfKey k l = Some t) /\
  (forall e, e ∈ qualifying l -> uniqueKeyOf e ∈ map fst m).

(** [row'] keeps every cell of [row]; in a data row, the cell at index 3
    may instead have become "Yes". *)
Definition rowExtends (isData : bool) (row row' : Row) : Prop :=
  (length row <= length row')%nat /\
  forall (j : nat) (c : option string),
    row !! j = Some c ->
    row' !! j = Some c \/
    (isData = true /\ j = 3%nat /\ row' !! j = Some (Some "Yes")).

(** [r'] keeps every row of [r] at its index, extended. *)
Definition reportExtends (r r' : Report) : Prop :=
  (length r <= length r')%nat /\
  forall (i : nat) (row : Row),
    r !! i = Some row ->
    exists row', r' !! i = Some row' /\
                 rowExtends (negb (Nat.eqb i 0)) row row'.

(** The row indices held by [taskMap] are indices of data rows. *)
Definition indexed (st : MergeState) : Prop :=
  (1 <= length (st_report st))%nat /\
  forall (k : string) (i : nat),
    mapGet (st_taskMap st) k = Some i ->
    (1 <= i < length (st_report st))%nat.


(** The key of a (Task Name, URL) pair. *)
Definition pairKey (p : string * string) : string := p.1 +:+ "|" +:+ p.2.

(** A report with a header whose data rows have at least the two identity
    cells, and the (Task Name, URL) pairs [pairs], in row order. *)
Definition wellKeyed (report : Report) (pairs : list (string * string))
  : Prop :=
  exists header rows,
    report = header :: rows /\
    Forall (fun row : Row => (2 <= length row)%nat) rows /\
    map rowPair rows = pairs.

(** A change of a row that keeps its identity cells. *)
Definition keepsIdentity (f : Row -> Row) : Prop :=
  forall row : Row,
    (2 <= length row)%nat ->
    (2 <= length (f row))%nat /\ rowPair (f row) = rowPair row.

(** Every data row of the state is known to [taskMap], and no two data
    rows have the same pair. *)
Definition covered (st : MergeState) : Prop :=
  exists pairs,
    wellKeyed (st_report st) pairs /\ NoDup pairs /\
    forall p, p ∈ pairs -> is_Some (mapGet (st_taskMap st) (pairKey p)).

(** The entries of [taskMap] when every data row has a key of its own:
    row by row, its key and its index. *)
Fixpoint entriesOf (i : nat) (rows : list Row) : JsMap nat :=
  match rows with
  | [] => []
  | row :: rest => (rowKey row, i) :: entriesOf (S i) rest
  end.

(** What the last loop does to a data row. *)
Definition fillRow (updated : gset string) (row : Row) : Row :=
  if bool_decide (rowKey row ∈ updated) then row else row ++ absentCells.

(** The state of a merge into a report whose rows have [len] cells and keys
    of their own: [taskMap] lists the rows, a row has grown by three cells
    exactly when its key was updated, and the rows of [rows0] whose key was
    not updated are as they were. *)
Definition aligned (len : nat) (rows0 : list Row) (header' : Row)
    (st : MergeState) : Prop :=
  exists rs,
    st_report st = header' :: rs /\
    st_taskMap st = entriesOf 1 rs /\
    NoDup (map rowKey rs) /\
    Forall (fun row : Row =>
              length row = if bool_decide (rowKey row ∈ st_updated st)
                           then (len + 3)%nat else len) rs /\
    forall (j : nat) (row : Row),
      rows0 !! j = Some row -> rowKey row ∉ st_updated st ->
      rs !! j = Some row.

(** ** Sample events, tasks, reports and files *)

Definition evaluateScript : TraceEvent :=
  mkEvent (Some "X") (Some 150000%float) (Some "EvaluateScript")
          (Some "devtools.timeline,v8") (Some 1) None.

Definition shortScript : TraceEvent :=
  mkEvent (Some "X") (Some 20000%float) (Some "EvaluateScript")
          (Some "devtools.timeline,v8") (Some 1) None.

Definition beginEvent : TraceEvent :=
  mkEvent (Some "B") (Some 150000%float) (Some "EvaluateScript")
          (Some "devtools.timeline,v8") (Some 1) None.

Definition idleEvent : TraceEvent :=
  mkEvent (Some "X") (Some 150000%float) (Some "ThreadPoolWait")
          (Some "idle") (Some 1) None.

Definition noDuration : TraceEvent :=
  mkEvent (Some "X") None (Some "EvaluateScript")
          (Some "devtools.timeline,v8") (Some 1) None.

Definition scriptingComplete : TraceEvent :=
  mkEvent (Some "X") (Some 2000%float) (Some "anything")
          (Some "toplevel, Scripting") (Some 1) None.

Definition scriptingBegin : TraceEvent :=
  mkEvent (Some "B") (Some 2000%float) (Some "anything")
          (Some "toplevel, Scripting") (Some 1) None.

Definition pipeInName : TraceEvent :=
  mkEvent (Some "X") (Some 1000%float) (Some "a|b") (Some "scripting")
          (Some 1) (Some "c").



Definition taskA : Task := mkTask "a" "" 0 1 1 "c".
Definition taskB : Task := mkTask "b" "http://x/" 12.5 62.5 3 "v8".
Definition taskC : Task := mkTask "c" "" 0 7 2 "blink".
Definition taskBQuiet : Task := mkTask "b" "http://x/" 0 30 1 "v8".

Definition rowOf (cells : list string) : Row := map Some cells.

Definition reportAB : Report := updateReport [] [taskA; taskB].

(** A report whose header has 5 cells. *)
Definition shortHeaderReport : Report :=
  [rowOf ["Task Name"; "URL"; "Category"; "Has Long Tasks"; "Notes"]].

(** A report with two data rows of different (Task Name, URL) pairs and
    the same key. *)
Definition pipeReport : Report :=
  [ firstHeader;
    rowOf ["a|b"; "c"; "scripting"; "No"; "0.00"; "1.00"; "1"];
    rowOf ["a"; "b|c"; "scripting"; "No"; "0.00"; "1.00"; "1"] ].

Definition parseSample (content : string) : option TraceData :=
  if String.eqb content "{}" then Some (TraceObject None)
  else if String.eqb content "[]" then Some (TraceArray [])
  else if String.eqb content "[e]" then Some (TraceArray [evaluateScript])
  else None.

Definition sampleFiles (trace : string) : FileSystem :=
  mkFS {[ "trace.json" := trace ]} ∅.

(** ** Further vocabulary: aggregation *)

(** The elements of a list of keys without repetition, each at the place
    of its first occurrence. *)
Fixpoint firstOccurrences (keys : list string) : list string :=
  match keys with
  | [] => []
  | k :: rest =>
      k :: List.filter (fun k' => negb (String.eqb k' k)) (firstOccurrences rest)
  end.

(** The occurrences of a list of tasks, added up. *)
Definition totalOccurrences (tasks : list Task) : N :=
  fold_right N.add 0%N (map occurrences tasks).

(** ** Further vocabulary: the merge of a further run *)

(** The first task of a list with the key [k]. *)
Definition taskWithKey (tasks : list Task) (k : string) : option Task :=
  List.find (fun t => String.eqb (taskKey t) k) tasks.

(** What the loop over the tasks makes of a data row: the row of a task of
    the list gets the flag, if the task has blocking time, and the metrics
    of the task. *)
Definition partialRow (tasks : list Task) (row : Row) : Row :=
  match taskWithKey tasks (rowKey row) with
  | Some task =>
      (if (0 <? blockingTime task)%float then setCell 3 "Yes" row else row)
      ++ metricCells task
  | None => row
  end.

(** What a merge makes of a data row: as [partialRow], and the row of no
    task gets the three cells "-1". *)
Definition mergedRow (tasks : list Task) (row : Row) : Row :=
  match taskWithKey tasks (rowKey row) with
  | Some task =>
      (if (0 <? blockingTime task)%float then setCell 3 "Yes" row else row)
      ++ metricCells task
  | None => row ++ absentCells
  end.

(** The row a merge adds for a task that has no row. *)
Definition addedRow (runCount : Z) (task : Task) : Row :=
  newRow runCount task ++ metricCells task.

(** The tasks whose key is the key of no data row. *)
Definition unseenTasks (rows : list Row) (tasks : list Task) : list Task :=
  List.filter (fun t => negb (bool_decide (taskKey t ∈ map rowKey rows)))
              tasks.

(** The data rows after the loop over the tasks [done]. *)
Definition rowsAfter (runCount : Z) (rows : list Row) (done : list Task)
  : list Row :=
  map (partialRow done) rows ++
  map (addedRow runCount) (unseenTasks rows done).

(** The state of the merge after the loop over the tasks [done]. *)
Definition mergedUpTo (runCount : Z) (header' : Row) (rows : list Row)
    (done : list Task) (st : MergeState) : Prop :=
  st_report st = header' :: rowsAfter runCount rows done /\
  st_taskMap st = entriesOf 1 (rowsAfter runCount rows done) /\
  forall k, k ∈ st_updated st <-> k ∈ map taskKey done.

(** The report of [n] runs is aligned: every row has [4 + 3 n] cells, and
    no two data rows have the same key. *)
Definition alignedReport (n : nat) (report : Report) : Prop :=
  exists header rows,
    report = header :: rows /\
    length header = (4 + 3 * n)%nat /\
    Forall (fun row : Row => length row = (4 + 3 * n)%nat) rows /\
    NoDup (map rowKey rows).

(** ** Further vocabulary: the text of a report *)

(** The character [c] does not occur in [s]. *)
Fixpoint freeOf (c : ascii) (s : string) : bool :=
  match s with
  | EmptyString => true
  | String a s' => negb (Ascii.eqb a c) && freeOf c s'
  end.

(** A cell that holds a string with no tab and no line feed. *)
Definition plainCell (cell : option string) : bool :=
  match cell with
  | Some s => freeOf "009" s && freeOf "010" s
  | None => false
  end.

(** A row of at least one cell, all of them plain. *)
Definition plainRow (row : Row) : bool :=
  match row with
  | [] => false
  | _ => forallb plainCell row
  end.

Definition plainReport (report : Report) : bool := forallb plainRow report.

(** ** Further vocabulary: the run *)


(** ** Further vocabulary: the command line *)

(** The argument at index [i] is [flag], followed by the non-empty
    argument [v]. *)
Definition givenAt (flag : string) (args : list string) (i : nat)
    (v : string) : Prop :=
  args !! i = Some flag /\ args !! S i = Some v /\ v <> "".

(** [v] is given for [flag], and nothing is given for it further on. *)
Definition lastGiven (flag : string) (args : list string) (v : string)
  : Prop :=
  exists i, givenAt flag args i v /\
            forall j w, (i < j)%nat -> ~ givenAt flag args j w.

(** The value the loop leaves for [flag]: that of the last place where one
    is given. *)
Fixpoint lastValue (flag : string) (args : list string) : option string :=
  match args with
  | [] => None
  | arg :: rest =>
      match lastValue flag rest with
      | Some v => Some v
      | None =>
          if String.eqb arg flag && truthy (ofString (head rest))
          then head rest else None
      end
  end.

(** ** Further vocabulary: the debug listing *)

(** The categories the listing counts: of every event with a category
    string, the pieces between its commas, trimmed; and the task types: the
    names of the events that have one. *)
Definition categoriesOf (events : list TraceEvent) : list string :=
  concat (map (fun e => match ev_cat e with
                        | Some cat =>
                            if stringTruthy cat
                            then map trim (split "," cat) else []
                        | None => []
                        end) events).

Definition namesOf (events : list TraceEvent) : list string :=
  concat (map (fun e => match ev_name e with
                        | Some name => if stringTruthy name then [name] else []
                        | None => []
                        end) events).

(** How many times [k] occurs in [keys]. *)
Definition timesIn (keys : list string) (k : string) : N :=
  N.of_nat (length (List.filter (String.eqb k) keys)).

(** A set and a map of counts after the keys [keys] have been tracked. *)
Definition tallied (keys set : list string) (counts : JsMap N) : Prop :=
  NoDup set /\
  (forall k, k ∈ set <-> k ∈ keys) /\
  forall k, mapGet counts k =
            if bool_decide (k ∈ keys) then Some (timesIn keys k) else None.

(** [sorted] lists the different keys of [keys], each once, in ascending
    order. *)
Definition listing (keys sorted : list string) : Prop :=
  Sorted (fun a b => String.leb a b = true) sorted /\
  NoDup sorted /\
  forall k, k ∈ sorted <-> k ∈ keys.

Definition occurrencesLine (keys : list string) (k : string) : string :=
  k +:+ ": " +:+ digitsOfN (timesIn keys k) +:+ " occurrences".

(** ** Further vocabulary: the reports the tool writes *)

Fixpoint noWhiteSpace (s : string) : bool :=
  match s with
  | EmptyString => true
  | String c s' => negb (isWhiteSpace c) && noWhiteSpace s'
  end.

(** [s] is not empty and does not end with white space. *)
Fixpoint endsWell (s : string) : bool :=
  match s with
  | EmptyString => false
  | String c s' =>
      match s' with
      | EmptyString => negb (isWhiteSpace c)
      | String _ _ => endsWell s'
      end
  end.

(** A string with no tab and no line feed; a task, and an event, whose
    name, url and category are such strings. *)
Definition plainString (s : string) : bool :=
  freeOf "009" s && freeOf "010" s.

Definition plainTask (task : Task) : bool :=
  plainString (task_name task) && plainString (task_url task) &&
  plainString (category task).


Definition lastCellEndsWell (row : Row) : bool :=
  match last row with
  | Some (Some s) => endsWell s
  | _ => false
  end.

(** A report as [n] runs of the tool leave it: a table of [4 + 3 n]
    columns with one row per key, of plain cells, that begins with the cell
    "Task Name" and whose rows end with a cell that does not end with white
    space. *)
Definition toolReport (n : nat) (report : Report) : Prop :=
  alignedReport n report /\
  plainReport report = true /\
  forallb lastCellEndsWell report = true /\
  exists cells rows, report = (Some "Task Name" :: cells) :: rows.


(** ** Further vocabulary: numbers above zero *)

(** A number above 0: plus infinity or a finite number of sign plus. *)
Definition isPositive (x : spec_float) : bool :=
  match x with
  | S754_infinity false | S754_finite false _ _ => true
  | _ => false
  end.

(** The number [+0] or a number above 0. *)
Definition isNonNegative (x : spec_float) : bool :=
  match x with
  | S754_zero false => true
  | _ => isPositive x
  end.

(** The duration in milliseconds of the event is above 50. *)
Definition isLong (event : TraceEvent) : bool :=
  (50 <? toNumber (ev_dur event) / 1000)%float.

(** * Properties *)

(** ** Facts about binary64 arithmetic

    The comparisons and the operations of [float] are related to their
    specification over [spec_float] by the axioms of [FloatAxioms]. *)

Lemma SFcompare_antisym (x y : spec_float) :
  SFcompare y x = option_map CompOpp (SFcompare x y).
Proof.
  destruct x as [sx|sx| |sx mx ex], y as [sy|sy| |sy my ey]; simpl;
    try reflexivity;
    try (destruct sx; reflexivity); try (destruct sy; reflexivity);
    try (destruct sx, sy; reflexivity).
  destruct sx, sy; simpl; try reflexivity;
    rewrite (Z.compare_antisym ex ey);
    destruct (ex ?= ey) eqn:E; simpl; try reflexivity.
  - rewrite CompOpp_involutive. f_equal.
    exact (Pos.compare_cont_antisym my mx Eq).
  - f_equal. symmetry. exact (Pos.compare_cont_antisym mx my Eq).
Qed.

Lemma SFcompare_refl (x : spec_float) :
  x <> S754_nan -> SFcompare x x = Some Eq.
Proof.
  destruct x as [s|s| |s m e]; simpl; intros H; try congruence.
  - destruct s; reflexivity.
  - rewrite Z.compare_refl. pose proof (Pos.compare_cont_refl m Eq) as R. simpl in R. destruct s; simpl; f_equal; try exact R. change (CompOpp (Pos.compare_cont Eq m m) = Eq). rewrite R. reflexivity.
Qed.

Lemma SFcompare_None (x y : spec_float) :
  SFcompare x y = None -> x = S754_nan \/ y = S754_nan.
Proof.
  destruct x, y; simpl; intros H; try discriminate; auto.
Qed.

Lemma is_nan_Prim2SF (x : float) :
  PrimFloat.is_nan x = false <-> Prim2SF x <> S754_nan.
Proof.
  unfold PrimFloat.is_nan. rewrite FloatAxioms.eqb_spec. unfold SFeqb. split.
  - intros H E. rewrite E in H. discriminate.
  - intros H. rewrite SFcompare_refl by exact H. reflexivity.
Qed.

Lemma float_leb_ltb (x y : float) :
  (x <=? y)%float = true -> (y <? x)%float = false.
Proof.
  rewrite FloatAxioms.leb_spec, FloatAxioms.ltb_spec. unfold SFleb, SFltb.
  rewrite (SFcompare_antisym (Prim2SF x) (Prim2SF y)).
  destruct (SFcompare (Prim2SF x) (Prim2SF y)) as [[ | | ]|]; simpl; congruence.
Qed.

Lemma float_not_leb_ltb (x y : float) :
  PrimFloat.is_nan x = false -> PrimFloat.is_nan y = false ->
  (x <=? y)%float = false -> (y <? x)%float = true.
Proof.
  rewrite !is_nan_Prim2SF, FloatAxioms.leb_spec, FloatAxioms.ltb_spec. unfold SFleb, SFltb.
  intros Hx Hy.
  rewrite (SFcompare_antisym (Prim2SF x) (Prim2SF y)).
  destruct (SFcompare (Prim2SF x) (Prim2SF y)) as [[ | | ]|] eqn:E; simpl;
    try congruence.
  destruct (SFcompare_None _ _ E); contradiction.
Qed.

(** Rounding a non-negative mantissa. *)

Lemma shr_1_nonneg (mrs : shr_record) :
  0 <= shr_m mrs -> 0 <= shr_m (shr_1 mrs).
Proof.
  destruct mrs as [m r s]. destruct m as [|[p|p|]|p]; simpl; lia.
Qed.

Lemma iter_shr_1_nonneg (n : positive) :
  forall mrs, 0 <= shr_m mrs -> 0 <= shr_m (SpecFloat.iter_pos shr_1 n mrs).
Proof.
  induction n as [n IH|n IH|]; simpl; intros mrs H.
  - apply IH, IH, shr_1_nonneg, H.
  - apply IH, IH, H.
  - apply shr_1_nonneg, H.
Qed.

Lemma shr_fexp_nonneg (m e : Z) (l : location) :
  0 <= m -> 0 <= shr_m (fst (shr_fexp prec emax m e l)).
Proof.
  intros H. unfold shr_fexp, shr.
  assert (H0 : 0 <= shr_m (shr_record_of_loc m l))
    by (destruct l as [|[ | | ]]; simpl; exact H).
  destruct (fexp prec emax (Zdigits2 m + e) - e); simpl; auto.
  apply iter_shr_1_nonneg, H0.
Qed.

Lemma round_nearest_even_nonneg (m : Z) (l : location) :
  0 <= m -> 0 <= round_nearest_even m l.
Proof.
  intros H. destruct l as [|[ | | ]]; simpl; try lia.
  destruct (IntDef.Z.even m); lia.
Qed.

Lemma binary_round_aux_signed (sx : bool) (mx ex : Z) (lx : location) :
  0 <= mx -> signed_as sx (binary_round_aux prec emax sx mx ex lx).
Proof.
  intros H. unfold binary_round_aux.
  pose proof (shr_fexp_nonneg mx ex lx H) as H1.
  destruct (shr_fexp prec emax mx ex lx) as [mrs' e'] eqn:E1. simpl in H1.
  pose proof (shr_fexp_nonneg
                (round_nearest_even (shr_m mrs') (loc_of_shr_record mrs'))
                e' loc_Exact (round_nearest_even_nonneg _ _ H1)) as H2.
  destruct (shr_fexp prec emax _ e' loc_Exact) as [mrs'' e''] eqn:E2.
  simpl in H2.
  destruct (shr_m mrs'') as [|m|m].
  - constructor.
  - destruct (e'' <=? emax - prec); constructor.
  - lia.
Qed.

Lemma SFdiv_core_nonneg (m1 : positive) (e1 : Z) (m2 : positive) (e2 : Z) :
  0 <= fst (fst (SFdiv_core_binary prec emax (Z.pos m1) e1 (Z.pos m2) e2)).
Proof.
  unfold SFdiv_core_binary.
  set (s := e1 - e2 - _).
  set (m' := match s with 0 => Z.pos m1 | Z.pos _ => _ | Z.neg _ => 0 end).
  assert (Hm : 0 <= m').
  { subst m'. destruct s; try lia. apply Z.shiftl_nonneg. lia. }
  pose proof (Z.div_pos m' (Z.pos m2) Hm ltac:(lia)) as Hq.
  unfold Z.div in Hq.
  change (IntDef.Z.div_eucl m' (Z.pos m2)) with (Z.div_eucl m' (Z.pos m2)).
  destruct (Z.div_eucl m' (Z.pos m2)) as [q r]. exact Hq.
Qed.

Lemma SFdiv_finite_not_nan (x : spec_float) (s : bool) (m : positive) (e : Z) :
  x <> S754_nan -> SF64div x (S754_finite s m e) <> S754_nan.
Proof.
  intros Hx. destruct x as [sx|sx| |sx mx ex]; simpl; try congruence.
  pose proof (SFdiv_core_nonneg mx ex m e) as H.
  destruct (SFdiv_core_binary prec emax (Z.pos mx) ex (Z.pos m) e)
    as [[mz ez] lz].
  simpl in H.
  destruct (binary_round_aux_signed (xorb sx s) mz ez lz H); congruence.
Qed.

Lemma div_1000_not_nan (d : float) :
  PrimFloat.is_nan d = false -> PrimFloat.is_nan (d / 1000)%float = false.
Proof.
  rewrite !is_nan_Prim2SF, div_spec.
  change (Prim2SF 1000%float) with (S754_finite false 8796093022208000 (-43)).
  apply SFdiv_finite_not_nan.
Qed.

(** Aligning a mantissa to a smaller exponent multiplies it by a power of
    two. *)
Lemma iter_xO_pow (d m : positive) :
  Z.pos (Pos.iter xO m d) = Z.pos m * 2 ^ Z.pos d.
Proof.
  induction d as [|d IH] using Pos.peano_ind.
  - simpl. lia.
  - rewrite Pos.iter_succ, Pos2Z.inj_xO, IH, Pos2Z.inj_succ, Z.pow_succ_r by lia.
    ring.
Qed.

Lemma shl_align_value (m : positive) (e e' : Z) :
  e' <= e -> Z.pos (fst (shl_align m e e')) = Z.pos m * 2 ^ (e - e').
Proof.
  intros H. unfold shl_align.
  destruct (e' - e) as [|d|d] eqn:E; simpl; try lia.
  - replace (e - e') with 0 by lia. lia.
  - change (PosDef.Pos.iter xO m d) with (Pos.iter xO m d).
    rewrite iter_xO_pow. f_equal. f_equal. lia.
Qed.

Lemma digits2_pos_lower (m : positive) :
  2 ^ (Z.pos (digits2_pos m) - 1) <= Z.pos m.
Proof.
  induction m as [m IH|m IH|]; simpl.
  - change (PosDef.Pos.succ (digits2_pos m)) with (Pos.succ (digits2_pos m)).
    rewrite Pos2Z.inj_succ.
    replace (Z.succ (Z.pos (digits2_pos m)) - 1)
      with (Z.succ (Z.pos (digits2_pos m) - 1)) by lia.
    rewrite Z.pow_succ_r by lia. lia.
  - change (PosDef.Pos.succ (digits2_pos m)) with (Pos.succ (digits2_pos m)).
    rewrite Pos2Z.inj_succ.
    replace (Z.succ (Z.pos (digits2_pos m)) - 1)
      with (Z.succ (Z.pos (digits2_pos m) - 1)) by lia.
    rewrite Z.pow_succ_r by lia. lia.
  - simpl. lia.
Qed.

Lemma binary_normalize_nonneg (z e : Z) :
  0 <= z -> signed_as false (binary_normalize prec emax z e false).
Proof.
  intros H. destruct z as [|p|p]; simpl; try lia.
  - constructor.
  - unfold binary_round.
    destruct (shl_align p e _) as [mz ez].
    apply binary_round_aux_signed. lia.
Qed.

Lemma signed_false_not_negative (x : spec_float) :
  signed_as false x -> SFltb x (S754_zero false) = false.
Proof. intros []; reflexivity. Qed.

(** A double above 50, minus 50, is not negative. *)
Lemma SFsub_50_not_negative (x : spec_float) :
  valid_binary x = true ->
  SFltb (S754_finite false 7036874417766400 (-47)) x = true ->
  SFltb (SF64sub x (S754_finite false 7036874417766400 (-47)))
        (S754_zero false) = false.
Proof.
  intros Hv Hlt.
  destruct x as [sx|sx| |sx mx ex]; try (destruct sx); try discriminate;
    try reflexivity.
  apply signed_false_not_negative.
  unfold SF64sub, SFsub. apply binary_normalize_nonneg.
  unfold cond_Zopp.
  cbv beta iota delta [SFltb SFcompare] in Hlt.
  destruct (-47 ?= ex) eqn:E; try discriminate.
  - apply Z.compare_eq in E. subst ex.
    rewrite Z.min_id. rewrite !shl_align_value by lia.
    rewrite Z.sub_diag. simpl (2 ^ 0). rewrite !Z.mul_1_r.
    destruct (PosDef.Pos.compare_cont Eq 7036874417766400 mx) eqn:C;
      try discriminate.
    change (PosDef.Pos.compare_cont Eq 7036874417766400 mx)
      with (Pos.compare 7036874417766400 mx) in C.
    assert (7036874417766400 < mx)%positive by exact C. lia.
  - rewrite Z.compare_lt_iff in E.
    rewrite Z.min_r by lia. rewrite !shl_align_value by lia.
    rewrite Z.sub_diag. simpl (2 ^ 0). rewrite Z.mul_1_r.
    simpl in Hv. unfold bounded, canonical_mantissa in Hv.
    apply andb_true_iff in Hv. destruct Hv as [Hc _].
    apply Z.eqb_eq in Hc. unfold fexp, SpecFloat.emin in Hc.
    assert (Hd : Z.pos (digits2_pos mx) = 53)
      by (unfold prec, emax in Hc; lia).
    pose proof (digits2_pos_lower mx) as Hm. rewrite Hd in Hm.
    assert (Hp : 2 ^ 1 <= 2 ^ (ex - -47))
      by (apply Z.pow_le_mono_r; lia).
    change (2 ^ (53 - 1)) with 4503599627370496 in Hm.
    change (2 ^ 1) with 2 in Hp.
    nia.
Qed.

Lemma sub_50_not_negative (ms : float) :
  (50 <? ms)%float = true -> (ms - 50 <? 0)%float = false.
Proof.
  rewrite !FloatAxioms.ltb_spec, sub_spec.
  change (Prim2SF 50%float) with (S754_finite false 7036874417766400 (-47)).
  change (Prim2SF 0%float) with (S754_zero false).
  apply SFsub_50_not_negative, Prim2SF_valid.
Qed.

(** ** Blocking time calculator *)

(** C4: for an event with a duration [d] (a number, so not NaN), with
    [durationMs = d / 1000]: [calculateBlockingTime] returns 0 when
    [durationMs <= 50], returns [durationMs - 50] otherwise, and its result
    is never below 0. *)
Theorem calculateBlockingTime_threshold (event : TraceEvent) (d : float) :
  ev_dur event = Some d ->
  PrimFloat.is_nan d = false ->
  let durationMs := (d / 1000)%float in
  ((durationMs <=? 50)%float = true ->
   calculateBlockingTime event = 0%float) /\
  ((durationMs <=? 50)%float = false ->
   calculateBlockingTime event = (durationMs - 50)%float) /\
  (calculateBlockingTime event <? 0)%float = false.
Proof.
  intros Hd Hnan durationMs. unfold calculateBlockingTime.
  rewrite Hd. simpl toNumber. fold durationMs.
  split; [|split].
  - intros Hle. rewrite (float_leb_ltb _ _ Hle). reflexivity.
  - intros Hgt.
    rewrite (float_not_leb_ltb durationMs 50); auto.
    apply div_1000_not_nan, Hnan.
  - destruct (50 <? durationMs)%float eqn:E.
    + apply sub_50_not_negative, E.
    + reflexivity.
Qed.

(** ** Event classifier *)

(** C5: an event without a duration, with a zero duration, or whose phase
    is not ["X"], is not a potential TBT task. *)
Theorem isPotentialTBTTask_needs_complete_duration (event : TraceEvent) :
  ev_dur event = None \/
  (exists d, ev_dur event = Some d /\ (d =? 0)%float = true) \/
  ev_ph event <> Some "X" ->
  isPotentialTBTTask event = false.
Proof.
  unfold isPotentialTBTTask, isPotentialTBTTaskValue.
  intros [Hd | [(d & Hd & Hz) | Hp]].
  - rewrite Hd. simpl. unfold jsAnd. simpl.
    destruct (match ev_ph event with Some p => _ | None => false end);
      reflexivity.
  - rewrite Hd. simpl. unfold jsAnd at 2. simpl.
    destruct (match ev_ph event with Some p => _ | None => false end).
    + unfold jsAnd. simpl. unfold numberTruthy. rewrite Hz. simpl.
      unfold numberTruthy. rewrite Hz. reflexivity.
    + reflexivity.
  - assert (Hx : match ev_ph event with
                 | Some p => String.eqb p "X"
                 | None => false
                 end = false).
    { destruct (ev_ph event) as [p|]; [|reflexivity].
      apply String.eqb_neq. congruence. }
    rewrite Hx. reflexivity.
Qed.

Lemma categoryListHas_truthy (c pat : string) :
  categoryListHas c pat = true -> pat <> "" -> stringTruthy c = true.
Proof.
  destruct c; [|reflexivity].
  unfold categoryListHas. simpl. rewrite orb_false_r.
  destruct pat; [congruence|]. discriminate.
Qed.

Lemma scripting_matchesTbtCategory (c : string) :
  categoryListHas c "scripting" = true -> matchesTbtCategory c = true.
Proof.
  intros H. unfold matchesTbtCategory, tbtCategories.
  cbn [existsb]. rewrite H. rewrite !orb_true_r. reflexivity.
Qed.

(** C6, as amended: a complete event (phase ["X"]) with a non-zero
    duration whose category list contains "scripting" (in any case) and
    that passes the main-thread check is a potential TBT task, whatever its
    name; the expression evaluates to [true]. *)
Theorem isPotentialTBTTask_scripting (event : TraceEvent) (c : string) :
  ev_ph event = Some "X" ->
  truthy (ofNumber (ev_dur event)) = true ->
  ev_cat event = Some c ->
  categoryListHas c "scripting" = true ->
  (ev_tid event = Some 1 \/
   (exists n, ev_name event = Some n /\ includes n "MainThread" = true) \/
   includes c "devtools.timeline" = true) ->
  isPotentialTBTTaskValue event = JsBool true /\
  isPotentialTBTTask event = true.
Proof.
  intros Hph Hdur Hcat Hscr Hmain.
  assert (Hv : isPotentialTBTTaskValue event = JsBool true).
  { unfold isPotentialTBTTaskValue. rewrite Hph.
    change (String.eqb "X" "X") with true.
    unfold jsAnd at 2. cbn [truthy]. unfold jsAnd at 1. rewrite Hdur.
    assert (Hm : truthy (mainThreadCheck event) = true).
    { unfold mainThreadCheck. rewrite Hcat.
      destruct Hmain as [Ht | [(n & Hn & Hi) | Hi]].
      - rewrite Ht. reflexivity.
      - rewrite Hn. unfold optIncludes. rewrite Hi.
        destruct (ev_tid event) as [[|[| |]|]|]; reflexivity.
      - unfold optIncludes. rewrite Hi.
        destruct (ev_tid event) as [[|[| |]|]|];
          destruct (ev_name event) as [n|];
          try destruct (includes n "MainThread"); reflexivity. }
    unfold jsAnd at 1. rewrite Hm.
    unfold relevanceCheck. rewrite Hcat.
    rewrite (scripting_matchesTbtCategory c Hscr).
    unfold jsAnd at 1. cbn [ofString truthy].
    rewrite (categoryListHas_truthy c "scripting" Hscr) by discriminate.
    reflexivity. }
  split; [exact Hv|]. unfold isPotentialTBTTask. rewrite Hv. reflexivity.
Qed.

(** ** Rendering of the metric cells *)

Lemma string_of_uint_digits (d : Decimal.uint) :
  allDigits (NilEmpty.string_of_uint d) = true.
Proof. induction d; simpl; auto. Qed.

Lemma digitsOfN_integer (n : N) : isIntegerString (digitsOfN n) = true.
Proof.
  unfold digitsOfN, isIntegerString, NilZero.string_of_uint.
  destruct (N.to_uint n) eqn:E; try reflexivity;
    pose proof (string_of_uint_digits (N.to_uint n)) as H;
    rewrite E in H; exact H.
Qed.

Lemma digitChar_digit (d : Z) : 0 <= d < 10 -> isDigit (digitChar d) = true.
Proof.
  intros H.
  assert (Hd : d = 0 \/ d = 1 \/ d = 2 \/ d = 3 \/ d = 4 \/ d = 5 \/ d = 6 \/
               d = 7 \/ d = 8 \/ d = 9) by lia.
  repeat (destruct Hd as [-> | Hd]; [reflexivity|]). subst d. reflexivity.
Qed.








(** ** Task aggregator *)

Lemma mapGet_Some_elem {V} (m : JsMap V) (k : string) (v : V) :
  mapGet m k = Some v -> (k, v) ∈ m.
Proof.
  induction m as [|[k' v'] m IH]; simpl; [discriminate|].
  destruct (String.eqb k' k) eqn:E.
  - apply String.eqb_eq in E. intros [= ->]. subst. left.
  - intros H. right. auto.
Qed.

Lemma mapGet_None_fst {V} (m : JsMap V) (k : string) :
  mapGet m k = None -> k ∉ map fst m.
Proof.
  induction m as [|[k' v'] m IH]; simpl.
  - intros _. apply not_elem_of_nil.
  - destruct (String.eqb k' k) eqn:E; [discriminate|].
    apply String.eqb_neq in E. intros H.
    apply not_elem_of_cons. split; [congruence|auto].
Qed.

Lemma mapSet_present {V} (m : JsMap V) (k : string) (v : V) :
  k ∈ map fst m -> map fst (mapSet m k v) = map fst m.
Proof.
  induction m as [|[k' v'] m IH]; simpl.
  - intros H. apply elem_of_nil in H. contradiction.
  - destruct (String.eqb k' k) eqn:E; [reflexivity|].
    apply String.eqb_neq in E. intros H.
    apply elem_of_cons in H. destruct H as [H|H]; [congruence|].
    simpl. f_equal. auto.
Qed.

Lemma mapSet_absent {V} (m : JsMap V) (k : string) (v : V) :
  k ∉ map fst m -> mapSet m k v = m ++ [(k, v)].
Proof.
  induction m as [|[k' v'] m IH]; simpl; [reflexivity|].
  intros H. apply not_elem_of_cons in H. destruct H as [Hne H].
  destruct (String.eqb k' k) eqn:E.
  - apply String.eqb_eq in E. congruence.
  - f_equal. auto.
Qed.

Lemma mapSet_elem {V} (m : JsMap V) (k : string) (v : V)
    (k' : string) (v' : V) :
  NoDup (map fst m) ->
  (k', v') ∈ mapSet m k v ->
  (k' = k /\ v' = v) \/ (k' <> k /\ (k', v') ∈ m).
Proof.
  induction m as [|[k0 v0] m IH]; simpl; intros Hnd H.
  - apply list_elem_of_singleton in H. left. split; congruence.
  - apply NoDup_cons in Hnd. destruct Hnd as [Hk0 Hnd].
    destruct (String.eqb k0 k) eqn:E.
    + apply String.eqb_eq in E. subst k0.
      apply elem_of_cons in H. destruct H as [H|H].
      * left. split; congruence.
      * right. split; [|right; exact H].
        intros ->. apply Hk0.
        apply (list_elem_of_fmap_2 fst) in H. exact H.
    + apply String.eqb_neq in E.
      apply elem_of_cons in H. destruct H as [H|H].
      * right. split; [congruence|]. rewrite H. left.
      * destruct (IH Hnd H) as [?|[? ?]]; [left; assumption|].
        right. split; [assumption|]. right. assumption.
Qed.

Lemma mapSet_NoDup {V} (m : JsMap V) (k : string) (v : V) :
  NoDup (map fst m) -> NoDup (map fst (mapSet m k v)).
Proof.
  intros H. destruct (decide (k ∈ map fst m)) as [Hin|Hout].
  - rewrite mapSet_present by exact Hin. exact H.
  - rewrite mapSet_absent by exact Hout.
    rewrite map_app. apply NoDup_app. split; [exact H|].
    split; [|apply NoDup_singleton].
    intros x Hx Hx'. apply list_elem_of_singleton in Hx'. simpl in Hx'.
    congruence.
Qed.

Lemma mapSet_fst_elem {V} (m : JsMap V) (k : string) (v : V) (k' : string) :
  k' ∈ map fst (mapSet m k v) <-> k' = k \/ k' ∈ map fst m.
Proof.
  destruct (decide (k ∈ map fst m)) as [Hin|Hout].
  - rewrite mapSet_present by exact Hin. split; [auto|].
    intros [->|?]; assumption.
  - rewrite mapSet_absent by exact Hout.
    rewrite map_app, elem_of_app. simpl. rewrite list_elem_of_singleton.
    tauto.
Qed.

Lemma qualifying_snoc (l : list TraceEvent) (e : TraceEvent) :
  qualifying (l ++ [e]) =
  qualifying l ++ (if isPotentialTBTTask e then [e] else []).
Proof. unfold qualifying. rewrite List.filter_app. reflexivity. Qed.

Lemma eventsWithKey_snoc (k : string) (l : list TraceEvent) (e : TraceEvent) :
  eventsWithKey k (l ++ [e]) =
  eventsWithKey k l ++
  (if isPotentialTBTTask e && String.eqb (uniqueKeyOf e) k then [e] else []).
Proof.
  unfold eventsWithKey. rewrite qualifying_snoc, List.filter_app.
  f_equal. destruct (isPotentialTBTTask e); simpl; [|reflexivity].
  destruct (String.eqb (uniqueKeyOf e) k); reflexivity.
Qed.

Lemma sumOf_snoc (l : list float) (x : float) :
  sumOf (l ++ [x]) = (sumOf l + x)%float.
Proof. unfold sumOf. rewrite fold_left_app. reflexivity. Qed.

Lemma summaryOf_snoc (first : TraceEvent) (l : list TraceEvent) (e : TraceEvent) :
  summaryOf first (l ++ [e]) =
  mkTask (task_name (summaryOf first l)) (task_url (summaryOf first l))
         (blockingTime (summaryOf first l) + calculateBlockingTime e)%float
         (totalDuration (summaryOf first l) + durationMsOf e)%float
         (occurrences (summaryOf first l) + 1)%N
         (category (summaryOf first l)).
Proof.
  unfold summaryOf. cbn [task_name task_url blockingTime totalDuration
                         occurrences category].
  rewrite !map_app. cbn [map]. rewrite !sumOf_snoc.
  rewrite length_app. cbn [length].
  f_equal. lia.
Qed.

Lemma eventsWithKey_head (k : string) (l : list TraceEvent)
    (first : TraceEvent) (rest : list TraceEvent) :
  eventsWithKey k l = first :: rest ->
  first ∈ qualifying l /\ uniqueKeyOf first = k.
Proof.
  intros E.
  assert (Hin : In first (eventsWithKey k l)) by (rewrite E; left; reflexivity).
  unfold eventsWithKey in Hin. apply List.filter_In in Hin.
  destruct Hin as [Hq Hk]. apply String.eqb_eq in Hk.
  split; [apply list_elem_of_In, Hq|exact Hk].
Qed.

Lemma taskOfKey_key (k : string) (l : list TraceEvent) (t : Task) :
  taskOfKey k l = Some t -> taskKey t = k.
Proof.
  unfold taskOfKey. destruct (eventsWithKey k l) as [|first rest] eqn:E;
    [discriminate|].
  intros [= <-]. apply (eventsWithKey_head k l first rest E).
Qed.

Lemma taskOfKey_qualifying (k : string) (l : list TraceEvent) (t : Task) :
  taskOfKey k l = Some t -> k ∈ map uniqueKeyOf (qualifying l).
Proof.
  unfold taskOfKey. destruct (eventsWithKey k l) as [|first rest] eqn:E;
    [discriminate|].
  intros _. destruct (eventsWithKey_head k l first rest E) as [Hq <-].
  apply list_elem_of_fmap_2, Hq.
Qed.

Lemma aggregated_absent (l : list TraceEvent) (m : JsMap Task) (k : string) :
  aggregated l m -> k ∉ map fst m -> eventsWithKey k l = [].
Proof.
  intros (_ & _ & Hcov) Hk.
  destruct (eventsWithKey k l) as [|first rest] eqn:E; [reflexivity|].
  exfalso. apply Hk.
  destruct (eventsWithKey_head k l first rest E) as [Hq <-].
  apply Hcov, Hq.
Qed.

Lemma processEvent_aggregated (l : list TraceEvent) (m : JsMap Task)
    (e : TraceEvent) :
  aggregated l m -> aggregated (l ++ [e]) (processEvent m e).
Proof.
  intros Hagg. pose proof Hagg as (Hnd & Hent & Hcov).
  unfold processEvent. destruct (isPotentialTBTTask e) eqn:Q.
  - fold (uniqueKeyOf e). fold (durationMsOf e).
    set (k := uniqueKeyOf e).
    set (v := mkTask _ _ _ _ _ _).
    assert (Hv : taskOfKey k (l ++ [e]) = Some v).
    { unfold taskOfKey. rewrite eventsWithKey_snoc, Q.
      fold k. rewrite String.eqb_refl. cbn [andb].
      subst v. destruct (mapGet m k) as [t|] eqn:G.
      - apply mapGet_Some_elem, Hent in G. unfold taskOfKey in G.
        destruct (eventsWithKey k l) as [|first rest]; [discriminate|].
        injection G as <-.
        change ((first :: rest) ++ [e]) with (first :: (rest ++ [e])).
        cbv iota.
        change (first :: (rest ++ [e])) with ((first :: rest) ++ [e]).
        rewrite summaryOf_snoc. reflexivity.
      - rewrite (aggregated_absent l m k Hagg (mapGet_None_fst m k G)).
        reflexivity. }
    split; [apply mapSet_NoDup, Hnd|]. split.
    + intros k' t' Hin.
      destruct (mapSet_elem m k v k' t' Hnd Hin) as [[-> ->]|[Hne Hin']];
        [exact Hv|].
      unfold taskOfKey. rewrite eventsWithKey_snoc.
      assert (E : String.eqb (uniqueKeyOf e) k' = false)
        by (apply String.eqb_neq; fold k; congruence).
      rewrite E, andb_false_r, app_nil_r. apply (Hent k' t' Hin').
    + intros e' He'. rewrite qualifying_snoc, Q in He'.
      apply mapSet_fst_elem. apply elem_of_app in He'.
      destruct He' as [He'|He'].
      * right. apply Hcov, He'.
      * apply list_elem_of_singleton in He'. subst e'. left. reflexivity.
  - split; [exact Hnd|]. split.
    + intros k t Hin. unfold taskOfKey. rewrite eventsWithKey_snoc, Q.
      cbn [andb]. rewrite app_nil_r. apply (Hent k t Hin).
    + intros e' He'. rewrite qualifying_snoc, Q, app_nil_r in He'.
      apply Hcov, He'.
Qed.

Lemma fold_processEvent_aggregated (l : list TraceEvent) :
  aggregated l (fold_left processEvent l []).
Proof.
  induction l as [|e l IH] using rev_ind.
  - split; [constructor|]. split.
    + intros k t H. apply elem_of_nil in H. contradiction.
    + intros e H. apply elem_of_nil in H. contradiction.
  - rewrite fold_left_app. apply processEvent_aggregated, IH.
Qed.

Lemma aggregated_keys (l : list TraceEvent) (m : JsMap Task) :
  aggregated l m -> map taskKey (map snd m) = map fst m.
Proof.
  intros (_ & Hent & _). induction m as [|[k t] m IH]; [reflexivity|].
  simpl. f_equal.
  - apply (taskOfKey_key k l t), Hent. left.
  - apply IH. intros k' t' H. apply Hent. right. exact H.
Qed.

(** What the aggregator computes, for every event sequence: exactly one
    task per distinct key [name + "|" + url] among the qualifying events
    (the name falling back to "Unknown Task", the url to the empty string).
    The task of a key carries the name, the url and the category of the
    first qualifying event with that key ("unknown" if it has none), the
    sums of the blocking times and of the durations of all of them, and
    their count. *)
Lemma aggregate_by_key (events : list TraceEvent) :
  NoDup (map taskKey (aggregate events)) /\
  (forall k, k ∈ map taskKey (aggregate events) <->
             k ∈ map uniqueKeyOf (qualifying events)) /\
  (forall t, t ∈ aggregate events ->
             taskOfKey (taskKey t) events = Some t).
Proof.
  pose proof (fold_processEvent_aggregated events) as Hagg.
  pose proof Hagg as (Hnd & Hent & Hcov).
  unfold aggregate. rewrite (aggregated_keys events _ Hagg).
  split; [exact Hnd|]. split.
  - intros k. split.
    + intros Hk. apply list_elem_of_fmap in Hk.
      destruct Hk as ([k' t] & -> & Hin).
      apply (taskOfKey_qualifying _ _ t), Hent, Hin.
    + intros Hk. apply list_elem_of_fmap in Hk.
      destruct Hk as (e & -> & He). apply Hcov, He.
  - intros t Ht. apply list_elem_of_fmap in Ht.
    destruct Ht as ([k t'] & -> & Hin). simpl.
    pose proof (Hent k t' Hin) as H.
    rewrite (taskOfKey_key k events t' H). exact H.
Qed.



(** The tasks of one run have pairwise different (name, url) pairs. *)
Lemma aggregate_distinct_pairs (events : list TraceEvent) :
  NoDup (map taskPair (aggregate events)).
Proof.
  pose proof (fold_processEvent_aggregated events) as Hagg.
  pose proof Hagg as (Hnd & _ & _).
  rewrite <- (aggregated_keys events _ Hagg) in Hnd.
  fold (aggregate events) in Hnd.
  apply (NoDup_fmap_1 pairKey).
  change (pairKey <$> map taskPair (aggregate events))
    with (map pairKey (map taskPair (aggregate events))).
  rewrite map_map. exact Hnd.
Qed.


(** ** Report merger: what a merge leaves in place *)

Section Frame.

Local Open Scope nat_scope.

Lemma rowExtends_refl (b : bool) (row : Row) : rowExtends b row row.
Proof. split; [lia|]. intros j c H. left. exact H. Qed.

Lemma rowExtends_trans (b : bool) (r1 r2 r3 : Row) :
  rowExtends b r1 r2 -> rowExtends b r2 r3 -> rowExtends b r1 r3.
Proof.
  intros [L1 H1] [L2 H2]. split; [lia|].
  intros j c Hj. destruct (H1 j c Hj) as [H|(Hb & -> & H)].
  - apply H2, H.
  - right. repeat split; auto.
    destruct (H2 3 _ H) as [H'|(_ & _ & H')]; exact H'.
Qed.

Lemma rowExtends_push (b : bool) (row cells : Row) :
  rowExtends b row (row ++ cells).
Proof.
  split; [rewrite length_app; lia|].
  intros j c H. left. apply lookup_app_l_Some, H.
Qed.

Lemma setCell_lookup_ne (i j : nat) (v : string) (row : Row) (c : option string) :
  j <> i -> row !! j = Some c -> setCell i v row !! j = Some c.
Proof.
  intros Hne H. unfold setCell. destruct (i <? length row).
  - rewrite list_lookup_insert_ne by congruence. exact H.
  - apply lookup_app_l_Some, H.
Qed.

Lemma setCell_lookup_eq (i : nat) (v : string) (row : Row) :
  setCell i v row !! i = Some (Some v).
Proof.
  unfold setCell. destruct (i <? length row) eqn:E.
  - apply Nat.ltb_lt in E. apply list_lookup_insert_eq, E.
  - apply Nat.ltb_ge in E.
    rewrite lookup_app_r by exact E.
    rewrite lookup_app_r by (rewrite length_replicate; lia).
    rewrite length_replicate.
    replace (i - length row - (i - length row)) with 0 by lia. reflexivity.
Qed.

Lemma setCell_length (i : nat) (v : string) (row : Row) :
  length row <= length (setCell i v row).
Proof.
  unfold setCell. destruct (i <? length row).
  - rewrite length_insert. lia.
  - rewrite length_app. lia.
Qed.

Lemma rowExtends_setCell (row : Row) :
  rowExtends true row (setCell 3 "Yes" row).
Proof.
  split; [apply setCell_length|].
  intros j c H. destruct (decide (j = 3)) as [->|Hne].
  - right. repeat split. apply setCell_lookup_eq.
  - left. apply setCell_lookup_ne; assumption.
Qed.

Lemma reportExtends_refl (r : Report) : reportExtends r r.
Proof.
  split; [lia|]. intros i row H. exists row. split; [exact H|].
  apply rowExtends_refl.
Qed.

Lemma reportExtends_trans (r1 r2 r3 : Report) :
  reportExtends r1 r2 -> reportExtends r2 r3 -> reportExtends r1 r3.
Proof.
  intros [L1 H1] [L2 H2]. split; [lia|].
  intros i row Hi. destruct (H1 i row Hi) as (row2 & Hi2 & E2).
  destruct (H2 i row2 Hi2) as (row3 & Hi3 & E3).
  exists row3. split; [exact Hi3|]. eapply rowExtends_trans; eassumption.
Qed.

Lemma reportExtends_alter (f : Row -> Row) (i : nat) (r : Report) :
  (forall row, rowExtends (negb (Nat.eqb i 0)) row (f row)) ->
  reportExtends r (alter f i r).
Proof.
  intros Hf. split; [rewrite length_alter; lia|].
  intros j row Hj. destruct (decide (i = j)) as [->|Hne].
  - exists (f row). split; [|apply Hf].
    rewrite list_lookup_alter_eq, Hj. reflexivity.
  - exists row. split; [|apply rowExtends_refl].
    rewrite list_lookup_alter_ne by exact Hne. exact Hj.
Qed.

Lemma reportExtends_app (r rows : Report) : reportExtends r (r ++ rows).
Proof.
  split; [rewrite length_app; lia|].
  intros i row Hi. exists row. split; [|apply rowExtends_refl].
  apply lookup_app_l_Some, Hi.
Qed.

Lemma mapGet_mapSet_eq {V} (m : JsMap V) (k : string) (v : V) :
  mapGet (mapSet m k v) k = Some v.
Proof.
  induction m as [|[k' v'] m IH]; simpl.
  - rewrite String.eqb_refl. reflexivity.
  - destruct (String.eqb k' k) eqn:E; simpl; rewrite E; auto.
Qed.

Lemma mapGet_mapSet_ne {V} (m : JsMap V) (k k' : string) (v : V) :
  k <> k' -> mapGet (mapSet m k v) k' = mapGet m k'.
Proof.
  intros Hne. induction m as [|[k0 v0] m IH]; simpl.
  - assert (E : String.eqb k k' = false) by (apply String.eqb_neq, Hne).
    rewrite E. reflexivity.
  - destruct (String.eqb k0 k) eqn:E; simpl.
    + apply String.eqb_eq in E. subst k0.
      assert (E : String.eqb k k' = false) by (apply String.eqb_neq, Hne).
      rewrite E. reflexivity.
    + destruct (String.eqb k0 k'); auto.
Qed.

(** One task: the report is extended, the indices stay valid, and the
    entries of [taskMap] stay. *)
Lemma mergeTask_extends (runCount : Z) (st : MergeState) (task : Task) :
  indexed st ->
  reportExtends (st_report st) (st_report (mergeTask runCount st task)) /\
  indexed (mergeTask runCount st task) /\
  (forall k i, mapGet (st_taskMap st) k = Some i ->
               mapGet (st_taskMap (mergeTask runCount st task)) k = Some i).
Proof.
  intros [Hne Hidx]. unfold mergeTask, indexed.
  destruct (mapGet (st_taskMap st) (taskKey task)) as [rowIndex|] eqn:G.
  - destruct (Hidx _ _ G) as [H1 Hlt].
    assert (Hnz : negb (rowIndex =? 0) = true)
      by (apply negb_true_iff, Nat.eqb_neq; lia).
    cbn [st_report st_taskMap].
    assert (Hlen : length (alter (fun row => row ++ metricCells task) rowIndex
                     (if (0 <? blockingTime task)%float
                      then alter (setCell 3 "Yes") rowIndex (st_report st)
                      else st_report st)) = length (st_report st)).
    { rewrite length_alter.
      destruct (0 <? blockingTime task)%float; [rewrite length_alter|];
        reflexivity. }
    rewrite Hlen. split; [|split; [split|]]; auto.
    eapply reportExtends_trans;
      [|apply reportExtends_alter; intros row; apply rowExtends_push].
    destruct (0 <? blockingTime task)%float; [|apply reportExtends_refl].
    apply reportExtends_alter. intros row. rewrite Hnz.
    apply rowExtends_setCell.
  - cbn [st_report st_taskMap].
    rewrite length_alter, length_app. cbn [length].
    split; [|split; [split|]].
    + eapply reportExtends_trans; [apply reportExtends_app|].
      apply reportExtends_alter. intros row. apply rowExtends_push.
    + lia.
    + intros k i Hk.
      destruct (decide (taskKey task = k)) as [<-|Hnk].
      * rewrite mapGet_mapSet_eq in Hk. injection Hk as <-. lia.
      * rewrite mapGet_mapSet_ne in Hk by exact Hnk.
        pose proof (Hidx k i Hk). lia.
    + intros k i Hk. destruct (decide (taskKey task = k)) as [<-|Hnk].
      * congruence.
      * rewrite mapGet_mapSet_ne by exact Hnk. exact Hk.
Qed.

Lemma mergeTasks_extends (runCount : Z) (tasks : list Task) :
  forall st,
    indexed st ->
    reportExtends (st_report st)
                  (st_report (fold_left (mergeTask runCount) tasks st)) /\
    indexed (fold_left (mergeTask runCount) tasks st) /\
    (forall k i, mapGet (st_taskMap st) k = Some i ->
       mapGet (st_taskMap (fold_left (mergeTask runCount) tasks st)) k
       = Some i).
Proof.
  induction tasks as [|task tasks IH]; intros st Hidx; cbn [fold_left].
  - split; [apply reportExtends_refl|]. split; auto.
  - destruct (mergeTask_extends runCount st task Hidx) as (E1 & I1 & M1).
    destruct (IH _ I1) as (E2 & I2 & M2).
    split; [eapply reportExtends_trans; eassumption|]. split; auto.
Qed.

Lemma fillAbsent_extends (updated : gset string) (entries : JsMap nat) :
  forall report,
    reportExtends report (fold_left (fillAbsent updated) entries report).
Proof.
  induction entries as [|entry entries IH]; intros report; cbn [fold_left].
  - apply reportExtends_refl.
  - eapply reportExtends_trans; [|apply IH].
    unfold fillAbsent. destruct (bool_decide (entry.1 ∈ updated)).
    + apply reportExtends_refl.
    + apply reportExtends_alter. intros row. apply rowExtends_push.
Qed.

(** The row indices of [indexRows]. *)
Lemma indexRows_range (rows : list Row) :
  forall (m : JsMap nat) (s : nat) (k : string) (i : nat),
    mapGet (indexRows m s rows) k = Some i ->
    mapGet m k = Some i \/ s <= i < s + length rows.
Proof.
  induction rows as [|row rows IH]; intros m s k i H; cbn [indexRows] in H.
  - left. exact H.
  - destruct (IH _ _ _ _ H) as [H'|H']; [|right; cbn [length]; lia].
    destruct (decide (rowKey row = k)) as [<-|Hne].
    + rewrite mapGet_mapSet_eq in H'. injection H' as <-.
      right. cbn [length]. lia.
    + rewrite mapGet_mapSet_ne in H' by exact Hne. left. exact H'.
Qed.



Lemma initial_indexed (headerRow : Row) (rows : list Row) (n : Z) :
  indexed (mkState ((headerRow ++ runLabels n) :: rows)
                   (indexRows [] 1 rows) ∅).
Proof.
  split; cbn [st_report st_taskMap length]; [lia|].
  intros k i H. destruct (indexRows_range _ _ _ _ _ H) as [H'|H'].
  - discriminate.
  - lia.
Qed.

(** A merge into a report that has a header extends the report. *)
Lemma updateReport_extends (headerRow : Row) (rows : list Row)
    (tasks : list Task) :
  reportExtends (headerRow :: rows) (updateReport (headerRow :: rows) tasks).
Proof.
  unfold updateReport.
  set (runCount := ((Z.of_nat (length headerRow) - 4) / 3)%Z).
  set (st0 := mkState _ _ _).
  destruct (mergeTasks_extends runCount tasks st0) as (E & _ & _).
  { apply initial_indexed. }
  eapply reportExtends_trans; [|apply fillAbsent_extends].
  eapply reportExtends_trans; [|exact E].
  subst st0. cbn [st_report].
  split; [reflexivity|].
  intros i row Hi. destruct i as [|i].
  - injection Hi as <-. exists (headerRow ++ runLabels (runCount + 1)%Z).
    split; [reflexivity|]. apply rowExtends_push.
  - exists row. split; [exact Hi|]. apply rowExtends_refl.
Qed.




(** C10: a merge into a report that has a header removes no row and no
    cell: the report is at least as long, every row is at least as long,
    and every cell that was there holds the value it held, except that the
    cell at index 3 ("Has Long Tasks") of a data row may have been
    overwritten with "Yes".  The header row is unchanged but for the cells
    appended to it. *)
Theorem updateReport_frame (headerRow : Row) (rows : list Row)
    (tasks : list Task) :
  let report := headerRow :: rows in
  let report' := updateReport report tasks in
  length report <= length report' /\
  forall (i : nat) (row : Row),
    report !! i = Some row ->
    exists row',
      report' !! i = Some row' /\
      length row <= length row' /\
      forall (j : nat) (c : option string),
        row !! j = Some c ->
        row' !! j = Some c \/
        (i <> 0 /\ j = 3 /\ row' !! j = Some (Some "Yes")).
Proof.
  intros report report'.
  destruct (updateReport_extends headerRow rows tasks) as [Hlen H].
  split; [exact Hlen|].
  intros i row Hi. destruct (H i row Hi) as (row' & Hi' & Hl & Hc).
  exists row'. split; [exact Hi'|]. split; [exact Hl|].
  intros j c Hj. destruct (Hc j c Hj) as [H'|(Hb & -> & H')]; [left; exact H'|].
  right. repeat split; auto.
  intros ->. discriminate.
Qed.


End Frame.

(** ** Report merger: row identity *)

Section Identity.

Local Open Scope nat_scope.

Lemma cellText_prefix (row cells : Row) (i : nat) :
  i < length row -> cellText (row ++ cells) i = cellText row i.
Proof.
  intros H. unfold cellText. rewrite lookup_app_l by exact H. reflexivity.
Qed.

Lemma cellText_setCell (row : Row) (i j : nat) (v : string) :
  j < length row -> j <> i -> cellText (setCell i v row) j = cellText row j.
Proof.
  intros Hlt Hne. unfold cellText.
  destruct (lookup_lt_is_Some_2 row j Hlt) as [c Hc].
  rewrite (setCell_lookup_ne i j v row c Hne Hc), Hc. reflexivity.
Qed.

Lemma push_keepsIdentity (cells : Row) :
  keepsIdentity (fun row => row ++ cells).
Proof.
  intros row H. split; [rewrite length_app; lia|].
  unfold rowPair. rewrite !cellText_prefix by lia. reflexivity.
Qed.

Lemma setCell3_keepsIdentity (v : string) : keepsIdentity (setCell 3 v).
Proof.
  intros row H. split; [pose proof (setCell_length 3 v row); lia|].
  unfold rowPair. rewrite !cellText_setCell by lia. reflexivity.
Qed.

Lemma rowKey_pairKey (row : Row) : rowKey row = pairKey (rowPair row).
Proof. reflexivity. Qed.

Lemma taskKey_pairKey (task : Task) : taskKey task = pairKey (taskPair task).
Proof. reflexivity. Qed.

Lemma alter_rows_keeps (f : Row -> Row) (rows : list Row) :
  keepsIdentity f ->
  Forall (fun row : Row => 2 <= length row) rows ->
  forall j,
    Forall (fun row : Row => 2 <= length row) (alter f j rows) /\
    map rowPair (alter f j rows) = map rowPair rows.
Proof.
  intros Hf Hall. induction Hall as [|row rows Hrow Hall IH]; intros j.
  - split; [constructor|reflexivity].
  - destruct j as [|j]; cbn [alter list_alter map].
    + destruct (Hf row Hrow) as [Hl Hp]. split.
      * constructor; assumption.
      * rewrite Hp. reflexivity.
    + destruct (IH j) as [Hl Hp]. split.
      * constructor; assumption.
      * change (list_alter f j rows) with (alter f j rows).
        rewrite Hp. reflexivity.
Qed.

Lemma alter_wellKeyed (f : Row -> Row) (i : nat) (report : Report)
    (pairs : list (string * string)) :
  keepsIdentity f -> wellKeyed report pairs ->
  wellKeyed (alter f i report) pairs.
Proof.
  intros Hf (header & rows & -> & Hall & Hp).
  destruct i as [|j].
  - exists (f header), rows. repeat split; assumption.
  - destruct (alter_rows_keeps f rows Hf Hall j) as [Hl Hp'].
    exists header, (alter f j rows). split; [reflexivity|].
    split; [exact Hl|]. rewrite Hp'. exact Hp.
Qed.

Lemma app_wellKeyed (report : Report) (pairs : list (string * string))
    (row : Row) :
  wellKeyed report pairs -> 2 <= length row ->
  wellKeyed (report ++ [row]) (pairs ++ [rowPair row]).
Proof.
  intros (header & rows & -> & Hall & Hp) Hrow.
  exists header, (rows ++ [row]). split; [reflexivity|]. split.
  - apply Forall_app. split; [exact Hall|]. constructor; [exact Hrow|constructor].
  - rewrite map_app, Hp. reflexivity.
Qed.

Lemma newRow_identity (runCount : Z) (task : Task) :
  2 <= length (newRow runCount task) /\
  rowPair (newRow runCount task) = taskPair task.
Proof.
  unfold newRow. split.
  - rewrite length_app. cbn [fixedCells length]. lia.
  - reflexivity.
Qed.

Lemma mergeTask_covered (runCount : Z) (st : MergeState) (task : Task) :
  covered st -> covered (mergeTask runCount st task).
Proof.
  intros (pairs & Hwk & Hnd & Hcov). unfold mergeTask.
  destruct (mapGet (st_taskMap st) (taskKey task)) as [rowIndex|] eqn:G.
  - exists pairs. cbn [st_report st_taskMap]. split; [|split; assumption].
    apply alter_wellKeyed; [apply push_keepsIdentity|].
    destruct (0 <? blockingTime task)%float; [|exact Hwk].
    apply alter_wellKeyed; [apply setCell3_keepsIdentity|exact Hwk].
  - destruct (newRow_identity runCount task) as [Hl Hp].
    exists (pairs ++ [taskPair task]). cbn [st_report st_taskMap].
    split; [|split].
    + apply alter_wellKeyed; [apply push_keepsIdentity|].
      rewrite <- Hp. apply app_wellKeyed; assumption.
    + apply NoDup_app. split; [exact Hnd|]. split; [|apply NoDup_singleton].
      intros p Hin Hin'. apply list_elem_of_singleton in Hin'. subst p.
      destruct (Hcov _ Hin) as [i Hi].
      rewrite <- taskKey_pairKey in Hi. congruence.
    + intros p Hin. apply elem_of_app in Hin. destruct Hin as [Hin|Hin].
      * destruct (decide (taskKey task = pairKey p)) as [E|E].
        -- rewrite <- E, mapGet_mapSet_eq. eauto.
        -- rewrite mapGet_mapSet_ne by exact E. apply Hcov, Hin.
      * apply list_elem_of_singleton in Hin. subst p.
        rewrite <- taskKey_pairKey, mapGet_mapSet_eq. eauto.
Qed.

Lemma mergeTasks_covered (runCount : Z) (tasks : list Task) :
  forall st, covered st -> covered (fold_left (mergeTask runCount) tasks st).
Proof.
  induction tasks as [|task tasks IH]; intros st H; cbn [fold_left].
  - exact H.
  - apply IH, mergeTask_covered, H.
Qed.

Lemma fillAbsent_wellKeyed (updated : gset string) (entries : JsMap nat)
    (pairs : list (string * string)) :
  forall report,
    wellKeyed report pairs ->
    wellKeyed (fold_left (fillAbsent updated) entries report) pairs.
Proof.
  induction entries as [|entry entries IH]; intros report H; cbn [fold_left].
  - exact H.
  - apply IH. unfold fillAbsent.
    destruct (bool_decide (entry.1 ∈ updated)); [exact H|].
    apply alter_wellKeyed; [apply push_keepsIdentity|exact H].
Qed.

Lemma indexRows_keeps (rows : list Row) (k : string) :
  forall (m : JsMap nat) (s : nat),
    is_Some (mapGet m k) -> is_Some (mapGet (indexRows m s rows) k).
Proof.
  induction rows as [|row rows IH]; intros m s H; cbn [indexRows].
  - exact H.
  - apply IH. destruct (decide (rowKey row = k)) as [<-|Hne].
    + rewrite mapGet_mapSet_eq. eauto.
    + rewrite mapGet_mapSet_ne by exact Hne. exact H.
Qed.

Lemma indexRows_covers (rows : list Row) :
  forall (m : JsMap nat) (s : nat) (row : Row),
    row ∈ rows -> is_Some (mapGet (indexRows m s rows) (rowKey row)).
Proof.
  induction rows as [|row0 rows IH]; intros m s row Hin.
  - apply elem_of_nil in Hin. contradiction.
  - cbn [indexRows]. apply elem_of_cons in Hin. destruct Hin as [->|Hin].
    + apply indexRows_keeps. rewrite mapGet_mapSet_eq. eauto.
    + apply IH, Hin.
Qed.

(** A merge keeps the data rows distinct. *)
Lemma updateReport_wellKeyed (report : Report) (tasks : list Task)
    (pairs : list (string * string)) :
  wellKeyed report pairs -> NoDup pairs ->
  exists pairs', wellKeyed (updateReport report tasks) pairs' /\ NoDup pairs'.
Proof.
  intros (header & rows & -> & Hall & Hp) Hnd. unfold updateReport.
  set (runCount := ((Z.of_nat (length header) - 4) / 3)%Z).
  set (st0 := mkState _ _ _).
  assert (H0 : covered st0).
  { exists pairs. subst st0. cbn [st_report st_taskMap].
    split; [|split; [exact Hnd|]].
    - exists (header ++ runLabels (runCount + 1)%Z), rows. auto.
    - intros p Hin. rewrite <- Hp in Hin.
      apply list_elem_of_fmap in Hin. destruct Hin as (row & -> & Hin).
      rewrite <- rowKey_pairKey. apply indexRows_covers, Hin. }
  destruct (mergeTasks_covered runCount tasks st0 H0) as (pairs' & Hwk & Hnd' & _).
  exists pairs'. split; [|exact Hnd'].
  apply fillAbsent_wellKeyed, Hwk.
Qed.

Lemma firstRun_wellKeyed (tasks : list Task) :
  wellKeyed (updateReport [] tasks) (map taskPair tasks).
Proof.
  exists firstHeader, (map firstRunRow tasks). split; [reflexivity|]. split.
  - apply Forall_forall. intros row Hin.
    apply list_elem_of_fmap in Hin. destruct Hin as (t & -> & _).
    cbn. lia.
  - rewrite map_map. reflexivity.
Qed.

Lemma mergeRuns_wellKeyed (later : list (list Task)) :
  forall report pairs,
    wellKeyed report pairs -> NoDup pairs ->
    exists pairs', wellKeyed (fold_left updateReport later report) pairs' /\
                   NoDup pairs'.
Proof.
  induction later as [|tasks later IH]; intros report pairs Hwk Hnd;
    cbn [fold_left].
  - eauto.
  - destruct (updateReport_wellKeyed report tasks pairs Hwk Hnd)
      as (pairs' & Hwk' & Hnd').
    eapply IH; eassumption.
Qed.

(** C1, as amended: in every report obtained from the empty report by
    successive merges, the first of a task list in which no two tasks have
    the same (name, url) pair, no two data rows have the same
    (Task Name, URL) pair. *)
Theorem mergeRuns_unique_rows (runs : list (list Task)) :
  (forall first, head runs = Some first -> NoDup (map taskPair first)) ->
  NoDup (map rowPair (dataRows (mergeRuns runs))).
Proof.
  intros Hnd. destruct runs as [|first later].
  - constructor.
  - unfold mergeRuns. cbn [fold_left].
    destruct (mergeRuns_wellKeyed later _ _ (firstRun_wellKeyed first)
                (Hnd first eq_refl))
      as (pairs & (header & rows & -> & _ & <-) & Hnd').
    exact Hnd'.
Qed.

(** The reports of the tool: each run merges the tasks aggregated from one
    trace. *)
Lemma mergeRuns_of_traces_unique_rows (traces : list (list TraceEvent)) :
  NoDup (map rowPair (dataRows (mergeRuns (map aggregate traces)))).
Proof.
  destruct traces as [|events later]; [constructor|].
  unfold mergeRuns. cbn [map fold_left].
  destruct (mergeRuns_wellKeyed (map aggregate later) _ _
              (firstRun_wellKeyed (aggregate events))
              (aggregate_distinct_pairs events))
    as (pairs & (header & rows & -> & _ & <-) & Hnd').
  exact Hnd'.
Qed.

End Identity.

(** ** Report merger: alignment of the rows with the header *)

Section Alignment.

Local Open Scope nat_scope.

Lemma entriesOf_fst (rows : list Row) :
  forall s, map fst (entriesOf s rows) = map rowKey rows.
Proof.
  induction rows as [|row rows IH]; intros s; cbn [entriesOf map fst];
    [reflexivity|].
  rewrite IH. reflexivity.
Qed.

Lemma entriesOf_app (rows : list Row) (row : Row) :
  forall s,
    entriesOf s (rows ++ [row]) =
    entriesOf s rows ++ [(rowKey row, s + length rows)].
Proof.
  induction rows as [|r rows IH]; intros s; cbn [entriesOf app length].
  - rewrite Nat.add_0_r. reflexivity.
  - rewrite IH. replace (S s + length rows) with (s + S (length rows)) by lia.
    reflexivity.
Qed.

Lemma indexRows_entries (rows : list Row) :
  forall (m : JsMap nat) (s : nat),
    NoDup (map fst m ++ map rowKey rows) ->
    indexRows m s rows = m ++ entriesOf s rows.
Proof.
  induction rows as [|row rows IH]; intros m s Hnd; cbn [indexRows entriesOf].
  - rewrite app_nil_r. reflexivity.
  - cbn [map] in Hnd.
    assert (Hout : rowKey row ∉ map fst m).
    { apply NoDup_app in Hnd. destruct Hnd as (_ & Hd & _).
      intros Hin. apply (Hd _ Hin). left. }
    rewrite mapSet_absent by exact Hout.
    rewrite IH.
    + rewrite <- app_assoc. reflexivity.
    + rewrite map_app. cbn [map fst]. rewrite <- app_assoc. exact Hnd.
Qed.

Lemma mapGet_entriesOf_None (rows : list Row) (k : string) :
  forall s, mapGet (entriesOf s rows) k = None -> k ∉ map rowKey rows.
Proof.
  intros s H. rewrite <- (entriesOf_fst rows s). apply mapGet_None_fst, H.
Qed.

Lemma mapGet_entriesOf_Some (rows : list Row) (k : string) :
  forall s i,
    mapGet (entriesOf s rows) k = Some i ->
    exists j row, i = s + j /\ rows !! j = Some row /\ rowKey row = k.
Proof.
  induction rows as [|row rows IH]; intros s i H; cbn in H; [discriminate|].
  destruct (String.eqb (rowKey row) k) eqn:E.
  - apply String.eqb_eq in E. injection H as <-.
    exists 0, row. repeat split; [lia|exact E].
  - destruct (IH _ _ H) as (j & r & -> & Hj & Hk).
    exists (S j), r. repeat split; [lia|exact Hj|exact Hk].
Qed.

Lemma alter_same_keys (f : Row -> Row) (j : nat) (rows : list Row) :
  (forall row, rows !! j = Some row -> rowKey (f row) = rowKey row) ->
  map rowKey (alter f j rows) = map rowKey rows.
Proof.
  revert j. induction rows as [|r rows IH]; intros j H; [reflexivity|].
  destruct j as [|j]; cbn [alter list_alter map].
  - rewrite (H r eq_refl). reflexivity.
  - change (list_alter f j rows) with (alter f j rows).
    rewrite IH by (intros row Hrow; apply H; exact Hrow). reflexivity.
Qed.

Lemma alter_same_entries (f : Row -> Row) (j : nat) (rows : list Row) :
  (forall row, rows !! j = Some row -> rowKey (f row) = rowKey row) ->
  forall s, entriesOf s (alter f j rows) = entriesOf s rows.
Proof.
  revert j. induction rows as [|r rows IH]; intros j H s; [reflexivity|].
  destruct j as [|j]; cbn [alter list_alter entriesOf].
  - rewrite (H r eq_refl). reflexivity.
  - change (list_alter f j rows) with (alter f j rows).
    rewrite IH by (intros row Hrow; apply H; exact Hrow). reflexivity.
Qed.

Lemma NoDup_keys_index (rows : list Row) (i j : nat) (r1 r2 : Row) :
  NoDup (map rowKey rows) ->
  rows !! i = Some r1 -> rows !! j = Some r2 -> rowKey r1 = rowKey r2 ->
  i = j.
Proof.
  intros Hnd Hi Hj Hk.
  apply (NoDup_lookup (map rowKey rows) i j (rowKey r1) Hnd).
  - change (map rowKey rows) with (rowKey <$> rows).
    rewrite list_lookup_fmap, Hi. reflexivity.
  - change (map rowKey rows) with (rowKey <$> rows).
    rewrite list_lookup_fmap, Hj, Hk. reflexivity.
Qed.

(** The last loop, when [taskMap] lists the rows. *)
Lemma fillAbsent_entries (updated : gset string) (rows : list Row) :
  forall pre : Report,
    fold_left (fillAbsent updated) (entriesOf (length pre) rows) (pre ++ rows)
    = pre ++ map (fillRow updated) rows.
Proof.
  induction rows as [|row rows IH]; intros pre; cbn [entriesOf fold_left map].
  - reflexivity.
  - assert (Hstep : fillAbsent updated (pre ++ row :: rows)
                               (rowKey row, length pre)
                    = (pre ++ [fillRow updated row]) ++ rows).
    { unfold fillAbsent, fillRow. cbn [fst snd].
      destruct (bool_decide (rowKey row ∈ updated)).
      - rewrite <- app_assoc. reflexivity.
      - replace (length pre) with (length pre + 0) by lia.
        rewrite alter_app_r. cbn [alter list_alter].
        rewrite <- app_assoc. reflexivity. }
    rewrite Hstep.
    replace (S (length pre)) with (length (pre ++ [fillRow updated row]))
      by (rewrite length_app; cbn [length]; lia).
    rewrite IH. rewrite <- app_assoc. reflexivity.
Qed.

Lemma length_newRow (k : nat) (task : Task) :
  length (newRow (Z.of_nat k) task) = 4 + 3 * k.
Proof.
  unfold newRow. rewrite length_app, Nat2Z.id. cbn [fixedCells length].
  f_equal. induction k as [|k IH]; [reflexivity|].
  cbn [replicate concat]. rewrite length_app, IH. cbn [absentCells length].
  lia.
Qed.

Lemma length_setCell_in (i : nat) (v : string) (row : Row) :
  i < length row -> length (setCell i v row) = length row.
Proof.
  intros H. unfold setCell. apply Nat.ltb_lt in H. rewrite H.
  apply length_insert.
Qed.

Lemma rowKey_push (row cells : Row) :
  2 <= length row -> rowKey (row ++ cells) = rowKey row.
Proof.
  intros H. rewrite !rowKey_pairKey.
  destruct (push_keepsIdentity cells row H) as [_ ->]. reflexivity.
Qed.

Lemma rowKey_setCell3 (v : string) (row : Row) :
  2 <= length row -> rowKey (setCell 3 v row) = rowKey row.
Proof.
  intros H. rewrite !rowKey_pairKey.
  destruct (setCell3_keepsIdentity v row H) as [_ ->]. reflexivity.
Qed.

Lemma updated_add (k k' : string) (U : gset string) :
  k' ∈ ({[ k ]} ∪ U : gset string) <-> k' = k \/ k' ∈ U.
Proof. rewrite elem_of_union, elem_of_singleton. reflexivity. Qed.

Lemma bool_decide_updated_eq (k : string) (U : gset string) :
  bool_decide (k ∈ ({[ k ]} ∪ U : gset string)) = true.
Proof. apply bool_decide_eq_true_2, updated_add. left. reflexivity. Qed.

Lemma bool_decide_updated_ne (k k' : string) (U : gset string) :
  k' <> k ->
  bool_decide (k' ∈ ({[ k ]} ∪ U : gset string)) = bool_decide (k' ∈ U).
Proof.
  intros Hne. apply bool_decide_ext. rewrite updated_add. tauto.
Qed.

Lemma mergeTask_aligned (k : nat) (rows0 : list Row) (header' : Row)
    (st : MergeState) (task : Task) :
  aligned (4 + 3 * k) rows0 header' st ->
  taskKey task ∉ st_updated st ->
  aligned (4 + 3 * k) rows0 header' (mergeTask (Z.of_nat k) st task).
Proof.
  intros (rs & Hrep & Hmap & Hnd & Hlen & Hold) Hfresh.
  unfold mergeTask. rewrite Hmap, Hrep.
  destruct (mapGet (entriesOf 1 rs) (taskKey task)) as [i|] eqn:G.
  - destruct (mapGet_entriesOf_Some rs _ 1 i G) as (j & row & -> & Hj & Hk).
    assert (Hrow : length row = 4 + 3 * k).
    { rewrite Forall_lookup in Hlen. rewrite (Hlen j row Hj).
      rewrite Hk. rewrite bool_decide_eq_false_2 by exact Hfresh.
      reflexivity. }
    set (g := fun r : Row =>
                (if (0 <? blockingTime task)%float
                 then setCell 3 "Yes" r else r) ++ metricCells task).
    assert (Hg : alter (fun r => r ++ metricCells task) (1 + j)
                   (if (0 <? blockingTime task)%float
                    then alter (setCell 3 "Yes") (1 + j) (header' :: rs)
                    else header' :: rs)
                 = header' :: alter g j rs).
    { subst g. cbn [Nat.add alter list_alter].
      destruct (0 <? blockingTime task)%float; cbn [alter list_alter].
      - f_equal.
        change (list_alter ?f j ?l) with (alter f j l).
        rewrite list_alter_alter_eq. reflexivity.
      - reflexivity. }
    assert (Hgk : rowKey (g row) = rowKey row).
    { subst g. cbv beta. rewrite rowKey_push.
      - destruct (0 <? blockingTime task)%float; [|reflexivity].
        apply rowKey_setCell3. lia.
      - destruct (0 <? blockingTime task)%float; [|lia].
        pose proof (setCell_length 3 "Yes" row). lia. }
    assert (Hgl : length (g row) = 4 + 3 * k + 3).
    { subst g. cbv beta. rewrite length_app. cbn [metricCells length].
      destruct (0 <? blockingTime task)%float; [|lia].
      rewrite length_setCell_in by lia. lia. }
    assert (Hsame : forall r, rs !! j = Some r -> rowKey (g r) = rowKey r)
      by (intros r Hr; rewrite Hj in Hr; injection Hr as <-; exact Hgk).
    exists (alter g j rs). cbn [st_report st_taskMap st_updated].
    split; [exact Hg|]. split; [symmetry; apply alter_same_entries, Hsame|].
    split; [rewrite alter_same_keys by exact Hsame; exact Hnd|]. split.
    + apply Forall_lookup. intros j' r' Hj'.
      destruct (decide (j = j')) as [<-|Hne].
      * rewrite list_lookup_alter_eq, Hj in Hj'. injection Hj' as <-.
        rewrite Hgk, Hk, Hgl, bool_decide_updated_eq. reflexivity.
      * rewrite list_lookup_alter_ne in Hj' by exact Hne.
        rewrite Forall_lookup in Hlen. rewrite (Hlen j' r' Hj').
        assert (Hkk : rowKey r' <> taskKey task).
        { intros E. apply Hne.
          apply (NoDup_keys_index rs j j' row r' Hnd Hj Hj'). congruence. }
        rewrite bool_decide_updated_ne by exact Hkk. reflexivity.
    + intros j0 r0 Hj0 Hout.
      rewrite updated_add in Hout.
      assert (Hout' : rowKey r0 ∉ st_updated st) by tauto.
      pose proof (Hold j0 r0 Hj0 Hout') as Hr0.
      rewrite list_lookup_alter_ne; [exact Hr0|].
      intros <-. rewrite Hj in Hr0. injection Hr0 as <-. tauto.
  - pose proof (mapGet_entriesOf_None rs _ 1 G) as Hnew.
    set (nr := newRow (Z.of_nat k) task ++ metricCells task).
    assert (Hnl : length (newRow (Z.of_nat k) task) = 4 + 3 * k)
      by apply length_newRow.
    assert (Hnk : rowKey nr = taskKey task).
    { subst nr. rewrite rowKey_push by lia. reflexivity. }
    assert (Hg : alter (fun r => r ++ metricCells task)
                   (length (header' :: rs))
                   ((header' :: rs) ++ [newRow (Z.of_nat k) task])
                 = header' :: (rs ++ [nr])).
    { replace (length (header' :: rs)) with (length (header' :: rs) + 0)
        by lia.
      rewrite alter_app_r. reflexivity. }
    exists (rs ++ [nr]). cbn [st_report st_taskMap st_updated].
    split; [exact Hg|]. split.
    { rewrite mapSet_absent by (rewrite entriesOf_fst; exact Hnew).
      rewrite entriesOf_app, Hnk. cbn [length]. reflexivity. }
    split.
    { rewrite map_app. apply NoDup_app. split; [exact Hnd|].
      split; [|apply NoDup_singleton].
      intros x Hx Hx'. cbn [map] in Hx'.
      apply list_elem_of_singleton in Hx'.
      subst x. rewrite Hnk in Hx. contradiction. }
    split.
    + apply Forall_app. split.
      * rewrite Forall_forall in Hlen. apply Forall_forall. intros r Hr.
        rewrite (Hlen r Hr).
        assert (Hkk : rowKey r <> taskKey task).
        { intros E. apply Hnew. rewrite <- E.
          apply list_elem_of_fmap_2, Hr. }
        rewrite bool_decide_updated_ne by exact Hkk. reflexivity.
      * constructor; [|constructor].
        rewrite Hnk, bool_decide_updated_eq.
        subst nr. rewrite length_app, Hnl. reflexivity.
    + intros j0 r0 Hj0 Hout.
      rewrite updated_add in Hout.
      apply lookup_app_l_Some, Hold; [exact Hj0|tauto].
Qed.

Lemma mergeTask_updated (runCount : Z) (st : MergeState) (task : Task) :
  st_updated (mergeTask runCount st task) = {[ taskKey task ]} ∪ st_updated st.
Proof.
  unfold mergeTask.
  destruct (mapGet (st_taskMap st) (taskKey task)); reflexivity.
Qed.

Lemma mergeTasks_aligned (k : nat) (rows0 : list Row) (header' : Row)
    (tasks : list Task) :
  forall st,
    aligned (4 + 3 * k) rows0 header' st ->
    NoDup (map taskKey tasks) ->
    (forall t, t ∈ tasks -> taskKey t ∉ st_updated st) ->
    aligned (4 + 3 * k) rows0 header'
            (fold_left (mergeTask (Z.of_nat k)) tasks st) /\
    forall key,
      key ∈ st_updated (fold_left (mergeTask (Z.of_nat k)) tasks st) <->
      key ∈ map taskKey tasks \/ key ∈ st_updated st.
Proof.
  induction tasks as [|task tasks IH]; intros st Hal Hnd Hfresh;
    cbn [fold_left].
  - split; [exact Hal|]. intros key. cbn [map]. rewrite elem_of_nil. tauto.
  - cbn [map] in Hnd. apply NoDup_cons in Hnd. destruct Hnd as [Hhead Hnd].
    destruct (IH (mergeTask (Z.of_nat k) st task)) as [Hal' Hup].
    + apply mergeTask_aligned; [exact Hal|]. apply Hfresh. left.
    + exact Hnd.
    + intros t Ht. rewrite mergeTask_updated.
      assert (taskKey t <> taskKey task).
      { intros E. apply Hhead. rewrite <- E.
        apply list_elem_of_fmap_2, Ht. }
      assert (taskKey t ∉ st_updated st) by (apply Hfresh; right; exact Ht).
      rewrite updated_add. tauto.
    + split; [exact Hal'|]. intros key. rewrite Hup, mergeTask_updated.
      cbn [map]. rewrite elem_of_cons, updated_add. tauto.
Qed.

(** C2, as amended: for a report whose header has [4 + 3 k] cells, whose
    data rows all have as many cells as the header and no two of them the
    same key [name + "|" + url], and a task list in which no two tasks have
    the same key: the merge adds exactly 3 cells to the header, leaves every
    data row with as many cells as the new header, and appends "-1", "-1",
    "-1" to every row that was there and whose key is the key of no task of
    the list. *)
Theorem updateReport_next_run (header : Row) (rows : list Row)
    (tasks : list Task) (k : nat) :
  length header = 4 + 3 * k ->
  Forall (fun row : Row => length row = length header) rows ->
  NoDup (map rowKey rows) ->
  NoDup (map taskKey tasks) ->
  exists header' rows',
    updateReport (header :: rows) tasks = header' :: rows' /\
    length header' = length header + 3 /\
    Forall (fun row : Row => length row = length header') rows' /\
    forall (j : nat) (row : Row),
      rows !! j = Some row ->
      rowKey row ∉ map taskKey tasks ->
      rows' !! j = Some (row ++ [Some "-1"; Some "-1"; Some "-1"]).
Proof.
  intros Hh Hrows Hnd Hnt. unfold updateReport.
  assert (Hrc : ((Z.of_nat (length header) - 4) / 3)%Z = Z.of_nat k).
  { rewrite Hh. replace (Z.of_nat (4 + 3 * k) - 4)%Z with (Z.of_nat k * 3)%Z
      by lia.
    apply Z.div_mul. lia. }
  rewrite Hrc.
  set (header' := header ++ runLabels (Z.of_nat k + 1)%Z).
  set (st0 := mkState (header' :: rows) (indexRows [] 1 rows) ∅).
  assert (H0 : aligned (4 + 3 * k) rows header' st0).
  { exists rows. subst st0. cbn [st_report st_taskMap st_updated].
    split; [reflexivity|]. split; [apply indexRows_entries; exact Hnd|].
    split; [exact Hnd|]. split.
    - rewrite Forall_forall in Hrows. apply Forall_forall. intros r Hr.
      rewrite bool_decide_eq_false_2 by apply not_elem_of_empty.
      rewrite (Hrows r Hr). exact Hh.
    - auto. }
  destruct (mergeTasks_aligned k rows header' tasks st0 H0 Hnt)
    as [(rs & Hrep & Hmap & Hndr & Hlen & Hold) Hup].
  { intros t _. subst st0. cbn [st_updated]. apply not_elem_of_empty. }
  set (st := fold_left (mergeTask (Z.of_nat k)) tasks st0) in *.
  rewrite Hrep, Hmap.
  pose proof (fillAbsent_entries (st_updated st) rs [header']) as Hfill.
  cbn [length app] in Hfill. rewrite Hfill.
  exists header', (map (fillRow (st_updated st)) rs).
  assert (Hhl : length header' = length header + 3).
  { subst header'. rewrite length_app. reflexivity. }
  split; [reflexivity|]. split; [exact Hhl|]. split.
  - apply Forall_forall. intros r Hr.
    apply list_elem_of_fmap in Hr. destruct Hr as (r0 & -> & Hr0).
    rewrite Forall_forall in Hlen. pose proof (Hlen r0 Hr0) as Hl.
    unfold fillRow. rewrite Hhl, Hh.
    destruct (bool_decide (rowKey r0 ∈ st_updated st)).
    + exact Hl.
    + rewrite length_app, Hl. reflexivity.
  - intros j row Hj Hout.
    assert (Hnu : rowKey row ∉ st_updated st).
    { rewrite Hup. subst st0. cbn [st_updated].
      intros [Hin|Hin]; [exact (Hout Hin)|].
      exact (not_elem_of_empty (C:=gset string) _ Hin). }
    change (map (fillRow (st_updated st)) rs)
      with (fillRow (st_updated st) <$> rs).
    rewrite list_lookup_fmap, (Hold j row Hj Hnu). cbn.
    unfold fillRow. rewrite bool_decide_eq_false_2 by exact Hnu.
    reflexivity.
Qed.

End Alignment.

(** ** The run *)

(** Every step before the write leaves the file system as it is. *)
Lemma existsSync_run (path : string) (fs : FileSystem) :
  existsSync path fs = (inr (bool_decide (is_Some (files fs !! path))), fs).
Proof. reflexivity. Qed.

Lemma writeReport_error (reportPath : string) (report : Report)
    (fs fs' : FileSystem) (e : RunError) :
  writeReport reportPath report fs = (inl e, fs') -> fs' = fs.
Proof.
  unfold writeReport, mbind, io_bind, ioBind, existsSync, readFileSync,
    writeFileSync, ioRet.
  destruct (bool_decide (is_Some (files fs !! reportPath))).
  - destruct (files fs !! reportPath) as [content|].
    + destruct (String.eqb (reportContent report) content);
        [intros [= ]|].
      destruct (bool_decide (reportPath ∈ readOnly fs)); intros [= ]; auto.
    + intros [= ]; auto.
  - destruct (String.eqb (reportContent report) ""); [intros [= ]|].
    destruct (bool_decide (reportPath ∈ readOnly fs)); intros [= ]; auto.
Qed.

Lemma analyzeTraceBody_error (JSON_parse : string -> option TraceData)
    (tracePath reportPath : string) (fs fs' : FileSystem) (e : RunError) :
  analyzeTraceBody JSON_parse tracePath reportPath fs = (inl e, fs') ->
  fs' = fs.
Proof.
  unfold analyzeTraceBody, mbind, io_bind, ioBind.
  rewrite existsSync_run.
  destruct (bool_decide (is_Some (files fs !! tracePath)));
    [|intros [= ]; auto].
  unfold ioRet at 1. unfold readFileSync at 1.
  destruct (files fs !! tracePath) as [content|]; [|intros [= ]; auto].
  destruct (JSON_parse content) as [traceData|]; [|intros [= ]; auto].
  unfold ioRet at 1.
  destruct (invalidTrace traceData); [intros [= ]; auto|].
  unfold ioRet at 1. rewrite existsSync_run.
  destruct (bool_decide (is_Some (files fs !! reportPath))) eqn:Erep.
  - apply bool_decide_eq_true_1 in Erep. destruct Erep as [c Hc].
    unfold readFileSync at 1. rewrite Hc. unfold ioRet at 1.
    destruct (processTraceEvents traceData) as [tasks|];
      [|intros [= ]; auto].
    unfold ioRet at 1. apply writeReport_error.
  - unfold ioRet at 1.
    destruct (processTraceEvents traceData) as [tasks|];
      [|intros [= ]; auto].
    unfold ioRet at 1. apply writeReport_error.
Qed.

(** C9: when the parsed trace is neither an array nor an object whose
    [traceEvents] is an array, the run ends with the invalid-format error;
    and a run that ends with an error of the read-classify-merge phase
    (any error but a failed write) leaves every file, the report among
    them, as it was. *)
Theorem analyzeTrace_fails_before_write
    (JSON_parse : string -> option TraceData)
    (tracePath reportPath : string) (fs : FileSystem) :
  (forall content traceData,
     files fs !! tracePath = Some content ->
     JSON_parse content = Some traceData ->
     isArray traceData = false ->
     traceEventsIsArray traceData = false ->
     analyzeTrace JSON_parse tracePath reportPath fs
     = (Some InvalidTraceFormat, fs)) /\
  (forall e fs',
     analyzeTrace JSON_parse tracePath reportPath fs = (Some e, fs') ->
     (forall path, e <> WriteFailed path) ->
     fs' = fs).
Proof.
  split.
  - intros content traceData Hfile Hparse Harr Hev.
    unfold analyzeTrace, analyzeTraceBody, mbind, io_bind, ioBind.
    rewrite existsSync_run.
    rewrite bool_decide_eq_true_2 by (rewrite Hfile; eauto).
    unfold ioRet at 1. unfold readFileSync at 1. rewrite Hfile, Hparse.
    unfold ioRet at 1. unfold invalidTrace. rewrite Harr, Hev.
    rewrite orb_true_r. reflexivity.
  - intros e fs' Hrun _. unfold analyzeTrace in Hrun.
    destruct (analyzeTraceBody JSON_parse tracePath reportPath fs)
      as [[e0|u] fs0] eqn:E; [|discriminate].
    injection Hrun as <- <-.
    apply (analyzeTraceBody_error _ _ _ _ _ _ E).
Qed.

(** ** The examples of the specification *)

Example aggregate_evaluateScript :
  aggregate [evaluateScript] =
  [mkTask "EvaluateScript" "" 100 150 1 "devtools.timeline,v8"].
Proof. vm_compute. reflexivity. Qed.

Example first_merge_evaluateScript :
  reportContent (updateReport [] (aggregate [evaluateScript])) =
  join (String "010" "")
    [ join (String "009" "")
        [ "Task Name"; "URL"; "Category"; "Has Long Tasks";
          "Run 1 (Blocking Time)"; "Run 1 (Total Duration)";
          "Run 1 (Occurrences)" ];
      join (String "009" "")
        [ "EvaluateScript"; ""; "devtools.timeline,v8"; "Yes";
          "100.00"; "150.00"; "1" ] ].
Proof. vm_compute. reflexivity. Qed.

Example second_merge_absent :
  updateReport (updateReport [] (aggregate [evaluateScript])) (aggregate [])
  !! 1%nat =
  Some (rowOf [ "EvaluateScript"; ""; "devtools.timeline,v8"; "Yes";
                "100.00"; "150.00"; "1"; "-1"; "-1"; "-1" ]).
Proof. vm_compute. reflexivity. Qed.

Example non_qualifying_events :
  aggregate [beginEvent; idleEvent; noDuration] = [].
Proof. vm_compute. reflexivity. Qed.

Example parseCSV_reportContent :
  parseCSV (reportContent (updateReport reportAB [taskBQuiet; taskC])) =
  updateReport reportAB [taskBQuiet; taskC].
Proof. vm_compute. reflexivity. Qed.

Example toFixed2_samples :
  map toFixed2 [100; 0.125; 0x1.0147ae147ae14p+0; -0x1.0624dd2f1a9fcp-10;
                1e21; infinity; nan]%float =
  ["100.00"; "0.13"; "1.00"; "-0.00"; "1e+21"; "Infinity"; "NaN"].
Proof. vm_compute. reflexivity. Qed.

Example successful_run :
  analyzeTrace parseSample "trace.json" "report.tsv" (sampleFiles "[e]") =
  (None,
   mkFS (<["report.tsv" :=
            reportContent (updateReport [] (aggregate [evaluateScript]))]>
           (files (sampleFiles "[e]")))
        ∅).
Proof. vm_compute. reflexivity. Qed.

(** ** Instances and counterexamples *)

Lemma calculateBlockingTime_threshold_witness :
  calculateBlockingTime evaluateScript = 100%float /\
  calculateBlockingTime shortScript = 0%float /\
  (calculateBlockingTime evaluateScript <? 0)%float = false.
Proof.
  destruct (calculateBlockingTime_threshold evaluateScript 150000
              eq_refl eq_refl) as (_ & Hlong & Hsign).
  destruct (calculateBlockingTime_threshold shortScript 20000
              eq_refl eq_refl) as (Hshort & _ & _).
  split; [exact (Hlong eq_refl)|]. split; [exact (Hshort eq_refl)|].
  exact Hsign.
Defined.

Lemma isPotentialTBTTask_needs_complete_duration_witness :
  isPotentialTBTTask noDuration = false /\
  isPotentialTBTTask beginEvent = false.
Proof.
  split.
  - apply isPotentialTBTTask_needs_complete_duration. left. reflexivity.
  - apply isPotentialTBTTask_needs_complete_duration. right. right.
    discriminate.
Defined.

Lemma isPotentialTBTTask_scripting_witness :
  isPotentialTBTTaskValue scriptingComplete = JsBool true /\
  isPotentialTBTTask scriptingComplete = true.
Proof.
  apply (isPotentialTBTTask_scripting scriptingComplete "toplevel, Scripting").
  - reflexivity.
  - reflexivity.
  - reflexivity.
  - reflexivity.
  - left. reflexivity.
Defined.

(** C6 as stated fails: an event that is not complete is not a potential
    TBT task, though its category list contains "scripting" and it passes
    the main-thread check. *)
Lemma scripting_incomplete_event :
  ev_cat scriptingBegin = Some "toplevel, Scripting" /\
  categoryListHas "toplevel, Scripting" "scripting" = true /\
  truthy (mainThreadCheck scriptingBegin) = true /\
  isPotentialTBTTask scriptingBegin = false.
Proof. repeat split. Qed.





Lemma mergeRuns_unique_rows_witness :
  NoDup (map rowPair
           (dataRows (mergeRuns [[taskA; taskB]; [taskBQuiet; taskC]; []]))).
Proof.
  apply mergeRuns_unique_rows.
  intros first [= <-]. apply (bool_decide_unpack _); vm_compute; exact I.
Defined.

(** C1 as stated fails: a task list with the same task twice, merged into
    the empty report, gives two data rows with the same pair. *)
Lemma mergeRuns_repeated_task :
  map rowPair (dataRows (mergeRuns [[taskA; taskA]])) = [("a", ""); ("a", "")] /\
  ~ NoDup (map rowPair (dataRows (mergeRuns [[taskA; taskA]]))).
Proof.
  split; [reflexivity|].
  intros H. apply NoDup_cons in H. destruct H as [H _]. apply H. left.
Qed.

Lemma updateReport_next_run_witness :
  exists header' rows',
    updateReport reportAB [taskBQuiet; taskC] = header' :: rows' /\
    length header' = 10%nat /\
    Forall (fun row : Row => length row = length header') rows' /\
    rows' !! 0%nat =
    Some (rowOf ["a"; ""; "c"; "No"; "0.00"; "1.00"; "1"; "-1"; "-1"; "-1"]).
Proof.
  destruct (updateReport_next_run firstHeader (dataRows reportAB)
              [taskBQuiet; taskC] 1)
    as (header' & rows' & Heq & Hlen & Hall & Habsent).
  - reflexivity.
  - repeat constructor.
  - apply (bool_decide_unpack _); vm_compute; exact I.
  - apply (bool_decide_unpack _); vm_compute; exact I.
  - exists header', rows'. split; [exact Heq|]. split; [exact Hlen|].
    split; [exact Hall|].
    apply (Habsent 0%nat (firstRunRow taskA) eq_refl).
    apply (bool_decide_unpack _); vm_compute; exact I.
Defined.

(** C2 as stated fails, in three ways: with a header that does not have
    [4 + 3 k] cells, with a task list that has the same key twice, and with
    two data rows of different (Task Name, URL) pairs and the same key.
    In each report every data row has as many cells as the header; after
    the merge a row and the header differ in length. *)
Lemma updateReport_misaligned :
  (Forall (fun row : Row => length row = 5%nat) (dataRows shortHeaderReport) /\
   map length (updateReport shortHeaderReport [taskA]) = [8; 7]%nat) /\
  (Forall (fun row : Row => length row = 7%nat) (dataRows reportAB) /\
   map length (updateReport reportAB [taskC; taskC]) = [10; 10; 10; 13]%nat) /\
  (Forall (fun row : Row => length row = 7%nat) (dataRows pipeReport) /\
   NoDup (map rowPair (dataRows pipeReport)) /\
   map length (updateReport pipeReport []) = [10; 7; 10]%nat).
Proof.
  split; [|split].
  - split; [constructor|reflexivity].
  - split; [repeat constructor|vm_compute; reflexivity].
  - split; [repeat constructor|]. split; [|vm_compute; reflexivity].
    apply (bool_decide_unpack _); vm_compute; exact I.
Qed.


Lemma updateReport_frame_witness :
  exists row',
    updateReport reportAB [taskBQuiet] !! 2%nat = Some row' /\
    (7 <= length row')%nat /\
    row' !! 0%nat = Some (Some "b").
Proof.
  destruct (updateReport_frame firstHeader (dataRows reportAB) [taskBQuiet])
    as (_ & Hrows).
  destruct (Hrows 2%nat (firstRunRow taskB) eq_refl)
    as (row' & Hrow' & Hlen & Hcells).
  exists row'. split; [exact Hrow'|]. split; [exact Hlen|].
  destruct (Hcells 0%nat (Some "b") eq_refl) as [H|(_ & H & _)];
    [exact H|discriminate H].
Defined.

Lemma analyzeTrace_fails_before_write_witness :
  analyzeTrace parseSample "trace.json" "report.tsv" (sampleFiles "{}") =
  (Some InvalidTraceFormat, sampleFiles "{}").
Proof.
  destruct (analyzeTrace_fails_before_write parseSample "trace.json"
              "report.tsv" (sampleFiles "{}")) as (Hinvalid & _).
  apply (Hinvalid "{}" (TraceObject None)); reflexivity.
Defined.

(** * Further properties of the code *)

(** ** Event classifier: the expression as a condition *)

Lemma truthy_jsAnd (a b : JsValue) :
  truthy (jsAnd a b) = truthy a && truthy b.
Proof. unfold jsAnd. destruct (truthy a) eqn:E; [reflexivity|exact E]. Qed.

Lemma truthy_jsOr (a b : JsValue) :
  truthy (jsOr a b) = truthy a || truthy b.
Proof. unfold jsOr. destruct (truthy a) eqn:E; [exact E|reflexivity]. Qed.




(** ** Task aggregator: what does not count, order, and totals *)

Lemma fold_processEvent_qualifying (events : list TraceEvent) :
  forall m,
    fold_left processEvent (qualifying events) m
    = fold_left processEvent events m.
Proof.
  induction events as [|e events IH]; intros m; [reflexivity|].
  unfold qualifying. cbn [List.filter fold_left].
  destruct (isPotentialTBTTask e) eqn:Q.
  - cbn [fold_left]. apply IH.
  - fold (qualifying events). rewrite IH.
    assert (Hskip : processEvent m e = m)
      by (unfold processEvent; rewrite Q; reflexivity).
    rewrite Hskip. reflexivity.
Qed.

(** X2: the events that are not potential TBT tasks contribute nothing:
    the aggregator gives the same tasks, in the same order, when they are
    removed from the trace. *)
Theorem aggregate_ignores_non_qualifying (events : list TraceEvent) :
  aggregate (List.filter isPotentialTBTTask events) = aggregate events.
Proof.
  unfold aggregate. fold (qualifying events).
  rewrite fold_processEvent_qualifying. reflexivity.
Qed.

Lemma filter_filter_and {A} (P Q : A -> bool) (l : list A) :
  List.filter P (List.filter Q l) = List.filter (fun x => Q x && P x) l.
Proof.
  induction l as [|x l IH]; [reflexivity|].
  cbn [List.filter]. destruct (Q x); cbn [List.filter andb].
  - destruct (P x); rewrite IH; reflexivity.
  - exact IH.
Qed.

Lemma firstOccurrences_filter (P : string -> bool) (keys : list string) :
  firstOccurrences (List.filter P keys)
  = List.filter P (firstOccurrences keys).
Proof.
  induction keys as [|k keys IH]; [reflexivity|].
  cbn [List.filter firstOccurrences]. destruct (P k) eqn:E.
  - cbn [firstOccurrences]. rewrite IH. f_equal.
    rewrite !filter_filter_and. apply List.filter_ext.
    intros x. apply andb_comm.
  - rewrite IH, filter_filter_and. apply List.filter_ext.
    intros x. destruct (String.eqb x k) eqn:Ex; [|reflexivity].
    apply String.eqb_eq in Ex. subst x. rewrite E. reflexivity.
Qed.

Lemma processEvent_qualifying (m : JsMap Task) (e : TraceEvent) :
  isPotentialTBTTask e = true ->
  exists v,
    processEvent m e = mapSet m (uniqueKeyOf e) v /\
    occurrences v =
    (match mapGet m (uniqueKeyOf e) with
     | Some t => occurrences t
     | None => 0
     end + 1)%N.
Proof.
  intros Q. unfold processEvent. rewrite Q. fold (uniqueKeyOf e).
  eexists. split; [reflexivity|].
  cbn [occurrences]. destruct (mapGet m (uniqueKeyOf e)); reflexivity.
Qed.

Lemma fold_processEvent_keys (events : list TraceEvent) :
  forall m,
    map fst (fold_left processEvent events m) =
    map fst m ++
    firstOccurrences
      (List.filter (fun k => negb (bool_decide (k ∈ map fst m)))
                   (map uniqueKeyOf (qualifying events))).
Proof.
  induction events as [|e events IH]; intros m.
  - cbn. rewrite app_nil_r. reflexivity.
  - cbn [fold_left]. unfold qualifying. cbn [List.filter].
    fold (qualifying events).
    destruct (isPotentialTBTTask e) eqn:Q.
    + destruct (processEvent_qualifying m e Q) as (v & -> & _).
      rewrite IH. cbn [map List.filter].
      destruct (decide (uniqueKeyOf e ∈ map fst m)) as [Hin|Hout].
      * rewrite mapSet_present by exact Hin.
        rewrite (bool_decide_eq_true_2 _ Hin). reflexivity.
      * rewrite mapSet_absent by exact Hout.
        rewrite (bool_decide_eq_false_2 _ Hout). cbn [negb firstOccurrences].
        rewrite map_app. cbn [map fst]. rewrite <- app_assoc. cbn [app].
        do 2 f_equal.
        rewrite <- firstOccurrences_filter, filter_filter_and. f_equal.
        apply List.filter_ext. intros x.
        destruct (String.eqb x (uniqueKeyOf e)) eqn:Ex.
        -- apply String.eqb_eq in Ex. subst x.
           rewrite bool_decide_eq_true_2
             by (apply elem_of_app; right; left).
           rewrite andb_false_r. reflexivity.
        -- apply String.eqb_neq in Ex. rewrite andb_true_r. f_equal.
           apply bool_decide_ext. rewrite elem_of_app, list_elem_of_singleton.
           tauto.
    + assert (Hskip : processEvent m e = m)
        by (unfold processEvent; rewrite Q; reflexivity).
      rewrite Hskip. apply IH.
Qed.

(** X3: the tasks come in the order in which their keys first occur among
    the qualifying events, one task per key. *)
Theorem aggregate_first_seen_order (events : list TraceEvent) :
  map taskKey (aggregate events) =
  firstOccurrences (map uniqueKeyOf (List.filter isPotentialTBTTask events)).
Proof.
  unfold aggregate.
  rewrite (aggregated_keys events _ (fold_processEvent_aggregated events)).
  rewrite fold_processEvent_keys. cbn [map app]. f_equal.
  fold (qualifying events).
  rewrite <- (List.filter_ext (fun _ => true)).
  - induction (map uniqueKeyOf (qualifying events)) as [|k l IH];
      [reflexivity|].
    cbn [List.filter]. rewrite IH. reflexivity.
  - intros k. rewrite bool_decide_eq_false_2 by apply not_elem_of_nil.
    reflexivity.
Qed.

Lemma totalOccurrences_mapSet (m : JsMap Task) (k : string) (v : Task) :
  (totalOccurrences (map snd (mapSet m k v)) +
   match mapGet m k with Some t => occurrences t | None => 0 end
   = totalOccurrences (map snd m) + occurrences v)%N.
Proof.
  unfold totalOccurrences.
  induction m as [|[k' t'] m IH]; cbn [mapSet mapGet].
  - cbn. lia.
  - destruct (String.eqb k' k).
    + cbn. lia.
    + cbn [map snd fold_right] in *. lia.
Qed.

Lemma fold_processEvent_occurrences (events : list TraceEvent) :
  forall m,
    totalOccurrences (map snd (fold_left processEvent events m)) =
    (totalOccurrences (map snd m) + N.of_nat (length (qualifying events)))%N.
Proof.
  induction events as [|e events IH]; intros m.
  - cbn [fold_left qualifying List.filter length]. lia.
  - cbn [fold_left]. rewrite IH. unfold qualifying. cbn [List.filter].
    fold (qualifying events).
    destruct (isPotentialTBTTask e) eqn:Q.
    + destruct (processEvent_qualifying m e Q) as (v & -> & Hv).
      pose proof (totalOccurrences_mapSet m (uniqueKeyOf e) v) as H.
      cbn [length]. lia.
    + assert (Hskip : processEvent m e = m)
        by (unfold processEvent; rewrite Q; reflexivity).
      rewrite Hskip. reflexivity.
Qed.

(** X4: every qualifying event is counted in exactly one task: the
    occurrences of the tasks add up to the number of qualifying events. *)
Theorem aggregate_counts_every_event (events : list TraceEvent) :
  totalOccurrences (aggregate events) =
  N.of_nat (length (List.filter isPotentialTBTTask events)).
Proof.
  unfold aggregate. rewrite fold_processEvent_occurrences. reflexivity.
Qed.

(** ** Report merger: the merged report, row by row *)

Section Merged.

Local Open Scope nat_scope.

Lemma mapGet_absent {V} (m : JsMap V) (k : string) :
  k ∉ map fst m -> mapGet m k = None.
Proof.
  induction m as [|[k' v] m IH]; cbn [map fst mapGet]; [reflexivity|].
  intros H. apply not_elem_of_cons in H. destruct H as [Hne H].
  destruct (String.eqb k' k) eqn:E.
  - apply String.eqb_eq in E. congruence.
  - auto.
Qed.

Lemma entriesOf_ext (rs rs' : list Row) :
  map rowKey rs = map rowKey rs' ->
  forall s, entriesOf s rs = entriesOf s rs'.
Proof.
  revert rs'. induction rs as [|r rs IH]; intros [|r' rs'] H s;
    try discriminate; [reflexivity|].
  cbn [map] in H. injection H as Hk Hrest.
  cbn [entriesOf]. rewrite Hk, (IH rs' Hrest). reflexivity.
Qed.

Lemma mapGet_entriesOf_lookup (rs : list Row) (s j : nat) (row : Row) :
  NoDup (map rowKey rs) -> rs !! j = Some row ->
  mapGet (entriesOf s rs) (rowKey row) = Some (s + j).
Proof.
  intros Hnd Hj.
  destruct (mapGet (entriesOf s rs) (rowKey row)) as [i|] eqn:G.
  - destruct (mapGet_entriesOf_Some rs _ s i G) as (j' & row' & -> & Hj' & Hk).
    rewrite (NoDup_keys_index rs j' j row' row Hnd Hj' Hj Hk). reflexivity.
  - exfalso. apply (mapGet_entriesOf_None rs _ s G).
    apply list_elem_of_fmap_2, list_elem_of_lookup. eauto.
Qed.

Lemma taskWithKey_app (l1 l2 : list Task) (k : string) :
  taskWithKey (l1 ++ l2) k =
  match taskWithKey l1 k with
  | Some t => Some t
  | None => taskWithKey l2 k
  end.
Proof.
  unfold taskWithKey. induction l1 as [|t l1 IH]; [reflexivity|].
  cbn [app List.find]. destruct (String.eqb (taskKey t) k); auto.
Qed.

Lemma taskWithKey_None (l : list Task) (k : string) :
  taskWithKey l k = None <-> k ∉ map taskKey l.
Proof.
  unfold taskWithKey. induction l as [|t l IH]; cbn [List.find map].
  - split; [intros _; apply not_elem_of_nil|reflexivity].
  - rewrite not_elem_of_cons. destruct (String.eqb (taskKey t) k) eqn:E.
    + apply String.eqb_eq in E. split; [discriminate|].
      intros [Hne _]. congruence.
    + apply String.eqb_neq in E. rewrite IH. split; [|tauto].
      intros H. split; [congruence|exact H].
Qed.

Lemma taskWithKey_Some (l : list Task) (k : string) (t : Task) :
  taskWithKey l k = Some t -> t ∈ l /\ taskKey t = k.
Proof.
  unfold taskWithKey. intros H. apply List.find_some in H.
  destruct H as [Hin Hk]. apply String.eqb_eq in Hk.
  split; [apply list_elem_of_In, Hin|exact Hk].
Qed.

(** What a task does to its row. *)
Lemma taskRow_identity (task : Task) (row : Row) :
  2 <= length row ->
  2 <= length ((if (0 <? blockingTime task)%float
                then setCell 3 "Yes" row else row) ++ metricCells task) /\
  rowKey ((if (0 <? blockingTime task)%float
           then setCell 3 "Yes" row else row) ++ metricCells task)
  = rowKey row.
Proof.
  intros H.
  assert (H' : 2 <= length (if (0 <? blockingTime task)%float
                            then setCell 3 "Yes" row else row)).
  { destruct (0 <? blockingTime task)%float; [|exact H].
    pose proof (setCell_length 3 "Yes" row). lia. }
  split; [rewrite length_app; lia|].
  rewrite rowKey_push by exact H'.
  destruct (0 <? blockingTime task)%float; [|reflexivity].
  apply rowKey_setCell3, H.
Qed.

Lemma partialRow_key (done : list Task) (row : Row) :
  2 <= length row -> rowKey (partialRow done row) = rowKey row.
Proof.
  intros H. unfold partialRow.
  destruct (taskWithKey done (rowKey row)); [|reflexivity].
  apply taskRow_identity, H.
Qed.

Lemma addedRow_key (runCount : Z) (task : Task) :
  rowKey (addedRow runCount task) = taskKey task.
Proof.
  unfold addedRow. rewrite rowKey_push; [reflexivity|].
  apply newRow_identity.
Qed.

Lemma rowsAfter_keys (runCount : Z) (rows : list Row) (done : list Task) :
  Forall (fun row : Row => 2 <= length row) rows ->
  map rowKey (rowsAfter runCount rows done) =
  map rowKey rows ++ map taskKey (unseenTasks rows done).
Proof.
  intros Hall. unfold rowsAfter. rewrite map_app, !map_map.
  assert (Hrows : map (fun row => rowKey (partialRow done row)) rows
                  = map rowKey rows).
  { apply map_ext_Forall. eapply Forall_impl; [exact Hall|].
    intros row Hrow. apply partialRow_key, Hrow. }
  rewrite Hrows. f_equal.
  all: apply map_ext; intros t; apply addedRow_key.
Qed.

Lemma unseenTasks_elem (rows : list Row) (tasks : list Task) (t : Task) :
  t ∈ unseenTasks rows tasks <->
  t ∈ tasks /\ taskKey t ∉ map rowKey rows.
Proof.
  unfold unseenTasks. rewrite list_elem_of_In, List.filter_In,
    <- list_elem_of_In, negb_true_iff, bool_decide_eq_false.
  reflexivity.
Qed.

Lemma rowsAfter_NoDup (runCount : Z) (rows : list Row) (done : list Task) :
  Forall (fun row : Row => 2 <= length row) rows ->
  NoDup (map rowKey rows) -> NoDup (map taskKey done) ->
  NoDup (map rowKey (rowsAfter runCount rows done)).
Proof.
  intros Hall Hnd Hnt. rewrite rowsAfter_keys by exact Hall.
  apply NoDup_app. split; [exact Hnd|]. split.
  - intros k Hk Hk'. apply list_elem_of_fmap in Hk'.
    destruct Hk' as (t & -> & Ht). apply unseenTasks_elem in Ht.
    destruct Ht as [_ Ht]. contradiction.
  - unfold unseenTasks. clear Hall Hnd.
    induction done as [|t done IH]; [constructor|].
    cbn [map] in Hnt. apply NoDup_cons in Hnt. destruct Hnt as [Hhead Hnt].
    cbn [List.filter].
    destruct (negb (bool_decide (taskKey t ∈ map rowKey rows)));
      [|apply IH, Hnt].
    cbn [map]. apply NoDup_cons. split; [|apply IH, Hnt].
    intros Hin. apply Hhead. apply list_elem_of_fmap in Hin.
    destruct Hin as (t' & -> & Ht'). apply list_elem_of_fmap_2.
    apply list_elem_of_In in Ht'. apply List.filter_In in Ht'.
    apply list_elem_of_In, Ht'.
Qed.

Lemma unseenTasks_snoc (rows : list Row) (done : list Task) (t : Task) :
  unseenTasks rows (done ++ [t]) =
  unseenTasks rows done ++
  (if bool_decide (taskKey t ∈ map rowKey rows) then [] else [t]).
Proof.
  unfold unseenTasks. rewrite List.filter_app. cbn [List.filter].
  destruct (bool_decide (taskKey t ∈ map rowKey rows)); reflexivity.
Qed.

Lemma partialRow_snoc_other (done : list Task) (t : Task) (row : Row) :
  rowKey row <> taskKey t ->
  partialRow (done ++ [t]) row = partialRow done row.
Proof.
  intros Hne. unfold partialRow. rewrite taskWithKey_app.
  destruct (taskWithKey done (rowKey row)); [reflexivity|].
  unfold taskWithKey. cbn [List.find].
  assert (E : String.eqb (taskKey t) (rowKey row) = false)
    by (apply String.eqb_neq; congruence).
  rewrite E. reflexivity.
Qed.

Lemma partialRow_snoc_same (done : list Task) (t : Task) (row : Row) :
  rowKey row = taskKey t -> taskKey t ∉ map taskKey done ->
  partialRow done row = row /\
  partialRow (done ++ [t]) row =
  (if (0 <? blockingTime t)%float then setCell 3 "Yes" row else row)
  ++ metricCells t.
Proof.
  intros Hk Hfresh. unfold partialRow. rewrite taskWithKey_app, Hk.
  apply taskWithKey_None in Hfresh. rewrite Hfresh.
  unfold taskWithKey at 1. cbn [List.find]. rewrite String.eqb_refl.
  split; reflexivity.
Qed.

(** One more task of a list without repeated keys. *)
Lemma mergeTask_mergedUpTo (runCount : Z) (header' : Row) (rows : list Row)
    (done : list Task) (t : Task) (st : MergeState) :
  Forall (fun row : Row => 2 <= length row) rows ->
  NoDup (map rowKey rows) ->
  NoDup (map taskKey (done ++ [t])) ->
  mergedUpTo runCount header' rows done st ->
  mergedUpTo runCount header' rows (done ++ [t]) (mergeTask runCount st t).
Proof.
  intros Hall Hnd Hnt (Hrep & Hmap & Hup).
  assert (Hnt' : NoDup (map taskKey done) /\ taskKey t ∉ map taskKey done).
  { rewrite map_app in Hnt. apply NoDup_app in Hnt.
    destruct Hnt as (Hd & Hdisj & _). split; [exact Hd|].
    intros Hin. apply (Hdisj _ Hin). left. }
  destruct Hnt' as [Hntd Hfresh].
  pose proof (rowsAfter_NoDup runCount rows done Hall Hnd Hntd) as Hndr.
  pose proof (rowsAfter_keys runCount rows done Hall) as Hkeys.
  pose proof (rowsAfter_keys runCount rows (done ++ [t]) Hall) as Hkeys'.
  assert (Hupd : forall k, k ∈ ({[ taskKey t ]} ∪ st_updated st : gset string)
                           <-> k ∈ map taskKey (done ++ [t])).
  { intros k. rewrite updated_add, Hup, map_app, elem_of_app.
    cbn [map]. rewrite list_elem_of_singleton. tauto. }
  unfold mergeTask. rewrite Hmap, Hrep.
  destruct (decide (taskKey t ∈ map rowKey rows)) as [Hin|Hout].
  - (* the task has a row *)
    apply list_elem_of_fmap in Hin. destruct Hin as (row & Hk & Hrow).
    apply list_elem_of_lookup in Hrow. destruct Hrow as [j Hj].
    destruct (partialRow_snoc_same done t row (eq_sym Hk) Hfresh)
      as [Hsame Hnew].
    assert (Hj' : rowsAfter runCount rows done !! j = Some row).
    { unfold rowsAfter. apply lookup_app_l_Some.
      change (map (partialRow done) rows) with (partialRow done <$> rows).
      rewrite list_lookup_fmap, Hj. cbn. rewrite Hsame. reflexivity. }
    pose proof (mapGet_entriesOf_lookup (rowsAfter runCount rows done) 1 j
                  row Hndr Hj') as Hget.
    rewrite <- Hk in Hget. rewrite Hget.
    set (g := fun r : Row =>
                (if (0 <? blockingTime t)%float
                 then setCell 3 "Yes" r else r) ++ metricCells t).
    assert (Hrows : alter g j (rowsAfter runCount rows done)
                    = rowsAfter runCount rows (done ++ [t])).
    { unfold rowsAfter. rewrite unseenTasks_snoc.
      rewrite bool_decide_eq_true_2
        by (rewrite Hk; apply list_elem_of_fmap_2, list_elem_of_lookup; eauto).
      rewrite app_nil_r.
      rewrite alter_app_l
        by (rewrite length_map; apply (lookup_lt_Some _ _ _ Hj)).
      f_equal. apply list_eq. intros i.
      change (map ?f rows) with (f <$> rows).
      destruct (decide (j = i)) as [<-|Hne].
      - rewrite list_lookup_alter_eq, !list_lookup_fmap, Hj. cbn.
        rewrite Hsame, Hnew. reflexivity.
      - rewrite list_lookup_alter_ne by exact Hne.
        rewrite !list_lookup_fmap.
        destruct (rows !! i) as [r|] eqn:Hi; [|reflexivity]. cbn.
        rewrite partialRow_snoc_other; [reflexivity|].
        rewrite Hk. intros E. apply Hne.
        apply (NoDup_keys_index rows j i row r Hnd Hj Hi). congruence. }
    cbn [st_report st_taskMap st_updated]. split; [|split; [|exact Hupd]].
    + rewrite <- Hrows. subst g.
      destruct (0 <? blockingTime t)%float eqn:Hb;
        cbn [st_report alter list_alter Nat.add]; f_equal.
      all: change (list_alter ?f j ?l) with (alter f j l).
      all: rewrite ?list_alter_alter_eq; reflexivity.
    + apply entriesOf_ext. rewrite Hkeys, Hkeys', unseenTasks_snoc.
      rewrite bool_decide_eq_true_2
        by (rewrite Hk; apply list_elem_of_fmap_2, list_elem_of_lookup; eauto).
      rewrite app_nil_r. reflexivity.
  - (* the task has no row *)
    assert (Hnone : mapGet (entriesOf 1 (rowsAfter runCount rows done))
                           (taskKey t) = None).
    { apply mapGet_absent. rewrite entriesOf_fst, Hkeys.
      intros Hin. apply elem_of_app in Hin. destruct Hin as [Hin|Hin];
        [contradiction|].
      apply list_elem_of_fmap in Hin. destruct Hin as (t' & Hk' & Ht').
      apply unseenTasks_elem in Ht'. destruct Ht' as [Ht' _].
      apply Hfresh. rewrite Hk'. apply list_elem_of_fmap_2, Ht'. }
    rewrite Hnone.
    assert (Hrows : rowsAfter runCount rows (done ++ [t])
                    = rowsAfter runCount rows done ++ [addedRow runCount t]).
    { unfold rowsAfter. rewrite unseenTasks_snoc.
      rewrite (bool_decide_eq_false_2 _ Hout).
      rewrite map_app, app_assoc. cbn [map]. f_equal. f_equal.
      apply map_ext_Forall. apply Forall_forall. intros r Hr.
      apply partialRow_snoc_other. intros E. apply Hout. rewrite <- E.
      apply list_elem_of_fmap_2, Hr. }
    cbn [st_report st_taskMap st_updated]. split; [|split; [|exact Hupd]].
    + rewrite Hrows.
      replace (length (header' :: rowsAfter runCount rows done))
        with (length (header' :: rowsAfter runCount rows done) + 0) by lia.
      rewrite alter_app_r. reflexivity.
    + rewrite Hrows, entriesOf_app, addedRow_key.
      rewrite mapSet_absent; [reflexivity|].
      apply mapGet_None_fst, Hnone.
Qed.

Lemma mergeTasks_mergedUpTo (runCount : Z) (header' : Row) (rows : list Row)
    (tasks : list Task) :
  Forall (fun row : Row => 2 <= length row) rows ->
  NoDup (map rowKey rows) ->
  NoDup (map taskKey tasks) ->
  mergedUpTo runCount header' rows tasks
    (fold_left (mergeTask runCount) tasks
       (mkState (header' :: rows) (indexRows [] 1 rows) ∅)).
Proof.
  intros Hall Hnd. induction tasks as [|t tasks IH] using rev_ind; intros Hnt.
  - cbn [fold_left]. unfold mergedUpTo, rowsAfter.
    cbn [st_report st_taskMap st_updated unseenTasks List.filter map].
    assert (Hid : map (partialRow []) rows = rows).
    { rewrite <- (map_id rows) at 2. apply map_ext. reflexivity. }
    rewrite Hid, app_nil_r. split; [reflexivity|]. split.
    + apply indexRows_entries. exact Hnd.
    + intros k. rewrite elem_of_nil. split; [|tauto].
      apply not_elem_of_empty.
  - rewrite fold_left_app. cbn [fold_left].
    apply mergeTask_mergedUpTo; auto.
    apply IH. rewrite map_app in Hnt. apply NoDup_app in Hnt. apply Hnt.
Qed.

Lemma fillRow_rowsAfter (runCount : Z) (rows : list Row) (tasks : list Task)
    (updated : gset string) :
  Forall (fun row : Row => 2 <= length row) rows ->
  (forall k, k ∈ updated <-> k ∈ map taskKey tasks) ->
  map (fillRow updated) (rowsAfter runCount rows tasks) =
  map (mergedRow tasks) rows ++
  map (addedRow runCount) (unseenTasks rows tasks).
Proof.
  intros Hall Hup. unfold rowsAfter. rewrite map_app, !map_map. f_equal.
  - apply map_ext_Forall. eapply Forall_impl; [exact Hall|].
    intros row Hrow. cbv beta. unfold fillRow.
    rewrite (partialRow_key tasks row Hrow).
    unfold partialRow, mergedRow.
    destruct (taskWithKey tasks (rowKey row)) as [t|] eqn:E.
    + destruct (taskWithKey_Some _ _ _ E) as [Hin Hk].
      rewrite bool_decide_eq_true_2; [reflexivity|].
      apply Hup. rewrite <- Hk. apply list_elem_of_fmap_2, Hin.
    + apply taskWithKey_None in E.
      rewrite bool_decide_eq_false_2; [reflexivity|].
      rewrite Hup. exact E.
  - apply map_ext_Forall. apply Forall_forall. intros t Ht.
    unfold fillRow. rewrite addedRow_key.
    rewrite bool_decide_eq_true_2; [reflexivity|].
    apply Hup. apply list_elem_of_fmap_2.
    apply unseenTasks_elem in Ht. apply Ht.
Qed.

Lemma updateReport_closed (header : Row) (rows : list Row)
    (tasks : list Task) :
  Forall (fun row : Row => 2 <= length row) rows ->
  NoDup (map rowKey rows) ->
  NoDup (map taskKey tasks) ->
  let runCount := ((Z.of_nat (length header) - 4) / 3)%Z in
  updateReport (header :: rows) tasks =
  (header ++ runLabels (runCount + 1)%Z)
  :: map (mergedRow tasks) rows
  ++ map (addedRow runCount) (unseenTasks rows tasks).
Proof.
  intros Hall Hnd Hnt runCount. unfold updateReport. fold runCount.
  destruct (mergeTasks_mergedUpTo runCount
              (header ++ runLabels (runCount + 1)%Z) rows tasks Hall Hnd Hnt)
    as (Hrep & Hmap & Hup).
  rewrite Hrep, Hmap.
  pose proof (fillAbsent_entries
                (st_updated
                   (fold_left (mergeTask runCount) tasks
                      (mkState ((header ++ runLabels (runCount + 1)%Z) :: rows)
                               (indexRows [] 1 rows) ∅)))
                (rowsAfter runCount rows tasks)
                [header ++ runLabels (runCount + 1)%Z]) as Hfill.
  cbn [length app] in Hfill. rewrite Hfill. f_equal.
  apply fillRow_rowsAfter; assumption.
Qed.

(** X5: the merge of a further run, for data rows that have their two
    identity cells and keys of their own, and tasks with keys of their own.
    The header gets the three labels of run [floor((n - 4) / 3) + 1],
    where [n] is its length.  The data rows stay in place: the row of a
    task gets the flag "Yes" if the task has blocking time, and the three
    metric cells of the task; a row of no task gets "-1", "-1", "-1".
    The tasks that have no row follow, in the order of the list, each with
    its four fixed cells, three cells "-1" per earlier run, and its
    metric cells. *)
Theorem updateReport_row_by_row (header : Row) (rows : list Row)
    (tasks : list Task) :
  Forall (fun row : Row => 2 <= length row) rows ->
  NoDup (map rowKey rows) ->
  NoDup (map taskKey tasks) ->
  let runCount := ((Z.of_nat (length header) - 4) / 3)%Z in
  updateReport (header :: rows) tasks =
  (header ++ runLabels (runCount + 1)%Z)
  :: map (fun row =>
            match List.find (fun t => String.eqb (taskKey t) (rowKey row))
                            tasks with
            | Some task =>
                (if (0 <? blockingTime task)%float
                 then setCell 3 "Yes" row else row)
                ++ metricCells task
            | None => row ++ [Some "-1"; Some "-1"; Some "-1"]
            end) rows
  ++ map (fun task =>
            fixedCells task
            ++ concat (replicate (Z.to_nat runCount)
                                 [Some "-1"; Some "-1"; Some "-1"])
            ++ metricCells task)
         (List.filter
            (fun t => negb (bool_decide (taskKey t ∈ map rowKey rows)))
            tasks).
Proof.
  intros Hall Hnd Hnt runCount.
  rewrite (updateReport_closed header rows tasks Hall Hnd Hnt).
  fold runCount.
  assert (Hadd : forall l : list Task,
             map (addedRow runCount) l =
             map (fun task =>
                    fixedCells task
                    ++ concat (replicate (Z.to_nat runCount)
                                         [Some "-1"; Some "-1"; Some "-1"])
                    ++ metricCells task) l).
  { intros l. apply map_ext. intros t. unfold addedRow, newRow.
    rewrite <- app_assoc. reflexivity. }
  rewrite Hadd. reflexivity.
Qed.

Lemma updateReport_row_by_row_witness :
  updateReport reportAB [taskBQuiet; taskC] =
  [ firstHeader ++ runLabels 2;
    rowOf ["a"; ""; "c"; "No"; "0.00"; "1.00"; "1"; "-1"; "-1"; "-1"];
    rowOf ["b"; "http://x/"; "v8"; "Yes"; "12.50"; "62.50"; "3";
           "0.00"; "30.00"; "1"];
    rowOf ["c"; ""; "blink"; "No"; "-1"; "-1"; "-1"; "0.00"; "7.00"; "2"] ].
Proof.
  change reportAB with (firstHeader :: dataRows reportAB).
  etransitivity.
  - apply (updateReport_row_by_row firstHeader (dataRows reportAB)
             [taskBQuiet; taskC]);
      apply (bool_decide_unpack _); vm_compute; exact I.
  - vm_compute. reflexivity.
Defined.

(** ** Report merger: the reports of successive runs *)

Lemma runCount_of_length (n : nat) :
  ((Z.of_nat (4 + 3 * n) - 4) / 3)%Z = Z.of_nat n.
Proof.
  replace (Z.of_nat (4 + 3 * n) - 4)%Z with (Z.of_nat n * 3)%Z by lia.
  apply Z.div_mul. lia.
Qed.

Lemma length_mergedRow (n : nat) (tasks : list Task) (row : Row) :
  length row = 4 + 3 * n ->
  length (mergedRow tasks row) = 4 + 3 * S n.
Proof.
  intros Hl. unfold mergedRow.
  destruct (taskWithKey tasks (rowKey row)) as [task|].
  - rewrite length_app. cbn [metricCells length].
    destruct (0 <? blockingTime task)%float.
    + rewrite length_setCell_in by lia. lia.
    + lia.
  - rewrite length_app. cbn [absentCells length]. lia.
Qed.

Lemma length_addedRow (n : nat) (task : Task) :
  length (addedRow (Z.of_nat n) task) = 4 + 3 * S n.
Proof.
  unfold addedRow. rewrite length_app, length_newRow.
  cbn [metricCells length]. lia.
Qed.

Lemma mergedRow_key (tasks : list Task) (row : Row) :
  2 <= length row -> rowKey (mergedRow tasks row) = rowKey row.
Proof.
  intros Hl. unfold mergedRow.
  destruct (taskWithKey tasks (rowKey row)) as [task|].
  - apply taskRow_identity, Hl.
  - apply rowKey_push, Hl.
Qed.

Lemma at_least_two (n : nat) (rows : list Row) :
  Forall (fun row : Row => length row = 4 + 3 * n) rows ->
  Forall (fun row : Row => 2 <= length row) rows.
Proof.
  intros H. apply (Forall_impl _ _ _ H). intros row ->. lia.
Qed.

Lemma updateReport_alignedReport (n : nat) (report : Report)
    (tasks : list Task) :
  alignedReport n report ->
  NoDup (map taskKey tasks) ->
  alignedReport (S n) (updateReport report tasks).
Proof.
  intros (header & rows & -> & Hh & Hrows & Hnd) Hnt.
  pose proof (at_least_two n rows Hrows) as Hall.
  rewrite (updateReport_closed header rows tasks Hall Hnd Hnt).
  rewrite Hh, runCount_of_length.
  eexists _, _. split; [reflexivity|]. split; [|split].
  - rewrite length_app, Hh. cbn [runLabels length]. lia.
  - apply Forall_app. split; apply Forall_forall; intros r Hr;
      apply list_elem_of_fmap in Hr; destruct Hr as (x & -> & Hx).
    + apply length_mergedRow.
      rewrite Forall_forall in Hrows. apply Hrows, Hx.
    + apply length_addedRow.
  - pose proof (rowsAfter_NoDup (Z.of_nat n) rows tasks Hall Hnd Hnt) as H.
    rewrite (rowsAfter_keys _ _ _ Hall) in H.
    rewrite map_app, !map_map.
    rewrite (map_ext_in (fun x => rowKey (mergedRow tasks x)) rowKey).
    + rewrite (map_ext (fun x => rowKey (addedRow (Z.of_nat n) x)) taskKey).
      * exact H.
      * intros t. apply addedRow_key.
    + intros r Hr. apply mergedRow_key.
      rewrite Forall_forall in Hall. apply Hall.
      apply list_elem_of_In, Hr.
Qed.

Lemma firstRun_alignedReport (tasks : list Task) :
  NoDup (map taskKey tasks) ->
  alignedReport 1 (updateReport [] tasks).
Proof.
  intros Hnt. exists firstHeader, (map firstRunRow tasks).
  split; [reflexivity|]. split; [reflexivity|]. split.
  - apply Forall_forall. intros r Hr.
    apply list_elem_of_fmap in Hr. destruct Hr as (t & -> & _). reflexivity.
  - rewrite map_map. exact Hnt.
Qed.

Lemma fold_updateReport_alignedReport (later : list (list Task)) :
  forall (n : nat) (report : Report),
    alignedReport n report ->
    Forall (fun tasks => NoDup (map taskKey tasks)) later ->
    alignedReport (n + length later) (fold_left updateReport later report).
Proof.
  induction later as [|tasks later IH]; intros n report Hal Hnd.
  - cbn. rewrite Nat.add_0_r. exact Hal.
  - apply Forall_cons in Hnd. destruct Hnd as [Hnt Hnd].
    cbn [fold_left length].
    replace (n + S (length later)) with (S n + length later) by lia.
    apply IH; [|exact Hnd].
    apply updateReport_alignedReport; assumption.
Qed.

Lemma mergeRuns_alignedReport (first : list Task) (later : list (list Task)) :
  Forall (fun tasks => NoDup (map taskKey tasks)) (first :: later) ->
  alignedReport (length (first :: later)) (mergeRuns (first :: later)).
Proof.
  intros Hnd. apply Forall_cons in Hnd. destruct Hnd as [Hnt Hnd].
  unfold mergeRuns. cbn [fold_left length].
  change (S (length later)) with (1 + length later).
  apply fold_updateReport_alignedReport; [|exact Hnd].
  apply firstRun_alignedReport, Hnt.
Qed.

(** X6: the report of [n >= 1] successive runs, each of a task list in
    which no two tasks have the same key [name + "|" + url], is a table: its
    header and every data row have [4 + 3 n] cells, and no two data rows
    have the same key. *)
Theorem mergeRuns_is_a_table (runs : list (list Task)) :
  runs <> [] ->
  Forall (fun tasks => NoDup (map taskKey tasks)) runs ->
  exists header rows,
    mergeRuns runs = header :: rows /\
    length header = 4 + 3 * length runs /\
    Forall (fun row : Row => length row = 4 + 3 * length runs) rows /\
    NoDup (map rowKey rows).
Proof.
  intros Hne Hnd. destruct runs as [|first later]; [congruence|].
  exact (mergeRuns_alignedReport first later Hnd).
Qed.

Lemma mergeRuns_is_a_table_witness :
  exists header rows,
    mergeRuns [[taskA; taskB]; [taskBQuiet; taskC]; []] = header :: rows /\
    length header = 13 /\
    Forall (fun row : Row => length row = 13) rows /\
    NoDup (map rowKey rows).
Proof.
  apply (mergeRuns_is_a_table [[taskA; taskB]; [taskBQuiet; taskC]; []]).
  - discriminate.
  - apply (bool_decide_unpack _); vm_compute; exact I.
Defined.

(** X7: the report the tool builds from the traces of [n >= 1] successive
    runs, whatever the events of the traces, is a table of [4 + 3 n]
    columns with one data row per key. *)
Theorem mergeRuns_of_traces_is_a_table (traces : list (list TraceEvent)) :
  traces <> [] ->
  exists header rows,
    mergeRuns (map aggregate traces) = header :: rows /\
    length header = 4 + 3 * length traces /\
    Forall (fun row : Row => length row = 4 + 3 * length traces) rows /\
    NoDup (map rowKey rows).
Proof.
  intros Hne. destruct traces as [|events later]; [congruence|].
  rewrite <- (length_map aggregate).
  apply (mergeRuns_alignedReport (aggregate events) (map aggregate later)).
  change (aggregate events :: map aggregate later)
    with (map aggregate (events :: later)).
  apply Forall_forall. intros tasks Hin.
  apply list_elem_of_fmap in Hin. destruct Hin as (evs & -> & _).
  apply aggregate_by_key.
Qed.

Lemma mergeRuns_of_traces_is_a_table_witness :
  exists header rows,
    mergeRuns (map aggregate [[evaluateScript; idleEvent]; [pipeInName]])
    = header :: rows /\
    length header = 10 /\
    Forall (fun row : Row => length row = 10) rows /\
    NoDup (map rowKey rows).
Proof.
  apply (mergeRuns_of_traces_is_a_table
           [[evaluateScript; idleEvent]; [pipeInName]]).
  discriminate.
Defined.

End Merged.

(** ** The text of a report: [parseCSV] and the content [writeReport] writes *)

Section ReportText.

Local Open Scope nat_scope.

Lemma append_cons (c : ascii) (s t : string) :
  String c s +:+ t = String c (s +:+ t).
Proof. reflexivity. Qed.

Lemma append_nil_r (s : string) : s +:+ "" = s.
Proof.
  induction s as [|c s IH]; [reflexivity|].
  rewrite append_cons, IH. reflexivity.
Qed.

Lemma split_not_nil (sep : ascii) (s : string) : split sep s <> [].
Proof.
  destruct s as [|c s]; cbn [split]; [discriminate|].
  destruct (Ascii.eqb c sep); [discriminate|].
  destruct (split sep s); discriminate.
Qed.

Lemma join_cons (sep x : string) (l : list string) :
  l <> [] -> join sep (x :: l) = x +:+ sep +:+ join sep l.
Proof. destruct l; [congruence|reflexivity]. Qed.

Lemma join_split (sep : ascii) (s : string) :
  join (String sep "") (split sep s) = s.
Proof.
  induction s as [|c s IH]; [reflexivity|].
  cbn [split]. pose proof (split_not_nil sep s) as Hne.
  destruct (Ascii.eqb c sep) eqn:E.
  - apply Ascii.eqb_eq in E. subst c.
    rewrite join_cons by exact Hne. rewrite IH. reflexivity.
  - destruct (split sep s) as [|h t]; [congruence|].
    destruct t as [|h' t].
    + cbn [join] in *. rewrite IH. reflexivity.
    + rewrite join_cons by discriminate.
      rewrite join_cons in IH by discriminate.
      rewrite append_cons, IH. reflexivity.
Qed.

Lemma split_free (sep : ascii) (s : string) :
  freeOf sep s = true -> split sep s = [s].
Proof.
  induction s as [|c s IH]; [reflexivity|].
  cbn [freeOf split]. intros H. apply andb_true_iff in H.
  destruct H as [Hc Hs]. apply negb_true_iff in Hc. rewrite Hc, (IH Hs).
  reflexivity.
Qed.

Lemma split_app (sep : ascii) (s t : string) :
  freeOf sep s = true ->
  split sep (s +:+ String sep t) = s :: split sep t.
Proof.
  induction s as [|c s IH]; intros H.
  - cbn [split]. change ("" +:+ String sep t) with (String sep t).
    cbn [split]. rewrite Ascii.eqb_refl. reflexivity.
  - cbn [freeOf] in H. apply andb_true_iff in H. destruct H as [Hc Hs].
    apply negb_true_iff in Hc.
    rewrite append_cons. cbn [split]. rewrite Hc, (IH Hs). reflexivity.
Qed.

Lemma split_join (sep : ascii) (l : list string) :
  l <> [] -> forallb (freeOf sep) l = true ->
  split sep (join (String sep "") l) = l.
Proof.
  induction l as [|x l IH]; intros Hne Hall; [congruence|].
  cbn [forallb] in Hall. apply andb_true_iff in Hall.
  destruct Hall as [Hx Hl].
  destruct l as [|y l].
  - cbn [join]. apply split_free, Hx.
  - rewrite join_cons by discriminate.
    change (x +:+ String sep "" +:+ join (String sep "") (y :: l))
      with (x +:+ String sep (join (String sep "") (y :: l))).
    rewrite (split_app sep x _ Hx). f_equal. apply IH; [discriminate|].
    exact Hl.
Qed.

Lemma freeOf_app (c : ascii) (s t : string) :
  freeOf c (s +:+ t) = freeOf c s && freeOf c t.
Proof.
  induction s as [|a s IH]; [reflexivity|].
  rewrite append_cons. cbn [freeOf]. rewrite IH, andb_assoc. reflexivity.
Qed.

Lemma freeOf_join (c sep : ascii) (l : list string) :
  c <> sep -> forallb (freeOf c) l = true ->
  freeOf c (join (String sep "") l) = true.
Proof.
  intros Hne. induction l as [|x l IH]; intros Hall; [reflexivity|].
  cbn [forallb] in Hall. apply andb_true_iff in Hall.
  destruct Hall as [Hx Hl]. destruct l as [|y l]; [exact Hx|].
  rewrite join_cons by discriminate. rewrite !freeOf_app, Hx, (IH Hl).
  cbn [freeOf]. apply Ascii.eqb_neq in Hne. rewrite Ascii.eqb_sym, Hne.
  reflexivity.
Qed.

(** The pieces of a split hold no separator, and no character that the
    string does not hold. *)
Lemma split_pieces_free (sep : ascii) (s : string) :
  forallb (freeOf sep) (split sep s) = true.
Proof.
  induction s as [|c s IH]; [reflexivity|].
  cbn [split]. destruct (Ascii.eqb c sep) eqn:E.
  - cbn [forallb freeOf]. exact IH.
  - destruct (split sep s) as [|h t]; cbn [forallb freeOf] in *.
    + rewrite E. reflexivity.
    + rewrite E. exact IH.
Qed.

Lemma split_pieces_keep (c sep : ascii) (s : string) :
  freeOf c s = true -> forallb (freeOf c) (split sep s) = true.
Proof.
  induction s as [|a s IH]; [reflexivity|].
  cbn [freeOf]. intros H. apply andb_true_iff in H. destruct H as [Ha Hs].
  specialize (IH Hs). cbn [split].
  destruct (Ascii.eqb a sep).
  - cbn [forallb freeOf]. exact IH.
  - destruct (split sep s) as [|h t]; cbn [forallb freeOf] in *;
      rewrite Ha; [reflexivity|exact IH].
Qed.

Lemma parseCSV_lines (content : string) :
  trim content <> "" ->
  parseCSV content =
  map (fun line => map Some (split "009" line)) (split "010" (trim content)).
Proof.
  intros Hne. unfold parseCSV.
  destruct (trim content); [congruence|reflexivity].
Qed.

(** X8: writing back what [parseCSV] read gives the text that was read,
    without the white space around it: for every content,
    [reportContent (parseCSV content)] is [content.trim()]. *)
Theorem reportContent_parseCSV (content : string) :
  reportContent (parseCSV content) = trim content.
Proof.
  destruct (trim content) as [|c t] eqn:E.
  - unfold parseCSV. rewrite E. reflexivity.
  - rewrite parseCSV_lines by (rewrite E; discriminate). rewrite E.
    unfold reportContent. rewrite map_map.
    rewrite (map_ext _ (fun line : string => line)).
    + rewrite map_id. apply join_split.
    + intros line. rewrite map_map. cbn [cellOut]. rewrite map_id.
      apply join_split.
Qed.

Lemma plainRow_split (line : string) :
  freeOf "010" line = true ->
  plainRow (map Some (split "009" line)) = true.
Proof.
  intros Hnl. pose proof (split_not_nil "009" line) as Hne.
  pose proof (split_pieces_free "009" line) as Htab.
  pose proof (split_pieces_keep "010" "009" line Hnl) as Hlf.
  assert (Hall : forallb plainCell (map Some (split "009" line)) = true).
  { rewrite forallb_forall. intros cell Hin.
    apply in_map_iff in Hin. destruct Hin as (piece & <- & Hin).
    rewrite forallb_forall in Htab, Hlf. cbn [plainCell].
    rewrite (Htab piece Hin), (Hlf piece Hin). reflexivity. }
  destruct (split "009" line) as [|x l]; [congruence|exact Hall].
Qed.

(** X9: what [parseCSV] returns: no row at all exactly when the content is
    white space only; otherwise rows of at least one cell, every cell a
    string with no tab and no line feed (no hole). *)
Theorem parseCSV_rows (content : string) :
  (parseCSV content = [] <-> trim content = "") /\
  plainReport (parseCSV content) = true.
Proof.
  destruct (trim content) as [|c t] eqn:E.
  - unfold parseCSV. rewrite E. split; [tauto|reflexivity].
  - rewrite parseCSV_lines by (rewrite E; discriminate). rewrite E. split.
    + split; [|discriminate]. intros H. apply map_eq_nil in H.
      destruct (split_not_nil _ _ H).
    + unfold plainReport. rewrite forallb_forall. intros row Hin.
      apply in_map_iff in Hin. destruct Hin as (line & <- & Hin).
      apply plainRow_split.
      pose proof (split_pieces_free "010" (String c t)) as Hfree.
      rewrite forallb_forall in Hfree. apply Hfree, Hin.
Qed.

Lemma plainRow_cells (row : Row) :
  plainRow row = true ->
  map cellOut row <> [] /\
  forallb (freeOf "009") (map cellOut row) = true /\
  forallb (freeOf "010") (map cellOut row) = true /\
  map Some (map cellOut row) = row.
Proof.
  intros H. split.
  - destruct row; [discriminate H|discriminate].
  - assert (Hall : forallb plainCell row = true)
      by (destruct row; [discriminate H|exact H]).
    clear H. induction row as [|cell row IH]; [auto|].
    cbn [forallb] in Hall. apply andb_true_iff in Hall.
    destruct Hall as [Hc Hr]. destruct (IH Hr) as (Ht & Hl & Hs).
    destruct cell as [s|]; [|discriminate Hc].
    cbn [plainCell] in Hc. apply andb_true_iff in Hc. destruct Hc as [H1 H2].
    cbn [map cellOut forallb]. rewrite H1, H2, Ht, Hl, Hs. auto.
Qed.

(** The lines of a report of plain rows, cut at the tabs, are its rows. *)
Lemma plain_lines_read_back (report : Report) :
  plainReport report = true ->
  report <> [] ->
  map (fun line => map Some (split "009" line))
      (split "010" (reportContent report)) = report.
Proof.
  intros Hplain Hne.
  unfold plainReport in Hplain. rewrite forallb_forall in Hplain.
  unfold reportContent. rewrite split_join.
  - rewrite map_map. rewrite <- (map_id report) at 2.
    apply map_ext_in. intros row Hin.
    destruct (plainRow_cells row (Hplain row Hin)) as (Hn & Ht & _ & Hs).
    rewrite (split_join _ _ Hn Ht). exact Hs.
  - intros H. apply map_eq_nil in H. exact (Hne H).
  - rewrite forallb_forall. intros line Hin.
    apply in_map_iff in Hin. destruct Hin as (row & <- & Hin).
    destruct (plainRow_cells row (Hplain row Hin)) as (_ & _ & Hl & _).
    apply freeOf_join; [discriminate|exact Hl].
Qed.

(** X10: a report is read back as it was written, when every row has a
    cell, every cell is a string with no tab and no line feed, and the
    written text is not empty and has no white space at its ends. *)
Theorem report_read_back (report : Report) :
  plainReport report = true ->
  trim (reportContent report) = reportContent report ->
  reportContent report <> "" ->
  parseCSV (reportContent report) = report.
Proof.
  intros Hplain Htrim Hne.
  rewrite parseCSV_lines by (rewrite Htrim; exact Hne). rewrite Htrim.
  apply plain_lines_read_back; [exact Hplain|].
  intros ->. apply Hne. reflexivity.
Qed.

Lemma report_read_back_witness :
  parseCSV (reportContent (updateReport reportAB [taskBQuiet; taskC]))
  = updateReport reportAB [taskBQuiet; taskC].
Proof.
  apply (report_read_back (updateReport reportAB [taskBQuiet; taskC])).
  - vm_compute. reflexivity.
  - vm_compute. reflexivity.
  - vm_compute. discriminate.
Defined.

End ReportText.

(** ** The run: what a run leaves in the files *)

Section Outcome.

Local Open Scope nat_scope.

Variable JSON_parse : string -> option TraceData.


Lemma append_not_empty (s t : string) : s <> "" -> s +:+ t <> "".
Proof. destruct s; [congruence|discriminate]. Qed.

Lemma join_not_empty (sep x : string) (l : list string) :
  x <> "" -> join sep (x :: l) <> "".
Proof.
  intros H. destruct l as [|y l]; [exact H|].
  rewrite join_cons by discriminate. apply append_not_empty, H.
Qed.

Lemma reportContent_not_empty (header : Row) (rows : list Row) :
  2 <= length header -> reportContent (header :: rows) <> "".
Proof.
  intros Hlen. unfold reportContent. cbn [map]. apply join_not_empty.
  destruct header as [|c0 [|c1 cells]]; cbn [length] in Hlen; try lia.
  cbn [map]. rewrite join_cons by discriminate.
  destruct (cellOut c0); discriminate.
Qed.


(** What [writeReport] does, case by case. *)
Lemma writeReport_run (reportPath : string) (report : Report)
    (fs : FileSystem) :
  writeReport reportPath report fs =
  if String.eqb (reportContent report)
                (default "" (files fs !! reportPath))
  then (inr tt, fs)
  else if bool_decide (reportPath ∈ readOnly fs)
       then (inl (WriteFailed reportPath), fs)
       else (inr tt, mkFS (<[reportPath := reportContent report]> (files fs))
                          (readOnly fs)).
Proof.
  unfold writeReport, mbind, io_bind, ioBind, existsSync, readFileSync,
    writeFileSync, ioRet.
  destruct (files fs !! reportPath) as [content|] eqn:E;
    cbn [default from_option id].
  - rewrite bool_decide_eq_true_2 by eauto. cbv beta. rewrite E.
    destruct (String.eqb (reportContent report) content); reflexivity.
  - rewrite bool_decide_eq_false_2 by (intros [x Hx]; discriminate).
    destruct (String.eqb (reportContent report) ""); reflexivity.
Qed.

(** X11: after a [writeReport] that returns, the file holds the text of the
    report (or the text is empty and there is still no file), every other
    file is as it was, and a second [writeReport] of the same report
    returns without writing, even to a file that then refuses writes. *)
Theorem writeReport_returns (reportPath : string) (report : Report)
    (fs fs' : FileSystem) :
  writeReport reportPath report fs = (inr tt, fs') ->
  (files fs' !! reportPath = Some (reportContent report) \/
   (reportContent report = "" /\ files fs !! reportPath = None /\ fs' = fs))
  /\
  (forall path, path <> reportPath -> files fs' !! path = files fs !! path)
  /\
  forall refusing : gset string,
    writeReport reportPath report (mkFS (files fs') refusing)
    = (inr tt, mkFS (files fs') refusing).
Proof.
  rewrite writeReport_run.
  destruct (String.eqb (reportContent report)
                       (default "" (files fs !! reportPath))) eqn:E.
  - intros [= <-]. apply String.eqb_eq in E.
    split; [|split].
    + destruct (files fs !! reportPath) as [content|]; cbn [default] in E.
      * left. rewrite E. reflexivity.
      * right. auto.
    + reflexivity.
    + intros refusing. rewrite writeReport_run. cbn [files].
      rewrite <- E, String.eqb_refl. reflexivity.
  - destruct (bool_decide (reportPath ∈ readOnly fs)); [discriminate|].
    intros [= <-]. cbn [files]. split; [|split].
    + left. apply lookup_insert_eq.
    + intros path Hne. apply lookup_insert_ne. congruence.
    + intros refusing. rewrite writeReport_run. cbn [files].
      rewrite lookup_insert_eq. cbn [default].
      rewrite String.eqb_refl. reflexivity.
Qed.

Lemma writeReport_returns_witness :
  let fs' := mkFS (<["report.tsv" := reportContent reportAB]>
                     (files (sampleFiles "[e]"))) ∅ in
  writeReport "report.tsv" reportAB (sampleFiles "[e]") = (inr tt, fs') /\
  files fs' !! "report.tsv" = Some (reportContent reportAB) /\
  files fs' !! "trace.json" = files (sampleFiles "[e]") !! "trace.json" /\
  writeReport "report.tsv" reportAB (mkFS (files fs') {[ "report.tsv" ]})
  = (inr tt, mkFS (files fs') {[ "report.tsv" ]}).
Proof.
  intros fs'.
  assert (Hrun : writeReport "report.tsv" reportAB (sampleFiles "[e]")
                 = (inr tt, fs')) by (vm_compute; reflexivity).
  destruct (writeReport_returns "report.tsv" reportAB (sampleFiles "[e]")
              fs' Hrun) as (Hfile & Hother & Hagain).
  split; [exact Hrun|]. split; [|split].
  - destruct Hfile as [H|(H & _)]; [exact H|]. vm_compute in H. discriminate H.
  - apply Hother. discriminate.
  - apply Hagain.
Defined.






End Outcome.



(** ** Command line *)

Section CommandLine.

Local Open Scope nat_scope.

Lemma givenAt_head (flag arg : string) (rest : list string) (v : string) :
  givenAt flag (arg :: rest) 0 v <->
  arg = flag /\ head rest = Some v /\ v <> "".
Proof.
  unfold givenAt. change ((arg :: rest) !! 1) with (rest !! 0).
  change ((arg :: rest) !! 0) with (Some arg). rewrite <- head_lookup.
  split.
  - intros ([= ->] & H & Hv). auto.
  - intros (-> & H & Hv). auto.
Qed.

Lemma givenAt_tail (flag arg : string) (rest : list string) (i : nat)
    (v : string) :
  givenAt flag (arg :: rest) (S i) v <-> givenAt flag rest i v.
Proof. reflexivity. Qed.

Lemma truthy_ofString (o : option string) :
  truthy (ofString o) = true <-> exists v, o = Some v /\ v <> "".
Proof.
  destruct o as [[|c v]|]; cbn; split; intros H; try discriminate H.
  - destruct H as (v & [= <-] & Hv). congruence.
  - eexists. split; [reflexivity|discriminate].
  - reflexivity.
  - destruct H as (v & H & _). discriminate H.
Qed.

Lemma lastValue_None (flag : string) (args : list string) :
  lastValue flag args = None <-> forall i v, ~ givenAt flag args i v.
Proof.
  induction args as [|arg rest IH].
  - split; [|reflexivity]. intros _ i v (H & _). discriminate H.
  - cbn [lastValue]. destruct (lastValue flag rest) as [x|].
    + split; [discriminate|]. intros H.
      assert (Hn : Some x = None); [|discriminate Hn].
      apply IH. intros i v Hi. apply (H (S i) v). apply (proj2 (givenAt_tail _ _ _ _ _)), Hi.
    + destruct IH as [IH _]. specialize (IH eq_refl).
      destruct (String.eqb arg flag) eqn:E; cbn [andb].
      * apply String.eqb_eq in E. subst arg.
        destruct (truthy (ofString (head rest))) eqn:T.
        -- apply truthy_ofString in T. destruct T as (v & Hv & Hne).
           rewrite Hv. split; [discriminate|]. intros H.
           destruct (H 0 v). apply (proj2 (givenAt_head _ _ _ _)). auto.
        -- split; [|reflexivity]. intros _ [|i] v Hi.
           ++ apply (proj1 (givenAt_head _ _ _ _)) in Hi. destruct Hi as (_ & Hv & Hne).
              assert (truthy (ofString (head rest)) = true)
                by (apply truthy_ofString; eauto).
              congruence.
           ++ apply (proj1 (givenAt_tail _ _ _ _ _)) in Hi. apply (IH i v Hi).
      * split; [|reflexivity]. intros _ [|i] v Hi.
        -- apply (proj1 (givenAt_head _ _ _ _)) in Hi. destruct Hi as (-> & _).
           rewrite String.eqb_refl in E. discriminate E.
        -- apply (proj1 (givenAt_tail _ _ _ _ _)) in Hi. apply (IH i v Hi).
Qed.

Lemma lastValue_Some (flag : string) (args : list string) (v : string) :
  lastValue flag args = Some v <-> lastGiven flag args v.
Proof.
  revert v. induction args as [|arg rest IH]; intros v.
  - split; [discriminate|]. intros (i & (H & _) & _). discriminate H.
  - cbn [lastValue]. destruct (lastValue flag rest) as [x|] eqn:L.
    + split.
      * intros [= ->]. destruct (proj1 (IH v) eq_refl) as (i & Hi & Hlast).
        exists (S i). split; [apply (proj2 (givenAt_tail _ _ _ _ _)), Hi|].
        intros [|j] w Hlt Hj; [lia|].
        apply (proj1 (givenAt_tail _ _ _ _ _)) in Hj. apply (Hlast j w); [lia|exact Hj].
      * intros (i & Hi & Hlast). f_equal.
        assert (Hx : lastGiven flag rest x) by (apply IH; reflexivity).
        destruct Hx as (k & Hk & Hklast).
        destruct (Nat.lt_trichotomy i (S k)) as [Hlt|[->|Hgt]].
        -- destruct (Hlast (S k) x Hlt). apply (proj2 (givenAt_tail _ _ _ _ _)), Hk.
        -- apply (proj1 (givenAt_tail _ _ _ _ _)) in Hi.
           destruct Hi as (_ & Hv & _), Hk as (_ & Hx & _). congruence.
        -- destruct i as [|i]; [lia|]. apply (proj1 (givenAt_tail _ _ _ _ _)) in Hi.
           destruct (Hklast i v); [lia|exact Hi].
    + pose proof (proj1 (lastValue_None flag rest) L) as Hnone.
      split.
      * destruct (String.eqb arg flag) eqn:E; cbn [andb]; [|discriminate].
        destruct (truthy (ofString (head rest))) eqn:T; [|discriminate].
        intros Hv. apply String.eqb_eq in E. subst arg.
        apply truthy_ofString in T. destruct T as (v' & Hv' & Hne).
        assert (v' = v) by congruence. subst v'.
        exists 0. split; [apply (proj2 (givenAt_head _ _ _ _)); auto|].
        intros [|j] w Hlt Hj; [lia|].
        apply (proj1 (givenAt_tail _ _ _ _ _)) in Hj. apply (Hnone j w Hj).
      * intros ([|i] & Hi & _).
        -- apply (proj1 (givenAt_head _ _ _ _)) in Hi. destruct Hi as (-> & Hv & Hne).
           rewrite String.eqb_refl. cbn [andb].
           assert (T : truthy (ofString (head rest)) = true)
             by (apply truthy_ofString; eauto).
           rewrite T. exact Hv.
        -- apply (proj1 (givenAt_tail _ _ _ _ _)) in Hi. destruct (Hnone i v Hi).
Qed.

(** The loop in closed form. *)
Lemma readArgs_closed (args : list string) :
  forall o,
    readArgs args o =
    mkOptions (match lastValue "--input" args with
               | Some v => Some v
               | None => inputFile o
               end)
              (match lastValue "--output" args with
               | Some v => Some v
               | None => outputFile o
               end)
              (debug o || bool_decide ("--debug" ∈ args)).
Proof.
  induction args as [|arg rest IH]; intros o.
  - cbn [readArgs lastValue].
    rewrite bool_decide_eq_false_2 by apply not_elem_of_nil.
    rewrite orb_false_r. destruct o; reflexivity.
  - cbn [readArgs lastValue]. rewrite IH.
    assert (Hd : bool_decide ("--debug" ∈ arg :: rest) =
                 String.eqb arg "--debug" || bool_decide ("--debug" ∈ rest)).
    { destruct (String.eqb arg "--debug") eqn:E.
      - apply String.eqb_eq in E. subst arg.
        apply bool_decide_eq_true_2. left.
      - apply String.eqb_neq in E. cbn [orb]. apply bool_decide_ext.
        rewrite elem_of_cons. split; [|auto]. intros [H|H]; congruence. }
    rewrite Hd. unfold readArg.
    destruct (String.eqb arg "--input") eqn:Ei.
    + apply String.eqb_eq in Ei. subst arg.
      change ("--input" =? "--debug")%string with false.
      destruct (head rest) as [[|c v]|];
        cbn [ofString truthy stringTruthy andb orb];
        change ("--input" =? "--output")%string with false;
        cbn [andb orb inputFile outputFile debug];
        destruct (lastValue "--input" rest), (lastValue "--output" rest);
        reflexivity.
    + destruct (String.eqb arg "--output") eqn:Eo.
      * apply String.eqb_eq in Eo. subst arg.
        change ("--output" =? "--debug")%string with false.
        destruct (head rest) as [[|c v]|];
          cbn [ofString truthy stringTruthy andb orb];
          cbn [andb orb inputFile outputFile debug];
          destruct (lastValue "--input" rest), (lastValue "--output" rest);
          reflexivity.
      * cbn [andb].
        destruct (String.eqb arg "--debug");
          cbn [inputFile outputFile debug orb];
          destruct (lastValue "--input" rest), (lastValue "--output" rest);
          rewrite ?orb_true_r; reflexivity.
Qed.

Lemma parseArgs_closed (args : list string) :
  parseArgs args =
  mkOptions (lastValue "--input" args) (lastValue "--output" args)
            (bool_decide ("--debug" ∈ args)).
Proof.
  unfold parseArgs. rewrite readArgs_closed. cbn.
  destruct (lastValue "--input" args), (lastValue "--output" args);
    reflexivity.
Qed.

(** X14: the three options are read independently of each other.  The
    input file is the non-empty argument that follows the last "--input"
    followed by one (and likewise the output file and "--output"), also
    when that argument is itself a flag; debugging is on exactly when some
    argument is "--debug". *)
Theorem parseArgs_options (args : list string) :
  (forall v, inputFile (parseArgs args) = Some v <->
             lastGiven "--input" args v) /\
  (forall v, outputFile (parseArgs args) = Some v <->
             lastGiven "--output" args v) /\
  (debug (parseArgs args) = true <-> "--debug" ∈ args).
Proof.
  rewrite parseArgs_closed. cbn [inputFile outputFile debug].
  split; [|split].
  - intros v. apply lastValue_Some.
  - intros v. apply lastValue_Some.
  - rewrite bool_decide_eq_true. reflexivity.
Qed.

(** X15: the script prints its usage and exits exactly when "--input" or
    "--output" is nowhere followed by a non-empty argument. *)
Theorem usageError_iff (args : list string) :
  usageError (parseArgs args) = false <->
  (exists i v, givenAt "--input" args i v) /\
  (exists i v, givenAt "--output" args i v).
Proof.
  rewrite parseArgs_closed. unfold usageError. cbn [inputFile outputFile].
  assert (H : forall flag,
             truthy (ofString (lastValue flag args)) = true <->
             exists i v, givenAt flag args i v).
  { intros flag. destruct (lastValue flag args) as [v|] eqn:L.
    - apply lastValue_Some in L. destruct L as (i & Hi & _).
      pose proof Hi as (_ & _ & Hne).
      split; [eauto|]. intros _. apply truthy_ofString. eauto.
    - split; [discriminate|]. intros (i & v & Hi).
      destruct (proj1 (lastValue_None flag args) L i v Hi). }
  rewrite orb_false_iff, !negb_false_iff, !H. reflexivity.
Qed.

End CommandLine.

(** ** Debug listing *)

Section DebugListing.

Local Open Scope nat_scope.

Lemma timesIn_app (keys : list string) (x k : string) :
  timesIn (keys ++ [x]) k =
  (timesIn keys k + if String.eqb k x then 1 else 0)%N.
Proof.
  unfold timesIn. rewrite List.filter_app, length_app. cbn [List.filter].
  destruct (String.eqb k x); cbn [length]; lia.
Qed.

Lemma timesIn_absent (keys : list string) (k : string) :
  k ∉ keys -> timesIn keys k = 0%N.
Proof.
  intros H. unfold timesIn. induction keys as [|a keys IH]; [reflexivity|].
  cbn [List.filter]. destruct (String.eqb k a) eqn:E.
  - apply String.eqb_eq in E. subst a. destruct H. left.
  - apply IH. intros Hin. apply H. right. exact Hin.
Qed.

Lemma tallied_nil : tallied [] [] [].
Proof.
  split; [constructor|]. split; [tauto|]. intros k. cbn [mapGet].
  rewrite bool_decide_eq_false_2 by apply not_elem_of_nil. reflexivity.
Qed.

Lemma tallied_snoc (keys set : list string) (counts : JsMap N) (x : string) :
  tallied keys set counts ->
  tallied (keys ++ [x]) (setAdd set x) (countUp counts x).
Proof.
  intros (Hnd & Hset & Hcount). split; [|split].
  - unfold setAdd. destruct (bool_decide (x ∈ set)) eqn:E; [exact Hnd|].
    apply bool_decide_eq_false_1 in E. apply NoDup_app.
    split; [exact Hnd|]. split.
    + intros y Hy Hx. apply list_elem_of_singleton in Hx. subst y. auto.
    + apply NoDup_singleton.
  - intros k. rewrite elem_of_app, list_elem_of_singleton, <- Hset.
    unfold setAdd. destruct (bool_decide (x ∈ set)) eqn:E.
    + apply bool_decide_eq_true_1 in E. split; [auto|].
      intros [H| ->]; assumption.
    + rewrite elem_of_app, list_elem_of_singleton. reflexivity.
  - intros k. unfold countUp. rewrite timesIn_app.
    destruct (String.eqb k x) eqn:E.
    + apply String.eqb_eq in E. subst k. rewrite mapGet_mapSet_eq.
      rewrite bool_decide_eq_true_2
        by (rewrite elem_of_app, list_elem_of_singleton; auto).
      rewrite Hcount. destruct (bool_decide (x ∈ keys)) eqn:Hin.
      * reflexivity.
      * apply bool_decide_eq_false_1 in Hin.
        rewrite (timesIn_absent keys x Hin). reflexivity.
    + apply String.eqb_neq in E.
      rewrite mapGet_mapSet_ne by congruence. rewrite Hcount, N.add_0_r.
      apply (f_equal (fun b : bool =>
                        if b then Some (timesIn keys k) else None)).
      apply bool_decide_ext.
      rewrite elem_of_app, list_elem_of_singleton. tauto.
Qed.

Lemma trackCategories_tallied (pieces : list string) :
  forall (keys : list string) (md : Metadata),
    tallied keys (categories md) (categoryCount md) ->
    let md' := fold_left trackCategory pieces md in
    tallied (keys ++ map trim pieces) (categories md') (categoryCount md') /\
    taskTypes md' = taskTypes md /\ taskTypeCount md' = taskTypeCount md.
Proof.
  induction pieces as [|piece pieces IH]; intros keys md H.
  - cbn. rewrite app_nil_r. auto.
  - cbn [fold_left map].
    destruct (IH (keys ++ [trim piece]) (trackCategory md piece))
      as (Ht & Hn & Hc).
    { apply tallied_snoc, H. }
    rewrite <- app_assoc in Ht. cbn [app] in Ht.
    split; [exact Ht|]. split; [exact Hn|exact Hc].
Qed.

Lemma trackEvents_tallied (events : list TraceEvent) :
  forall (cats names : list string) (md : Metadata),
    tallied cats (categories md) (categoryCount md) ->
    tallied names (taskTypes md) (taskTypeCount md) ->
    let md' := fold_left trackEvent events md in
    tallied (cats ++ categoriesOf events) (categories md')
            (categoryCount md') /\
    tallied (names ++ namesOf events) (taskTypes md') (taskTypeCount md').
Proof.
  induction events as [|e events IH]; intros cats names md Hc Hn.
  - cbn. rewrite !app_nil_r. auto.
  - cbn [fold_left]. unfold categoriesOf, namesOf. cbn [map concat].
    fold (categoriesOf events). fold (namesOf events).
    rewrite !app_assoc. apply IH.
    + unfold trackEvent.
      assert (H1 : tallied
                (cats ++ match ev_cat e with
                         | Some cat =>
                             if stringTruthy cat
                             then map trim (split "," cat) else []
                         | None => []
                         end)
                (categories
                   match ev_cat e with
                   | Some cat =>
                       if stringTruthy cat
                       then fold_left trackCategory (split "," cat) md
                       else md
                   | None => md
                   end)
                (categoryCount
                   match ev_cat e with
                   | Some cat =>
                       if stringTruthy cat
                       then fold_left trackCategory (split "," cat) md
                       else md
                   | None => md
                   end)).
      { destruct (ev_cat e) as [cat|]; [|rewrite app_nil_r; exact Hc].
        destruct (stringTruthy cat); [|rewrite app_nil_r; exact Hc].
        apply trackCategories_tallied, Hc. }
      destruct (ev_name e) as [name|]; [|exact H1].
      destruct (stringTruthy name); exact H1.
    + unfold trackEvent.
      assert (H1 : taskTypes
                     match ev_cat e with
                     | Some cat =>
                         if stringTruthy cat
                         then fold_left trackCategory (split "," cat) md
                         else md
                     | None => md
                     end = taskTypes md /\
                   taskTypeCount
                     match ev_cat e with
                     | Some cat =>
                         if stringTruthy cat
                         then fold_left trackCategory (split "," cat) md
                         else md
                     | None => md
                     end = taskTypeCount md).
      { destruct (ev_cat e) as [cat|]; [|auto].
        destruct (stringTruthy cat); [|auto].
        apply (trackCategories_tallied (split "," cat) cats md Hc). }
      destruct H1 as [Ht Hcount].
      destruct (ev_name e) as [name|];
        [|rewrite app_nil_r, Ht, Hcount; exact Hn].
      destruct (stringTruthy name);
        [|rewrite app_nil_r, Ht, Hcount; exact Hn].
      cbn [taskTypes taskTypeCount]. rewrite Ht, Hcount.
      apply tallied_snoc, Hn.
Qed.

Lemma sort_listing (keys set : list string) (counts : JsMap N) :
  tallied keys set counts ->
  listing keys (StringSort.sort set) /\
  length (StringSort.sort set) = length set /\
  map (countLine counts) (StringSort.sort set) =
  map (occurrencesLine keys) (StringSort.sort set).
Proof.
  intros (Hnd & Hset & Hcount).
  pose proof (StringSort.Permuted_sort set) as Hperm.
  split; [|split].
  - split; [exact (StringSort.Sorted_sort set)|]. split.
    + rewrite <- Hperm. exact Hnd.
    + intros k. rewrite <- Hperm. apply Hset.
  - symmetry. apply Permutation_length, Hperm.
  - apply map_ext_in. intros k Hin. unfold countLine, occurrencesLine.
    rewrite Hcount. rewrite bool_decide_eq_true_2; [reflexivity|].
    apply Hset. rewrite Hperm. apply list_elem_of_In, Hin.
Qed.

(** X16: the debug listing.  Its category lines are, in ascending order
    and each once, the different trimmed pieces of the category strings of
    the events, each with the number of times it occurs; its task type
    lines the same for the names of the events; and the two totals are the
    numbers of these lines. *)
Theorem analyzeTraceMetadata_listing (events : list TraceEvent) :
  exists cats types,
    listing (categoriesOf events) cats /\
    listing (namesOf events) types /\
    analyzeTraceMetadata events =
    [ String "010" "=== Debug Information ===";
      String "010" "Unique Categories Found:";
      "------------------------" ]
    ++ map (occurrencesLine (categoriesOf events)) cats
    ++ [ String "010" "Unique Task Types Found:";
         "----------------------" ]
    ++ map (occurrencesLine (namesOf events)) types
    ++ [ String "010" "Statistics:";
         "-----------";
         "Total unique categories: " +:+ digitsOfN (N.of_nat (length cats));
         "Total unique task types: " +:+ digitsOfN (N.of_nat (length types));
         "======================" +:+ String "010" "" ].
Proof.
  destruct (trackEvents_tallied events [] [] (mkMetadata [] [] [] [])
              tallied_nil tallied_nil) as [Hc Hn].
  cbn [app] in Hc, Hn.
  destruct (sort_listing _ _ _ Hc) as (Lc & Nc & Mc).
  destruct (sort_listing _ _ _ Hn) as (Ln & Nn & Mn).
  eexists _, _. split; [exact Lc|]. split; [exact Ln|].
  unfold analyzeTraceMetadata. rewrite Mc, Mn, Nc, Nn. reflexivity.
Qed.

End DebugListing.

(** ** The reports the tool writes are read back as written *)

Section ToolReports.

Local Open Scope nat_scope.

Lemma digit_not_white (c : ascii) : isDigit c = true -> isWhiteSpace c = false.
Proof.
  unfold isDigit, isWhiteSpace. intros H.
  apply andb_true_iff in H. destruct H as [H1 H2].
  apply Nat.leb_le in H1, H2.
  apply orb_false_iff. split.
  - apply andb_false_iff. right. apply Nat.leb_gt. lia.
  - apply Nat.eqb_neq. lia.
Qed.

Lemma allDigits_noWhiteSpace (s : string) :
  allDigits s = true -> noWhiteSpace s = true.
Proof.
  induction s as [|c s IH]; [reflexivity|]. cbn [allDigits noWhiteSpace].
  intros H. apply andb_true_iff in H. destruct H as [Hc Hs].
  rewrite (digit_not_white c Hc), (IH Hs). reflexivity.
Qed.

Lemma noWhiteSpace_app (s t : string) :
  noWhiteSpace (s +:+ t) = noWhiteSpace s && noWhiteSpace t.
Proof.
  induction s as [|c s IH]; [reflexivity|].
  rewrite append_cons. cbn [noWhiteSpace]. rewrite IH, andb_assoc.
  reflexivity.
Qed.

Lemma noWhiteSpace_free (c : ascii) (s : string) :
  isWhiteSpace c = true -> noWhiteSpace s = true -> freeOf c s = true.
Proof.
  intros Hc. induction s as [|a s IH]; [reflexivity|].
  cbn [noWhiteSpace freeOf]. intros H. apply andb_true_iff in H.
  destruct H as [Ha Hs]. rewrite (IH Hs), andb_true_r.
  apply negb_true_iff. apply negb_true_iff in Ha.
  destruct (Ascii.eqb a c) eqn:E; [|reflexivity].
  apply Ascii.eqb_eq in E. congruence.
Qed.

Lemma noWhiteSpace_plain (s : string) :
  noWhiteSpace s = true -> plainString s = true.
Proof.
  intros H. unfold plainString.
  rewrite !noWhiteSpace_free by (reflexivity || exact H). reflexivity.
Qed.

Lemma noWhiteSpace_endsWell (s : string) :
  noWhiteSpace s = true -> s <> "" -> endsWell s = true.
Proof.
  induction s as [|c s IH]; [congruence|]. cbn [noWhiteSpace endsWell].
  intros H _. apply andb_true_iff in H. destruct H as [Hc Hs].
  destruct s as [|c' s']; [exact Hc|]. apply IH; [exact Hs|discriminate].
Qed.

Lemma digitsOfN_noWhiteSpace (n : N) : noWhiteSpace (digitsOfN n) = true.
Proof.
  pose proof (digitsOfN_integer n) as H. unfold isIntegerString in H.
  apply andb_true_iff in H. apply allDigits_noWhiteSpace, H.
Qed.

Lemma digitsOfN_not_empty (n : N) : digitsOfN n <> "".
Proof.
  pose proof (digitsOfN_integer n) as H. unfold isIntegerString in H.
  apply andb_true_iff in H. destruct H as [H _].
  destruct (digitsOfN n); [discriminate H|discriminate].
Qed.

Lemma digitsOfZ_noWhiteSpace (z : Z) : noWhiteSpace (digitsOfZ z) = true.
Proof.
  unfold digitsOfZ. destruct (z <? 0)%Z.
  - rewrite noWhiteSpace_app, digitsOfN_noWhiteSpace. reflexivity.
  - apply digitsOfN_noWhiteSpace.
Qed.

Lemma digitChar_mod (n : Z) :
  isWhiteSpace (digitChar (n mod 100 / 10)) = false /\
  isWhiteSpace (digitChar (n mod 10)) = false.
Proof.
  split; apply digit_not_white, digitChar_digit.
  - pose proof (Z.mod_pos_bound n 100 ltac:(lia)).
    split; [apply Z.div_pos; lia|].
    apply Z.div_lt_upper_bound; lia.
  - apply Z.mod_pos_bound. lia.
Qed.

Lemma fixedDigits_noWhiteSpace (n : Z) : noWhiteSpace (fixedDigits n) = true.
Proof.
  unfold fixedDigits. destruct (digitChar_mod n) as [H1 H2].
  rewrite !noWhiteSpace_app, digitsOfN_noWhiteSpace.
  cbn [noWhiteSpace]. rewrite H1, H2. reflexivity.
Qed.

Lemma exponentNotation_noWhiteSpace (s p : Z) :
  noWhiteSpace (exponentNotation s p) = true.
Proof.
  unfold exponentNotation.
  pose proof (digitsOfN_noWhiteSpace (Z.to_N s)) as H.
  destruct (digitsOfN (Z.to_N s)) as [|d rest]; [reflexivity|].
  cbn [noWhiteSpace] in H. apply andb_true_iff in H. destruct H as [Hd Hr].
  destruct rest as [|d' rest'].
  - cbn [noWhiteSpace]. rewrite Hd, noWhiteSpace_app, digitsOfZ_noWhiteSpace.
    reflexivity.
  - cbn [noWhiteSpace]. rewrite Hd, !noWhiteSpace_app, digitsOfZ_noWhiteSpace.
    change (noWhiteSpace (String d' rest')) with
      (negb (isWhiteSpace d') && noWhiteSpace rest').
    cbn [noWhiteSpace] in Hr. rewrite Hr. reflexivity.
Qed.

(** [toFixed(2)] writes no white space, whatever the number. *)
Lemma toFixed2_noWhiteSpace (x : float) : noWhiteSpace (toFixed2 x) = true.
Proof.
  unfold toFixed2. destruct (Prim2SF x) as [s|s| |s m e].
  - reflexivity.
  - destruct s; reflexivity.
  - reflexivity.
  - rewrite noWhiteSpace_app.
    assert (Hs : noWhiteSpace (if s then "-" else "") = true)
      by (destruct s; reflexivity).
    rewrite Hs. cbn [andb].
    destruct (below1e21 m e); [apply fixedDigits_noWhiteSpace|].
    unfold largeToString.
    destruct (shortestFrom 17 (Z.pos m * 2 ^ e) (S754_finite false m e) 1)
      as [d p].
    apply exponentNotation_noWhiteSpace.
Qed.

(** *** The cells a merge writes *)

Lemma plainRow_intro (row : Row) :
  row <> [] -> forallb plainCell row = true -> plainRow row = true.
Proof. destruct row; [congruence|]. intros _ H. exact H. Qed.

Lemma plainRow_elim (row : Row) :
  plainRow row = true -> forallb plainCell row = true.
Proof. destruct row; [discriminate|]. intros H. exact H. Qed.

Lemma forallb_insert {A} (f : A -> bool) (l : list A) (i : nat) (x : A) :
  forallb f l = true -> f x = true -> forallb f (<[i:=x]> l) = true.
Proof.
  intros Hl Hx. revert i. induction l as [|a l IH]; intros i; [reflexivity|].
  cbn [forallb] in Hl. apply andb_true_iff in Hl. destruct Hl as [Ha Hl].
  destruct i as [|i]; cbn [insert list_insert forallb].
  - rewrite Hx, Hl. reflexivity.
  - rewrite Ha. apply (IH Hl).
Qed.

Lemma metricCells_plain (task : Task) :
  forallb plainCell (metricCells task) = true.
Proof.
  unfold metricCells. cbn [forallb plainCell].
  fold (plainString (toFixed2 (blockingTime task))).
  fold (plainString (toFixed2 (totalDuration task))).
  fold (plainString (digitsOfN (occurrences task))).
  rewrite !noWhiteSpace_plain;
    auto using toFixed2_noWhiteSpace, digitsOfN_noWhiteSpace.
Qed.

Lemma fixedCells_plain (task : Task) :
  plainTask task = true -> forallb plainCell (fixedCells task) = true.
Proof.
  unfold plainTask, fixedCells. intros H.
  apply andb_true_iff in H. destruct H as [H Hc].
  apply andb_true_iff in H. destruct H as [Hn Hu].
  cbn [forallb plainCell].
  fold (plainString (task_name task)). fold (plainString (task_url task)).
  fold (plainString (category task)). rewrite Hn, Hu, Hc.
  unfold hasLongTasks. destruct (0 <? blockingTime task)%float; reflexivity.
Qed.

Lemma filler_plain (k : nat) :
  forallb plainCell (concat (replicate k absentCells)) = true.
Proof.
  induction k as [|k IH]; [reflexivity|].
  cbn [replicate concat]. rewrite forallb_app, IH. reflexivity.
Qed.

Lemma label_plain (n : Z) (title : string) :
  plainString title = true ->
  plainCell (Some ("Run " +:+ digitsOfZ n +:+ title)) = true.
Proof.
  intros H. unfold plainString in H. apply andb_true_iff in H.
  destruct H as [H1 H2]. cbn [plainCell]. rewrite !freeOf_app, H1, H2.
  rewrite (noWhiteSpace_free "009" (digitsOfZ n)),
    (noWhiteSpace_free "010" (digitsOfZ n))
    by (reflexivity || apply digitsOfZ_noWhiteSpace).
  reflexivity.
Qed.

Lemma runLabels_plain (n : Z) : forallb plainCell (runLabels n) = true.
Proof.
  unfold runLabels. cbn [forallb].
  rewrite !label_plain by reflexivity. reflexivity.
Qed.

Lemma endsWell_app (s t : string) :
  endsWell t = true -> endsWell (s +:+ t) = true.
Proof.
  intros H. induction s as [|c s IH]; [exact H|].
  rewrite append_cons. cbn [endsWell].
  destruct (s +:+ t) as [|c' u]; [discriminate IH|exact IH].
Qed.

Lemma endsWell_join_last (sep : string) (l : list string) (s : string) :
  last l = Some s -> endsWell s = true -> endsWell (join sep l) = true.
Proof.
  intros Hlast Hs. induction l as [|x l IH]; [discriminate Hlast|].
  destruct l as [|y l].
  - injection Hlast as ->. exact Hs.
  - rewrite join_cons by discriminate. rewrite last_cons_cons in Hlast.
    apply endsWell_app, endsWell_app, IH, Hlast.
Qed.

Lemma lastCell_push (row : Row) (a b : option string) (s : string) :
  endsWell s = true -> lastCellEndsWell (row ++ [a; b; Some s]) = true.
Proof.
  intros H. unfold lastCellEndsWell.
  change (row ++ [a; b; Some s]) with (row ++ [a; b] ++ [Some s]).
  rewrite app_assoc, last_snoc. exact H.
Qed.

Lemma lastCell_metrics (row : Row) (task : Task) :
  lastCellEndsWell (row ++ metricCells task) = true.
Proof.
  apply lastCell_push, noWhiteSpace_endsWell.
  - apply digitsOfN_noWhiteSpace.
  - apply digitsOfN_not_empty.
Qed.

Lemma lastCell_absent (row : Row) :
  lastCellEndsWell (row ++ absentCells) = true.
Proof. apply lastCell_push. reflexivity. Qed.

Lemma lastCell_labels (row : Row) (n : Z) :
  lastCellEndsWell (row ++ runLabels n) = true.
Proof. apply lastCell_push, endsWell_app, endsWell_app. reflexivity. Qed.

(** *** What a merge makes of a row *)

Lemma mergedRow_plain (tasks : list Task) (row : Row) :
  4 <= length row -> plainRow row = true ->
  plainRow (mergedRow tasks row) = true /\
  lastCellEndsWell (mergedRow tasks row) = true.
Proof.
  intros Hlen Hrow. apply plainRow_elim in Hrow. unfold mergedRow.
  destruct (taskWithKey tasks (rowKey row)) as [task|].
  - split; [|apply lastCell_metrics].
    apply plainRow_intro.
    + intros H. apply (f_equal length) in H.
      rewrite length_app in H. cbn [metricCells length] in H. lia.
    + rewrite forallb_app, metricCells_plain, andb_true_r.
      destruct (0 <? blockingTime task)%float; [|exact Hrow].
      unfold setCell. assert (E : (3 <? length row) = true)
        by (apply Nat.ltb_lt; lia).
      rewrite E. apply forallb_insert; [exact Hrow|reflexivity].
  - split; [|apply lastCell_absent].
    apply plainRow_intro.
    + destruct row; [cbn in Hlen; lia|discriminate].
    + rewrite forallb_app, Hrow. reflexivity.
Qed.

Lemma addedRow_plain (runCount : Z) (task : Task) :
  plainTask task = true ->
  plainRow (addedRow runCount task) = true /\
  lastCellEndsWell (addedRow runCount task) = true.
Proof.
  intros H. split; [|apply lastCell_metrics].
  unfold addedRow, newRow. apply plainRow_intro; [discriminate|].
  rewrite !forallb_app, (fixedCells_plain task H), filler_plain,
    metricCells_plain.
  reflexivity.
Qed.

Lemma firstRunRow_plain (task : Task) :
  plainTask task = true ->
  plainRow (firstRunRow task) = true /\
  lastCellEndsWell (firstRunRow task) = true.
Proof.
  intros H. split; [|apply lastCell_metrics].
  unfold firstRunRow. apply plainRow_intro; [discriminate|].
  rewrite forallb_app, (fixedCells_plain task H), metricCells_plain.
  reflexivity.
Qed.

(** *** The invariant of the reports *)

Lemma forallb_map_in {A B} (f : B -> bool) (g : A -> B) (l : list A) :
  (forall x, In x l -> f (g x) = true) -> forallb f (map g l) = true.
Proof.
  intros H. apply forallb_forall. intros y Hy.
  apply in_map_iff in Hy. destruct Hy as (x & <- & Hx). apply H, Hx.
Qed.

Lemma toolReport_first (tasks : list Task) :
  NoDup (map taskKey tasks) ->
  forallb plainTask tasks = true ->
  toolReport 1 (updateReport [] tasks).
Proof.
  intros Hnt Hplain. rewrite forallb_forall in Hplain.
  split; [apply firstRun_alignedReport, Hnt|].
  cbn [updateReport]. split; [|split].
  - unfold plainReport. cbn [forallb]. apply andb_true_iff.
    split; [reflexivity|].
    apply forallb_map_in. intros t Ht. apply firstRunRow_plain, Hplain, Ht.
  - cbn [forallb]. apply andb_true_iff. split; [reflexivity|].
    apply forallb_map_in. intros t Ht. apply firstRunRow_plain, Hplain, Ht.
  - eexists _, _. reflexivity.
Qed.

Lemma toolReport_next (n : nat) (report : Report) (tasks : list Task) :
  toolReport n report ->
  NoDup (map taskKey tasks) ->
  forallb plainTask tasks = true ->
  toolReport (S n) (updateReport report tasks).
Proof.
  intros (Hal & Hplain & Hlast & cells & rows & ->) Hnt Htasks.
  split; [apply updateReport_alignedReport; assumption|].
  destruct Hal as (header & rows0 & [= <- <-] & Hh & Hrows & Hnd).
  pose proof (at_least_two n rows Hrows) as Hall.
  rewrite (updateReport_closed _ rows tasks Hall Hnd Hnt).
  set (runCount := ((Z.of_nat (length (Some "Task Name" :: cells)) - 4) / 3)%Z).
  unfold plainReport in Hplain. cbn [forallb] in Hplain, Hlast.
  apply andb_true_iff in Hplain. destruct Hplain as [Hhead Hplain].
  apply andb_true_iff in Hlast. destruct Hlast as [_ Hlast].
  rewrite forallb_forall in Hplain, Hlast, Htasks.
  rewrite Forall_forall in Hrows.
  assert (Hmerged : forall row, In row rows ->
            plainRow (mergedRow tasks row) = true /\
            lastCellEndsWell (mergedRow tasks row) = true).
  { intros row Hin. apply mergedRow_plain; [|apply Hplain, Hin].
    rewrite (Hrows row) by (apply list_elem_of_In, Hin). lia. }
  assert (Hadded : forall t, In t (unseenTasks rows tasks) ->
            plainRow (addedRow runCount t) = true /\
            lastCellEndsWell (addedRow runCount t) = true).
  { intros t Hin. apply addedRow_plain, Htasks.
    apply list_elem_of_In, unseenTasks_elem in Hin.
    apply list_elem_of_In, Hin. }
  split; [|split].
  - unfold plainReport. cbn [forallb]. apply andb_true_iff. split.
    + apply plainRow_intro; [discriminate|].
      change ((Some "Task Name" :: cells) ++ runLabels (runCount + 1)%Z)
        with (Some "Task Name" :: (cells ++ runLabels (runCount + 1)%Z)).
      apply plainRow_elim in Hhead. cbn [forallb] in Hhead |- *.
      rewrite forallb_app, runLabels_plain, andb_true_r. exact Hhead.
    + rewrite forallb_app. apply andb_true_iff.
      split; apply forallb_map_in; intros x Hx;
        [apply Hmerged, Hx|apply Hadded, Hx].
  - cbn [forallb]. apply andb_true_iff. split; [apply lastCell_labels|].
    rewrite forallb_app. apply andb_true_iff.
    split; apply forallb_map_in; intros x Hx;
      [apply Hmerged, Hx|apply Hadded, Hx].
  - eexists _, _. reflexivity.
Qed.

Lemma toolReport_fold (later : list (list Task)) :
  forall (n : nat) (report : Report),
    toolReport n report ->
    Forall (fun tasks => NoDup (map taskKey tasks) /\
                         forallb plainTask tasks = true) later ->
    toolReport (n + length later) (fold_left updateReport later report).
Proof.
  induction later as [|tasks later IH]; intros n report Hrep Hall.
  - cbn. rewrite Nat.add_0_r. exact Hrep.
  - apply Forall_cons in Hall. destruct Hall as [[Hnt Hplain] Hall].
    cbn [fold_left length].
    replace (n + S (length later)) with (S n + length later) by lia.
    apply IH; [|exact Hall]. apply toolReport_next; assumption.
Qed.

Lemma toolReport_mergeRuns (first : list Task) (later : list (list Task)) :
  Forall (fun tasks => NoDup (map taskKey tasks) /\
                       forallb plainTask tasks = true) (first :: later) ->
  toolReport (length (first :: later)) (mergeRuns (first :: later)).
Proof.
  intros Hall. apply Forall_cons in Hall. destruct Hall as [[Hnt Hplain] Hall].
  unfold mergeRuns. cbn [fold_left length].
  change (S (length later)) with (1 + length later).
  apply toolReport_fold; [|exact Hall]. apply toolReport_first; assumption.
Qed.

(** *** Reading back *)

Lemma trimEnd_endsWell (s : string) : endsWell s = true -> trimEnd s = s.
Proof.
  induction s as [|c s IH]; [discriminate|].
  cbn [endsWell trimEnd]. destruct s as [|c' s'].
  - intros H. apply negb_true_iff in H. cbn [trimEnd]. rewrite H.
    reflexivity.
  - intros H. rewrite (IH H). reflexivity.
Qed.

Lemma join_head (sep : string) (c : ascii) (s : string) (l : list string) :
  exists rest, join sep (String c s :: l) = String c rest.
Proof.
  destruct l as [|y l]; [exists s; reflexivity|].
  rewrite join_cons by discriminate. rewrite append_cons. eauto.
Qed.

Lemma endsWell_join_all (sep : string) (l : list string) :
  l <> [] -> forallb endsWell l = true -> endsWell (join sep l) = true.
Proof.
  induction l as [|x l IH]; [congruence|]. intros _ H.
  cbn [forallb] in H. apply andb_true_iff in H. destruct H as [Hx Hl].
  destruct l as [|y l]; [exact Hx|].
  rewrite join_cons by discriminate.
  apply endsWell_app, endsWell_app, IH; [discriminate|exact Hl].
Qed.

Lemma line_endsWell (row : Row) :
  lastCellEndsWell row = true ->
  endsWell (join (String "009" "") (map cellOut row)) = true.
Proof.
  unfold lastCellEndsWell. intros H.
  destruct (last row) as [[s|]|] eqn:E; try discriminate H.
  apply (endsWell_join_last _ _ s); [|exact H].
  change (map cellOut row) with (cellOut <$> row).
  rewrite fmap_last, E. reflexivity.
Qed.

Lemma toolReport_trimmed (n : nat) (report : Report) :
  toolReport n report ->
  trim (reportContent report) = reportContent report /\
  reportContent report <> "".
Proof.
  intros (Hal & _ & Hlast & cells & rows & ->).
  destruct Hal as (header & rows0 & [= <- <-] & Hh & _).
  split.
  - unfold trim.
    assert (Hstart : exists rest,
               reportContent ((Some "Task Name" :: cells) :: rows)
               = String "T" rest).
    { unfold reportContent. cbn [map cellOut].
      destruct (join_head (String "009" "") "T" "ask Name"
                          (map cellOut cells)) as [r ->].
      apply join_head. }
    destruct Hstart as [rest Hstart].
    assert (Hend : endsWell (reportContent
                               ((Some "Task Name" :: cells) :: rows)) = true).
    { unfold reportContent. apply endsWell_join_all; [discriminate|].
      apply forallb_map_in. intros row Hin. apply line_endsWell.
      rewrite forallb_forall in Hlast. apply Hlast, Hin. }
    rewrite Hstart in Hend |- *. cbn [trimStart].
    change (isWhiteSpace "T") with false. cbv iota.
    apply trimEnd_endsWell, Hend.
  - apply reportContent_not_empty. rewrite Hh. lia.
Qed.

Lemma toolReport_read_back (n : nat) (report : Report) :
  toolReport n report -> parseCSV (reportContent report) = report.
Proof.
  intros H. destruct (toolReport_trimmed n report H) as [Htrim Hne].
  destruct H as (_ & Hplain & _ & cells & rows & ->).
  rewrite parseCSV_lines by (rewrite Htrim; exact Hne). rewrite Htrim.
  apply plain_lines_read_back; [exact Hplain|discriminate].
Qed.

(** X17: the reports of the merger are read back as written.  For
    [n >= 1] successive merges from the empty report, each of a task list
    with pairwise different keys whose names, urls and categories hold no
    tab and no line feed, parsing the text of the report gives the report,
    whatever the numbers of the tasks. *)
Theorem merged_report_read_back (runs : list (list Task)) :
  runs <> [] ->
  Forall (fun tasks => NoDup (map taskKey tasks) /\
                       forallb plainTask tasks = true) runs ->
  parseCSV (reportContent (mergeRuns runs)) = mergeRuns runs.
Proof.
  intros Hne Hall. destruct runs as [|first later]; [congruence|].
  apply (toolReport_read_back (length (first :: later))).
  apply toolReport_mergeRuns, Hall.
Qed.

End ToolReports.

Lemma merged_report_read_back_witness :
  parseCSV (reportContent (mergeRuns [[taskA; taskB]; [taskBQuiet; taskC]]))
  = mergeRuns [[taskA; taskB]; [taskBQuiet; taskC]].
Proof.
  apply (merged_report_read_back [[taskA; taskB]; [taskBQuiet; taskC]]).
  - discriminate.
  - repeat constructor;
      try (apply (bool_decide_unpack _); vm_compute; exact I).
Defined.

(** ** Successive runs of the tool *)

Section Runs.

Local Open Scope nat_scope.

Variable JSON_parse : string -> option TraceData.





End Runs.


(** ** Event classifier: the category "devtools.timeline" *)

Section Timeline.

Lemma startsWith_toLowerCase (s pat : string) :
  startsWith s pat = true ->
  startsWith (toLowerCase s) (toLowerCase pat) = true.
Proof.
  revert s. induction pat as [|p pat IH]; intros s;
    [destruct s; reflexivity|].
  destruct s as [|c s]; [discriminate|]. cbn [startsWith toLowerCase].
  intros H. apply andb_true_iff in H. destruct H as [Hc Hs].
  apply Ascii.eqb_eq in Hc. subst p.
  rewrite Ascii.eqb_refl, (IH s Hs). reflexivity.
Qed.

Lemma includes_unfold (s pat : string) :
  includes s pat =
  startsWith s pat ||
  match s with
  | EmptyString => false
  | String _ s' => includes s' pat
  end.
Proof. destruct s; reflexivity. Qed.

Lemma includes_toLowerCase (s pat : string) :
  includes s pat = true ->
  includes (toLowerCase s) (toLowerCase pat) = true.
Proof.
  induction s as [|c s IH]; intros H.
  - rewrite (includes_unfold "") in H |- *.
    apply orb_true_iff in H. apply orb_true_iff.
    destruct H as [H|H]; [|discriminate H].
    left. apply (startsWith_toLowerCase "" pat H).
  - rewrite (includes_unfold (String c s)) in H.
    rewrite (includes_unfold (toLowerCase (String c s))).
    apply orb_true_iff in H. apply orb_true_iff.
    destruct H as [H|H].
    + left. apply (startsWith_toLowerCase (String c s) pat H).
    + right. cbn [toLowerCase]. apply IH, H.
Qed.

Lemma startsWith_trimEnd (s pat : string) :
  noWhiteSpace pat = true -> startsWith s pat = true ->
  startsWith (trimEnd s) pat = true.
Proof.
  revert s. induction pat as [|p pat IH]; intros s Hpat H.
  - destruct (trimEnd s); reflexivity.
  - destruct s as [|c s]; [discriminate H|]. cbn [startsWith] in H.
    apply andb_true_iff in H. destruct H as [Hc Hs].
    cbn [noWhiteSpace] in Hpat. apply andb_true_iff in Hpat.
    destruct Hpat as [Hp Hpat]. specialize (IH s Hpat Hs).
    apply Ascii.eqb_eq in Hc. subst p. apply negb_true_iff in Hp.
    cbn [trimEnd]. destruct (trimEnd s) as [|c' t].
    + rewrite Hp. cbn [startsWith]. rewrite Ascii.eqb_refl. exact IH.
    + cbn [startsWith] in IH |- *. rewrite Ascii.eqb_refl. exact IH.
Qed.

Lemma includes_empty (pat : string) :
  pat <> "" -> includes "" pat = false.
Proof. destruct pat; [congruence|reflexivity]. Qed.

Lemma includes_trimEnd (s pat : string) :
  noWhiteSpace pat = true -> pat <> "" ->
  includes s pat = true -> includes (trimEnd s) pat = true.
Proof.
  intros Hpat Hne. induction s as [|c s IH]; intros H.
  - rewrite includes_empty in H by exact Hne. discriminate H.
  - rewrite (includes_unfold (String c s)) in H. apply orb_true_iff in H.
    rewrite (includes_unfold (trimEnd (String c s))). apply orb_true_iff.
    destruct H as [H|H].
    + left. apply startsWith_trimEnd; assumption.
    + specialize (IH H). cbn [trimEnd].
      destruct (trimEnd s) as [|c' t].
      * rewrite includes_empty in IH by exact Hne. discriminate IH.
      * right. exact IH.
Qed.

Lemma includes_trimStart (s pat : string) :
  noWhiteSpace pat = true -> pat <> "" ->
  includes s pat = true -> includes (trimStart s) pat = true.
Proof.
  intros Hpat Hne. induction s as [|c s IH]; intros H; [exact H|].
  cbn [trimStart]. destruct (isWhiteSpace c) eqn:W; [|exact H].
  apply IH. rewrite (includes_unfold (String c s)) in H.
  apply orb_true_iff in H. destruct H as [H|H]; [|exact H].
  destruct pat as [|p pat]; [congruence|]. cbn [startsWith] in H.
  apply andb_true_iff in H. destruct H as [Hc _].
  apply Ascii.eqb_eq in Hc. subst p.
  cbn [noWhiteSpace] in Hpat. rewrite W in Hpat. discriminate Hpat.
Qed.

Lemma startsWith_first_piece (sep : ascii) (s pat : string) :
  freeOf sep pat = true -> startsWith s pat = true ->
  exists piece rest,
    split sep s = piece :: rest /\ startsWith piece pat = true.
Proof.
  revert s. induction pat as [|p pat IH]; intros s Hpat H.
  - pose proof (split_not_nil sep s) as Hne.
    destruct (split sep s) as [|piece rest]; [congruence|].
    exists piece, rest. split; [reflexivity|]. destruct piece; reflexivity.
  - destruct s as [|c s]; [discriminate H|]. cbn [startsWith] in H.
    apply andb_true_iff in H. destruct H as [Hc Hs].
    cbn [freeOf] in Hpat. apply andb_true_iff in Hpat.
    destruct Hpat as [Hp Hpat].
    destruct (IH s Hpat Hs) as (piece & rest & Hsplit & Hstart).
    apply Ascii.eqb_eq in Hc. subst p. apply negb_true_iff in Hp.
    cbn [split]. rewrite Hp, Hsplit.
    exists (String c piece), rest. split; [reflexivity|].
    cbn [startsWith]. rewrite Ascii.eqb_refl. exact Hstart.
Qed.

Lemma includes_some_piece (sep : ascii) (s pat : string) :
  freeOf sep pat = true -> includes s pat = true ->
  existsb (fun piece => includes piece pat) (split sep s) = true.
Proof.
  intros Hpat. induction s as [|c s IH]; intros H.
  - cbn [split existsb]. rewrite H. reflexivity.
  - rewrite (includes_unfold (String c s)) in H. apply orb_true_iff in H.
    destruct H as [H|H].
    + destruct (startsWith_first_piece sep _ pat Hpat H)
        as (piece & rest & -> & Hstart).
      cbn [existsb]. rewrite (includes_unfold piece), Hstart. reflexivity.
    + specialize (IH H). cbn [split]. destruct (Ascii.eqb c sep).
      * cbn [existsb]. rewrite IH. apply orb_true_r.
      * destruct (split sep s) as [|piece rest]; [discriminate IH|].
        cbn [existsb] in IH |- *. apply orb_true_iff in IH.
        apply orb_true_iff. destruct IH as [IH|IH]; [|right; exact IH].
        left. rewrite (includes_unfold (String c piece)), IH.
        apply orb_true_r.
Qed.

(** A category string that holds the pattern [pat], a pattern with no
    comma and no white space, has a piece that matches it. *)
Lemma categoryListHas_includes (eventCat pat : string) :
  freeOf "," pat = true -> noWhiteSpace pat = true -> pat <> "" ->
  includes eventCat pat = true -> categoryListHas eventCat pat = true.
Proof.
  intros Hcomma Hws Hne H. unfold categoryListHas.
  pose proof (includes_some_piece "," eventCat pat Hcomma H) as Hp.
  apply existsb_exists in Hp. destruct Hp as (piece & Hin & Hinc).
  apply existsb_exists. exists piece. split; [exact Hin|].
  apply includes_toLowerCase. unfold trim. apply includes_trimEnd; [assumption..|].
  apply includes_trimStart; assumption.
Qed.

(** X19: for the events of the category "devtools.timeline" the
    main-thread check filters nothing.  A complete event with a duration
    that is a number other than 0 and whose category string contains
    "devtools.timeline" is a potential TBT task, whatever its thread id and
    its name. *)
Theorem isPotentialTBTTask_timeline (event : TraceEvent) (d : float)
    (cat : string) :
  ev_ph event = Some "X" ->
  ev_dur event = Some d ->
  numberTruthy d = true ->
  ev_cat event = Some cat ->
  includes cat "devtools.timeline" = true ->
  isPotentialTBTTask event = true.
Proof.
  intros Hph Hdur Hd Hcat Hinc.
  assert (Hne : stringTruthy cat = true).
  { destruct cat; [discriminate Hinc|reflexivity]. }
  assert (Hmatch : matchesTbtCategory cat = true).
  { unfold matchesTbtCategory, tbtCategories. cbn [existsb].
    rewrite (categoryListHas_includes cat "devtools.timeline")
      by (reflexivity || discriminate || exact Hinc).
    reflexivity. }
  unfold isPotentialTBTTask, isPotentialTBTTaskValue.
  rewrite !truthy_jsAnd. rewrite Hph, Hdur. cbn [ofNumber truthy].
  rewrite Hd. cbn [String.eqb Ascii.eqb Bool.eqb andb].
  unfold mainThreadCheck, relevanceCheck.
  rewrite !truthy_jsOr, !truthy_jsAnd, Hcat.
  cbn [optIncludes ofString truthy]. rewrite Hinc, Hne, Hmatch.
  rewrite !orb_true_r. reflexivity.
Qed.

End Timeline.

Lemma isPotentialTBTTask_timeline_witness :
  isPotentialTBTTask
    (mkEvent (Some "X") (Some 1000%float) None
             (Some "cat, disabled-by-default-devtools.timeline") (Some 7%Z)
             None) = true.
Proof.
  apply (isPotentialTBTTask_timeline _ 1000%float
           "cat, disabled-by-default-devtools.timeline"); reflexivity.
Defined.

(** ** Long tasks: when the blocking time of a task is above zero *)

Section LongTasks.

Lemma shr_1_half (mrs : shr_record) :
  0 <= shr_m mrs -> shr_m (shr_1 mrs) = shr_m mrs / 2.
Proof.
  destruct mrs as [m r s]. destruct m as [|[p|p|]|p]; cbn [shr_m shr_1];
    intros H; try lia.
  - reflexivity.
  - rewrite Pos2Z.inj_xI. apply (Z.div_unique _ _ _ 1); lia.
  - rewrite Pos2Z.inj_xO. apply (Z.div_unique _ _ _ 0); lia.
  - reflexivity.
Qed.

Lemma iter_shr_1_value (n : positive) :
  forall mrs,
    0 <= shr_m mrs ->
    shr_m (SpecFloat.iter_pos shr_1 n mrs) = shr_m mrs / 2 ^ Z.pos n.
Proof.
  induction n as [n IH|n IH|]; cbn [SpecFloat.iter_pos]; intros mrs H;
    try (assert (Hp : 0 < 2 ^ Z.pos n) by (apply Z.pow_pos_nonneg; lia)).
  - rewrite IH by (apply iter_shr_1_nonneg, shr_1_nonneg, H).
    rewrite IH by (apply shr_1_nonneg, H).
    rewrite shr_1_half by exact H.
    rewrite !Z.div_div by lia.
    f_equal. assert (E : Z.pos n~1 = 1 + Z.pos n + Z.pos n) by lia.
    rewrite E, !Z.pow_add_r by lia. ring.
  - rewrite IH by (apply iter_shr_1_nonneg, H). rewrite IH by exact H.
    rewrite Z.div_div by lia.
    f_equal. assert (E : Z.pos n~0 = Z.pos n + Z.pos n) by lia.
    rewrite E, Z.pow_add_r by lia. reflexivity.
  - apply shr_1_half, H.
Qed.

(** Above the smallest exponent a shift keeps a positive mantissa
    positive. *)
Lemma shr_fexp_pos (m : positive) (e : Z) (l : location) :
  SpecFloat.emin prec emax <= e ->
  0 < shr_m (fst (shr_fexp prec emax (Z.pos m) e l)) /\
  SpecFloat.emin prec emax <= snd (shr_fexp prec emax (Z.pos m) e l).
Proof.
  intros He. unfold shr_fexp, shr. cbn [Zdigits2].
  assert (H0 : shr_m (shr_record_of_loc (Z.pos m) l) = Z.pos m)
    by (destruct l as [|[ | | ]]; reflexivity).
  destruct (fexp prec emax (Z.pos (digits2_pos m) + e) - e) as [|n|n] eqn:E;
    cbn [fst snd]; rewrite ?H0; try (split; lia).
  rewrite iter_shr_1_value by (rewrite H0; lia). rewrite H0.
  unfold fexp in E.
  change (IntDef.Z.max ?a ?b) with (Z.max a b) in E.
  assert (Hn : Z.pos n = Z.pos (digits2_pos m) - prec) by lia.
  pose proof (digits2_pos_lower m) as Hlow.
  assert (Hpow : 2 ^ Z.pos n <= 2 ^ (Z.pos (digits2_pos m) - 1))
    by (apply Z.pow_le_mono_r; unfold prec in Hn; lia).
  assert (Hpos : 0 < 2 ^ Z.pos n) by (apply Z.pow_pos_nonneg; lia).
  split; [|lia].
  apply Z.div_str_pos. lia.
Qed.

Lemma round_nearest_even_pos (m : Z) (l : location) :
  0 < m -> 0 < round_nearest_even m l.
Proof.
  intros H. destruct l as [|[ | | ]]; cbn [round_nearest_even]; try lia.
  destruct (IntDef.Z.even m); lia.
Qed.

Lemma binary_round_aux_pos (m : positive) (e : Z) (l : location) :
  SpecFloat.emin prec emax <= e ->
  isPositive (binary_round_aux prec emax false (Z.pos m) e l) = true.
Proof.
  intros He. unfold binary_round_aux.
  destruct (shr_fexp_pos m e l He) as [H1 He1].
  destruct (shr_fexp prec emax (Z.pos m) e l) as [mrs' e'].
  cbn [fst snd] in H1, He1.
  pose proof (round_nearest_even_pos _ (loc_of_shr_record mrs') H1) as H2.
  destruct (round_nearest_even (shr_m mrs') (loc_of_shr_record mrs'))
    as [|m2|m2]; try lia.
  destruct (shr_fexp_pos m2 e' loc_Exact He1) as [H3 _].
  destruct (shr_fexp prec emax (Z.pos m2) e' loc_Exact) as [mrs'' e''].
  cbn [fst] in H3.
  destruct (shr_m mrs'') as [|m3|m3]; try lia.
  destruct (e'' <=? emax - prec); reflexivity.
Qed.

Lemma binary_normalize_pos (z e : Z) :
  0 < z -> SpecFloat.emin prec emax <= e ->
  isPositive (binary_normalize prec emax z e false) = true.
Proof.
  intros Hz He. destruct z as [|p|p]; try lia.
  cbn [binary_normalize]. unfold binary_round.
  assert (Hmin : SpecFloat.emin prec emax <=
                 fexp prec emax (Z.pos (digits2_pos p) + e)).
  { unfold fexp. change (IntDef.Z.max ?a ?b) with (Z.max a b). lia. }
  unfold shl_align.
  destruct (fexp prec emax (Z.pos (digits2_pos p) + e) - e) eqn:E;
    apply binary_round_aux_pos; lia.
Qed.

Lemma valid_exponent (s : bool) (m : positive) (e : Z) :
  valid_binary (S754_finite s m e) = true ->
  SpecFloat.emin prec emax <= e.
Proof.
  intros H. simpl in H. unfold bounded, canonical_mantissa in H.
  apply andb_true_iff in H. destruct H as [H _]. apply Z.eqb_eq in H.
  unfold fexp in H. change (IntDef.Z.max ?a ?b) with (Z.max a b) in H. lia.
Qed.

(** The sum of two numbers that are not negative is not negative, and it is
    above 0 when one of them is. *)
Lemma SFadd_nonneg (x y : spec_float) :
  valid_binary x = true -> valid_binary y = true ->
  isNonNegative x = true -> isNonNegative y = true ->
  isNonNegative (SF64add x y) = true /\
  isPositive (SF64add x y) = isPositive x || isPositive y.
Proof.
  intros Vx Vy Hx Hy.
  destruct x as [[|]|[|]| |[|] mx ex]; try discriminate Hx;
    destruct y as [[|]|[|]| |[|] my ey]; try discriminate Hy;
    try (split; reflexivity).
  pose proof (valid_exponent _ _ _ Vx) as Ex.
  pose proof (valid_exponent _ _ _ Vy) as Ey.
  assert (H : isPositive (SF64add (S754_finite false mx ex)
                                  (S754_finite false my ey)) = true).
  { unfold SF64add, SFadd. apply binary_normalize_pos.
    - cbn [cond_Zopp]. lia.
    - change (IntDef.Z.min ex ey) with (Z.min ex ey). lia. }
  split; [|rewrite H; reflexivity].
  destruct (SF64add _ _) as [[|]|[|]| |[|] m e]; try discriminate H;
    reflexivity.
Qed.

(** A double above 50, minus 50, is above 0. *)
Lemma SFsub_50_positive (x : spec_float) :
  valid_binary x = true ->
  SFltb (S754_finite false 7036874417766400 (-47)) x = true ->
  isPositive (SF64sub x (S754_finite false 7036874417766400 (-47))) = true.
Proof.
  intros Hv Hlt.
  destruct x as [sx|sx| |sx mx ex]; try (destruct sx); try discriminate;
    try reflexivity.
  pose proof (valid_exponent _ _ _ Hv) as Hex.
  unfold SF64sub, SFsub. apply binary_normalize_pos.
  - unfold cond_Zopp.
    cbv beta iota delta [SFltb SFcompare] in Hlt.
    destruct (-47 ?= ex) eqn:E; try discriminate.
    + apply Z.compare_eq in E. subst ex.
      rewrite Z.min_id. rewrite !shl_align_value by lia.
      rewrite Z.sub_diag. simpl (2 ^ 0). rewrite !Z.mul_1_r.
      destruct (PosDef.Pos.compare_cont Eq 7036874417766400 mx) eqn:C;
        try discriminate.
      change (PosDef.Pos.compare_cont Eq 7036874417766400 mx)
        with (Pos.compare 7036874417766400 mx) in C.
      assert (7036874417766400 < mx)%positive by exact C. lia.
    + rewrite Z.compare_lt_iff in E.
      rewrite Z.min_r by lia. rewrite !shl_align_value by lia.
      rewrite Z.sub_diag. simpl (2 ^ 0). rewrite Z.mul_1_r.
      simpl in Hv. unfold bounded, canonical_mantissa in Hv.
      apply andb_true_iff in Hv. destruct Hv as [Hc _].
      apply Z.eqb_eq in Hc. unfold fexp, SpecFloat.emin in Hc.
      assert (Hd : Z.pos (digits2_pos mx) = 53)
        by (unfold prec, emax in Hc; lia).
      pose proof (digits2_pos_lower mx) as Hm. rewrite Hd in Hm.
      assert (Hp : 2 ^ 1 <= 2 ^ (ex - -47))
        by (apply Z.pow_le_mono_r; lia).
      change (2 ^ (53 - 1)) with 4503599627370496 in Hm.
      change (2 ^ 1) with 2 in Hp.
      nia.
  - change (IntDef.Z.min ex (-47)) with (Z.min ex (-47)).
    unfold SpecFloat.emin, prec, emax in *. lia.
Qed.

Lemma ltb_zero_positive (x : float) :
  (0 <? x)%float = isPositive (Prim2SF x).
Proof.
  rewrite FloatAxioms.ltb_spec. change (Prim2SF 0%float) with (S754_zero false).
  destruct (Prim2SF x) as [[|]|[|]| |[|] m e]; reflexivity.
Qed.

Lemma positive_nonneg (x : spec_float) :
  isPositive x = true -> isNonNegative x = true.
Proof. destruct x as [[|]|[|]| |[|] m e]; try discriminate; reflexivity. Qed.

(** The blocking time of an event is not negative, and it is above 0
    exactly when the event lasted more than 50 ms. *)
Lemma calculateBlockingTime_sign (event : TraceEvent) :
  isNonNegative (Prim2SF (calculateBlockingTime event)) = true /\
  isPositive (Prim2SF (calculateBlockingTime event)) = isLong event.
Proof.
  unfold calculateBlockingTime, isLong.
  destruct (50 <? toNumber (ev_dur event) / 1000)%float eqn:E.
  - assert (H : isPositive
                  (Prim2SF (toNumber (ev_dur event) / 1000 - 50)%float)
                = true).
    { rewrite sub_spec.
      change (Prim2SF 50%float)
        with (S754_finite false 7036874417766400 (-47)).
      apply SFsub_50_positive; [apply Prim2SF_valid|].
      rewrite FloatAxioms.ltb_spec in E. exact E. }
    split; [apply positive_nonneg, H|exact H].
  - split; reflexivity.
Qed.

Lemma fold_add_sign (l : list float) :
  forall acc : float,
    isNonNegative (Prim2SF acc) = true ->
    (forall b, In b l -> isNonNegative (Prim2SF b) = true) ->
    isNonNegative (Prim2SF (fold_left PrimFloat.add l acc)) = true /\
    isPositive (Prim2SF (fold_left PrimFloat.add l acc)) =
    isPositive (Prim2SF acc) || existsb (fun b => isPositive (Prim2SF b)) l.
Proof.
  induction l as [|b l IH]; intros acc Hacc Hl; cbn [fold_left existsb].
  - rewrite orb_false_r. auto.
  - destruct (SFadd_nonneg (Prim2SF acc) (Prim2SF b)
                (Prim2SF_valid acc) (Prim2SF_valid b) Hacc
                (Hl b (or_introl eq_refl))) as [Hn Hp].
    rewrite <- add_spec in Hn, Hp.
    destruct (IH (acc + b)%float Hn
                 (fun b' Hb' => Hl b' (or_intror Hb'))) as [Hn' Hp'].
    split; [exact Hn'|]. rewrite Hp', Hp, orb_assoc. reflexivity.
Qed.

(** The blocking time of a summary is above 0 exactly when one of the
    events lasted more than 50 ms. *)
Lemma sumOf_blocking_positive (matching : list TraceEvent) :
  (0 <? sumOf (map calculateBlockingTime matching))%float =
  existsb isLong matching.
Proof.
  rewrite ltb_zero_positive. unfold sumOf.
  destruct (fold_add_sign (map calculateBlockingTime matching) 0%float
              eq_refl) as [_ H].
  { intros b Hb. apply in_map_iff in Hb. destruct Hb as (e & <- & _).
    apply calculateBlockingTime_sign. }
  rewrite H. clear H. change (isPositive (Prim2SF 0%float)) with false.
  cbn [orb]. induction matching as [|e matching IH]; [reflexivity|].
  cbn [map existsb]. rewrite IH.
  destruct (calculateBlockingTime_sign e) as [_ ->]. reflexivity.
Qed.

(** X20: the flag of a task.  A task of the aggregation has blocking time
    above 0, and so the flag "Yes" in the report, exactly when one of the
    qualifying events with its key lasted more than 50 ms; the additions of
    the blocking times neither lose a long event nor make one up. *)
Theorem hasLongTasks_iff_long_event (events : list TraceEvent)
    (task : Task) :
  task ∈ aggregate events ->
  (hasLongTasks task = "Yes" <->
   exists e, e ∈ qualifying events /\
             uniqueKeyOf e = taskKey task /\
             isLong e = true).
Proof.
  intros Hin. destruct (aggregate_by_key events) as (_ & _ & Htask).
  specialize (Htask task Hin). unfold taskOfKey in Htask.
  destruct (eventsWithKey (taskKey task) events) as [|first rest] eqn:E;
    [discriminate Htask|].
  assert (Hb : (0 <? blockingTime task)%float =
               existsb isLong (eventsWithKey (taskKey task) events)).
  { rewrite E. injection Htask as <-. cbn [blockingTime summaryOf].
    apply sumOf_blocking_positive. }
  unfold hasLongTasks. rewrite Hb. clear Hb E Htask.
  split.
  - intros H.
    destruct (existsb isLong (eventsWithKey (taskKey task) events)) eqn:X;
      [|discriminate H].
    apply existsb_exists in X. destruct X as (e & He & Hlong).
    unfold eventsWithKey in He. apply filter_In in He.
    destruct He as [He Hk]. apply String.eqb_eq in Hk.
    exists e. split; [apply list_elem_of_In, He|]. auto.
  - intros (e & He & Hk & Hlong).
    assert (X : existsb isLong (eventsWithKey (taskKey task) events) = true).
    { apply existsb_exists. exists e. split; [|exact Hlong].
      unfold eventsWithKey. apply filter_In.
      split; [apply list_elem_of_In, He|]. apply String.eqb_eq, Hk. }
    rewrite X. reflexivity.
Qed.

End LongTasks.

Lemma hasLongTasks_iff_long_event_witness :
  let task := mkTask "EvaluateScript" "" 100 170 2 "devtools.timeline,v8" in
  hasLongTasks task = "Yes" <->
  exists e, e ∈ qualifying [shortScript; evaluateScript; idleEvent] /\
            uniqueKeyOf e = taskKey task /\
            isLong e = true.
Proof.
  intros task.
  apply (hasLongTasks_iff_long_event
           [shortScript; evaluateScript; idleEvent] task).
  assert (E : aggregate [shortScript; evaluateScript; idleEvent] = [task])
    by (vm_compute; reflexivity).
  rewrite E. left.
Defined.
